(** * FGD comparator: a shallow embedding of the schema differencing code

    The repository holds two variants of one script that compares two parsed
    FGD schemas (Counter-Strike: Source against Counter-Strike: Global
    Offensive):

    - [fgdcomparator.py], embedded in [Module FgdComparator];
    - [csgo_to_css_comparison.py], embedded in [Module CsgoToCss].

    Both consume the object model of the [valvefgd] package and build a tree
    of Python dicts, lists and strings that is later handed to [json.dump].
    The embedding keeps that shape: reports are values of [pyval], input
    objects are records, Python dicts built from the input are finite maps,
    Python sets are finite sets whose iteration order is a parameter. *)

From stdpp Require Import base decidable option list strings gmap sorting pretty.
From Stdlib Require Import Ascii QArith.

Set Warnings "-register-all,-clear-no-such-hyp".
Local Open Scope Z_scope.

(** ** Python values *)

(** Keys of the dicts that occur in a report: strings, and the tuples under
    which editor data is filed. *)
Inductive pykey :=
| KStr (s : string)
| KTuple (t : list string).

(** The fragment of Python's values that reports are made of.  A dict is kept
    as the list of its items in insertion order, as Python 3.7 and later
    iterate and serialise it. *)
Inductive pyval :=
| PNone
| PBool (b : bool)
| PInt (z : Z)
| PStr (s : string)
| PList (l : list pyval)
| PDict (d : list (pykey * pyval)).

Coercion KStr : string >-> pykey.

Abbreviation pydict := (list (pykey * pyval)).

Global Instance pykey_eq_dec : EqDecision pykey.
Proof. solve_decision. Defined.

Fixpoint pyval_eq_dec (x y : pyval) : {x = y} + {x ≠ y}.
Proof.
  refine
    (match x, y with
     | PNone, PNone => left eq_refl
     | PBool a, PBool b => cast_if (decide (a = b))
     | PInt a, PInt b => cast_if (decide (a = b))
     | PStr a, PStr b => cast_if (decide (a = b))
     | PList a, PList b =>
         cast_if (list_eq_dec (dec := pyval_eq_dec) a b)
     | PDict a, PDict b =>
         cast_if (list_eq_dec
                    (dec := fun p q : pykey * pyval =>
                              match decide (p.1 = q.1), pyval_eq_dec p.2 q.2 with
                              | left _, left _ => left _
                              | _, _ => right _
                              end) a b)
     | _, _ => right _
     end); try congruence; destruct p, q; simpl in *; congruence.
Defined.

Global Instance pyval_eq_decision : EqDecision pyval := pyval_eq_dec.

(** Python's truth value of an object ([bool(x)], as tested by [if x:]). *)
Definition truthy (v : pyval) : bool :=
  match v with
  | PNone => false
  | PBool b => b
  | PInt z => negb (z =? 0)%Z
  | PStr s => negb (bool_decide (s = ""))
  | PList l => match l with [] => false | _ => true end
  | PDict d => match d with [] => false | _ => true end
  end.

(** [d.get(k)] *)
Fixpoint dict_get (k : pykey) (d : pydict) : option pyval :=
  match d with
  | [] => None
  | (k', v) :: d' => if decide (k' = k) then Some v else dict_get k d'
  end.

(** [k in d] *)
Definition dict_has (k : pykey) (d : pydict) : bool :=
  match dict_get k d with Some _ => true | None => false end.

(** [d[k] = v]: an existing key keeps its place, a new one goes last. *)
Fixpoint dict_set (k : pykey) (v : pyval) (d : pydict) : pydict :=
  match d with
  | [] => [(k, v)]
  | (k', v') :: d' =>
      if decide (k' = k) then (k', v) :: d' else (k', v') :: dict_set k v d'
  end.

(** [list(d.keys())] and [list(d.values())] *)
Definition dict_keys (d : pydict) : list pykey := d.*1.
Definition dict_values (d : pydict) : list pyval := d.*2.

(** [any(xs)] *)
Definition py_any (xs : list pyval) : bool := existsb truthy xs.

(** ** Exceptions *)

Inductive exn :=
| ValueError (literal : string)
| KeyError (key : string)
| TypeError
| StopIteration.

Inductive result (A : Type) :=
| Ok (a : A)
| Raise (e : exn).
Arguments Ok {A} a.
Arguments Raise {A} e.

Global Instance result_ret : MRet result := fun A a => Ok a.
Global Instance result_bind : MBind result := fun A B f m =>
  match m with Ok a => f a | Raise e => Raise e end.

Global Instance exn_eq_dec : EqDecision exn.
Proof. solve_decision. Defined.
Global Instance result_eq_dec `{EqDecision A} : EqDecision (result A).
Proof. solve_decision. Defined.

(** A [for] loop that threads an accumulator and stops at the first
    exception. *)
Fixpoint for_each {A S : Type} (f : S → A → result S) (s : S) (l : list A)
  : result S :=
  match l with
  | [] => Ok s
  | x :: l' => s' ← f s x; for_each f s' l'
  end.

(** [next(it)] on a generator that was turned into a list, and
    [next(it, None)]. *)
Definition next {A : Type} (l : list A) : result A :=
  match l with x :: _ => Ok x | [] => Raise StopIteration end.

Definition next_or_none {A : Type} (l : list A) : option A := head l.

(** ** Strings *)

(** [str.lower()] on ASCII text: the letters A to Z move to a to z, every
    other character stays. *)
Definition lower_ascii (c : ascii) : ascii :=
  let n := N_of_ascii c in
  if ((65 <=? n) && (n <=? 90))%N then ascii_of_N (n + 32) else c.

Fixpoint lower (s : string) : string :=
  match s with
  | EmptyString => EmptyString
  | String c s' => String (lower_ascii c) (lower s')
  end.

(** Whitespace that [int()] strips around a literal: tab, line feed,
    vertical tab, form feed, carriage return and space. *)
Definition is_py_space (c : ascii) : bool :=
  let n := N_of_ascii c in
  (((9 <=? n) && (n <=? 13)) || (n =? 32))%N.

Fixpoint lstrip (s : string) : string :=
  match s with
  | String c s' => if is_py_space c then lstrip s' else s
  | EmptyString => EmptyString
  end.

Definition strip (s : string) : string :=
  String.rev (lstrip (String.rev (lstrip s))).

Definition digit_of (c : ascii) : option Z :=
  let n := N_of_ascii c in
  if ((48 <=? n) && (n <=? 57))%N then Some (Z.of_N (n - 48)) else None.

(** The digits of a decimal literal; a single underscore may separate two
    digits. *)
Fixpoint parse_digits (acc : Z) (after_digit : bool) (s : string) : option Z :=
  match s with
  | EmptyString => if after_digit then Some acc else None
  | String c s' =>
      match digit_of c with
      | Some d => parse_digits (10 * acc + d) true s'
      | None =>
          if Ascii.eqb c "_"%char && after_digit
          then parse_digits acc false s'
          else None
      end
  end.

(** [int(s)] for a string [s], base 10. *)
Definition int_of_string (s : string) : result Z :=
  let body := strip s in
  let parsed :=
    match body with
    | String "-"%char s' => Z.opp <$> parse_digits 0 false s'
    | String "+"%char s' => parse_digits 0 false s'
    | _ => parse_digits 0 false body
    end in
  match parsed with
  | Some z => Ok z
  | None => Raise (ValueError s)
  end.

(** ** Sorting and sets *)

(** [sorted(xs)]: Python's sort is stable and only asks whether one element
    is less than another.  [lt] is that test. *)
Section sorted.
Context {A : Type} (lt : A → A → bool).

Fixpoint insert_sorted (x : A) (l : list A) : list A :=
  match l with
  | [] => [x]
  | y :: l' => if lt y x then y :: insert_sorted x l' else x :: l
  end.

Definition sorted (l : list A) : list A := foldr insert_sorted [] l.
End sorted.

(** The order that [sorted lt] leaves a list in: [not_after lt x y] says
    that [y] is not less than [x]. *)
Definition not_after {A : Type} (lt : A → A → bool) (x y : A) : Prop :=
  lt y x = false.

(** [sorted] on a list of strings. *)
Definition sorted_str : list string → list string := sorted String.ltb.

(** ** Equality of Python values

    [x == y] and [x != y] on the values of the embedding: a number equals a
    number of the same value ([True == 1]), a list equals a list with equal
    items in the same order, a dict equals a dict with the same keys and
    equal values whatever the order in which the keys went in, and values
    of different kinds are not equal.  [canonical] brings a value to the
    form in which equal values are the same term: booleans become the
    integers they count as and the items of a dict are put in the order of
    their keys.  The order on keys only serves to line up two dicts and
    shows nowhere else.  A Python dict has no key twice; of the items of a
    [PDict] with one key the first one counts, as for [dict_get]. *)
Global Instance pykey_countable : Countable pykey.
Proof.
  refine (inj_countable'
            (fun k => match k with KStr s => inl s | KTuple l => inr l end)
            (fun x => match x with inl s => KStr s | inr l => KTuple l end) _).
  by intros [].
Defined.

Definition pykey_lt (k1 k2 : pykey) : bool :=
  (encode k1 <? encode k2)%positive.

Fixpoint unique_keys (d : pydict) : pydict :=
  match d with
  | [] => []
  | (k, v) :: d' => (k, v) :: filter (fun kv => kv.1 ≠ k) (unique_keys d')
  end.

Fixpoint canonical (v : pyval) : pyval :=
  match v with
  | PBool b => PInt (if b then 1 else 0)
  | PList l =>
      PList ((fix items (l : list pyval) : list pyval :=
                match l with
                | [] => []
                | x :: l' => canonical x :: items l'
                end) l)
  | PDict d =>
      PDict (sorted (fun kv1 kv2 => pykey_lt kv1.1 kv2.1)
               (unique_keys
                  ((fix items (d : pydict) : pydict :=
                      match d with
                      | [] => []
                      | (k, x) :: d' => (k, canonical x) :: items d'
                      end) d)))
  | _ => v
  end.

Definition py_eq (x y : pyval) : bool :=
  bool_decide (canonical x = canonical y).

(** The order in which Python hands out the elements of a set is not fixed
    by the language; for strings it changes from run to run.  The embedding
    takes it as a parameter: one enumeration per kind of set the code
    iterates. *)
Record iteration := {
  iter_str : gset string → list string;
  iter_int : gset Z → list Z;
  iter_tuple : gset (list string) → list (list string);
}.

(** An enumeration is admissible when it lists every element once. *)
Record iteration_ok (it : iteration) : Prop := {
  iter_str_ok : ∀ X, iter_str it X ≡ₚ elements X;
  iter_int_ok : ∀ X, iter_int it X ≡ₚ elements X;
  iter_tuple_ok : ∀ X, iter_tuple it X ≡ₚ elements X;
}.

(** ** The object model of [valvefgd]

    The package is imported by both scripts and is not part of the
    repository; the records below carry the attributes the scripts read,
    with the types the data model of the design gives them.  Every object of
    these classes is true in a condition ([if css_flag and not csgo_flag],
    [if not css_entity]); two choices, like two definition clauses, are equal
    when their attributes are. *)

(** Modelled from the spec: the class [FgdEntityPropertyChoice], a (value,
    display name) pair of an enumerated property. *)
Record FgdEntityPropertyChoice := {
  choice_value : string;
  choice_display_name : string;
}.

(** Modelled from the spec: the class [FgdEntityProperty]: name, declared
    value type, readonly flag, report flag, display name, default value,
    description, and the choices of an enumerated type ([None] otherwise). *)
Record FgdEntityProperty := {
  prop_name : string;
  prop_value_type : string;
  prop_readonly : bool;
  prop_report : bool;
  prop_display_name : option string;
  prop_default_value : option string;
  prop_description : option string;
  prop_choices : option (list FgdEntityPropertyChoice);
}.

(** Modelled from the spec: the [value] of a spawnflag.  It is what both
    scripts apply [int()] to, and the one script expects [int()] to be able
    to raise [ValueError] on it: an integer already, or text that may or may
    not be a decimal literal. *)
Inductive flag_literal :=
| FInt (z : Z)
| FStr (s : string).

(** Modelled from the spec: the class [FgdEntitySpawnflag]: bit value,
    display name, default state. *)
Record FgdEntitySpawnflag := {
  flag_value : flag_literal;
  flag_display_name : string;
  flag_default_value : bool;
}.

(** Modelled from the spec: the classes [FgdEntityInput] and
    [FgdEntityOutput].  They have the same attributes (name, declared value
    type, description); [io_type] is the discriminant, the class of the
    object ([type(io)]). *)
Inductive io_class := FgdEntityInput | FgdEntityOutput.

Record FgdEntityIO := {
  io_type : io_class;
  io_name : string;
  io_value_type : string;
  io_description : option string;
}.

(** Modelled from the spec: a raw definition clause of an entity header,
    such as [base(Targetname)]: the dict [{'name': ..., 'args': [...]}]. *)
Record FgdDefinition := {
  def_name : string;
  def_args : list string;
}.

(** Modelled from the spec: the class [FgdEntity]. *)
Record FgdEntity := {
  ent_name : string;
  ent_class_type : string;
  ent_description : option string;
  ent_definitions : list FgdDefinition;
  ent_properties : list FgdEntityProperty;
  ent_spawnflags : list FgdEntitySpawnflag;
  ent_inputs : list FgdEntityIO;
  ent_outputs : list FgdEntityIO;
}.

(** Modelled from the spec: the class [FgdEditorData]: class type,
    optional name, and a payload that the scripts only compare with [!=] and
    copy into the report.  The payload is kept in the form in which the
    report shows it. *)
Record FgdEditorData := {
  ed_class_type : string;
  ed_name : option string;
  ed_data : pyval;
}.

(** Modelled from the spec: the class [Fgd], the parsed schema. *)
Record Fgd := {
  entities : list FgdEntity;
  editor_data : list FgdEditorData;
}.

Global Instance choice_eq_dec : EqDecision FgdEntityPropertyChoice.
Proof. solve_decision. Defined.
Global Instance definition_eq_dec : EqDecision FgdDefinition.
Proof. solve_decision. Defined.
Global Instance io_class_eq_dec : EqDecision io_class.
Proof. solve_decision. Defined.

(** *** Attribute access and rendering *)

Definition py_opt_str (o : option string) : pyval :=
  match o with Some s => PStr s | None => PNone end.

(** [{'css': a, 'csgo': b}] *)
Definition css_csgo (a b : pyval) : pyval :=
  PDict [(KStr "css", a); (KStr "csgo", b)].

(** [getattr(prop, attr)] for the attribute names the scripts pass. *)
Definition prop_getattr (p : FgdEntityProperty) (attr : string) : pyval :=
  if decide (attr = "value_type") then PStr (prop_value_type p)
  else if decide (attr = "readonly") then PBool (prop_readonly p)
  else if decide (attr = "report") then PBool (prop_report p)
  else if decide (attr = "display_name") then py_opt_str (prop_display_name p)
  else if decide (attr = "default_value") then py_opt_str (prop_default_value p)
  else if decide (attr = "description") then py_opt_str (prop_description p)
  else PNone.

(** [getattr(flag, attr, None)] *)
Definition flag_getattr (f : FgdEntitySpawnflag) (attr : string) : pyval :=
  if decide (attr = "display_name") then PStr (flag_display_name f)
  else if decide (attr = "default_value") then PBool (flag_default_value f)
  else PNone.

(** [getattr(io, attr, None)] *)
Definition io_getattr (io : FgdEntityIO) (attr : string) : pyval :=
  if decide (attr = "value_type") then PStr (io_value_type io)
  else if decide (attr = "description") then py_opt_str (io_description io)
  else PNone.

(** [type(io).__name__] *)
Definition io_class_name (c : io_class) : string :=
  match c with
  | FgdEntityInput => "FgdEntityInput"
  | FgdEntityOutput => "FgdEntityOutput"
  end.

Definition flag_literal_py (v : flag_literal) : pyval :=
  match v with FInt z => PInt z | FStr s => PStr s end.

(** [str(flag.value)], as an f-string renders it. *)
Definition flag_literal_str (v : flag_literal) : string :=
  match v with FInt z => pretty z | FStr s => s end.

(** [int(flag.value)] *)
Definition py_int (v : flag_literal) : result Z :=
  match v with FInt z => Ok z | FStr s => int_of_string s end.

(** Modelled from the spec: the [schema] property of a spawnflag and of a
    choice, the object as a dict of its attributes. *)
Definition flag_schema (f : FgdEntitySpawnflag) : pyval :=
  PDict [(KStr "value", flag_literal_py (flag_value f));
         (KStr "display_name", PStr (flag_display_name f));
         (KStr "default_value", PBool (flag_default_value f))].

(** Modelled from the spec: [c.schema] of a choice [c]; also the dict
    [{'value': c.value, 'display_name': c.display_name}] that
    [csgo_to_css_comparison.py] builds by hand. *)
Definition choice_schema (c : FgdEntityPropertyChoice) : pyval :=
  PDict [(KStr "value", PStr (choice_value c));
         (KStr "display_name", PStr (choice_display_name c))].

(** A definition clause as it appears in a report. *)
Definition definition_py (d : FgdDefinition) : pyval :=
  PDict [(KStr "name", PStr (def_name d));
         (KStr "args", PList (PStr <$> def_args d))].

(** Modelled from the spec: [ed.to_dict()], the block with its full
    payload. *)
Definition ed_to_dict (ed : FgdEditorData) : pyval :=
  PDict [(KStr "class_type", PStr (ed_class_type ed));
         (KStr "name", py_opt_str (ed_name ed));
         (KStr "data", ed_data ed)].

(** [{key(x): x for x in xs}]: a later item replaces an earlier one filed
    under the same key. *)
Definition dict_of `{Countable K} {A : Type} (key : A → K) (xs : list A)
  : gmap K A :=
  foldl (fun m x => <[key x := x]> m) ∅ xs.

(** [set(key(x) for x in xs)] *)
Definition set_of `{Countable K} {A : Type} (key : A → K) (xs : list A)
  : gset K :=
  list_to_set (key <$> xs).

(** [obj[k]], [len(obj)] and the use of an object as a number. *)
Definition py_getitem (v : pyval) (k : string) : result pyval :=
  match v with
  | PDict d =>
      match dict_get (KStr k) d with
      | Some x => Ok x
      | None => Raise (KeyError k)
      end
  | _ => Raise TypeError
  end.

Definition py_len (v : pyval) : result Z :=
  match v with
  | PList l => Ok (Z.of_nat (length l))
  | PDict d => Ok (Z.of_nat (length d))
  | PStr s => Ok (Z.of_nat (String.length s))
  | _ => Raise TypeError
  end.

Definition py_number (v : pyval) : result Q :=
  match v with
  | PInt z => Ok (inject_Z z)
  | PBool b => Ok (inject_Z (if b then 1 else 0))
  | _ => Raise TypeError
  end.

(** The loop [for attr in attrs: if getattr(css, attr) != getattr(csgo, attr):
    differences[attr] = {'css': ..., 'csgo': ...}] that the item comparators
    of both scripts share. *)
Definition compare_attrs {X : Type} (getattr : X → string → pyval)
    (attrs : list string) (css csgo : X) (differences : pydict) : pydict :=
  foldl (fun differences attr =>
           let css_value := getattr css attr in
           let csgo_value := getattr csgo attr in
           if bool_decide (css_value ≠ csgo_value)
           then dict_set (KStr attr) (css_csgo css_value csgo_value) differences
           else differences)
        differences attrs.

(** The tail [return differences if differences else None]. *)
Definition dict_or_none (differences : pydict) : pyval :=
  if truthy (PDict differences) then PDict differences else PNone.

(** The loop [for name in set(css_dict.keys()) & set(csgo_dict.keys())] of
    [compare_properties] and [compare_io], the same text in both scripts:
    every pair filed under a common key goes to the item comparator, and a
    non-empty answer is stored in [differences['modified']] under the
    [.name] of the item on the CS:GO side.  The keys come from the
    intersection of the two key sets, so both lookups succeed
    ([modified_items_keys]); the last branch of the match is never taken. *)
Definition modified_items {X : Type} (it : iteration) (name : X → string)
    (compare_item : X → X → pyval) (css_dict csgo_dict : gmap string X)
  : pydict :=
  foldl (fun modified key =>
           match css_dict !! key, csgo_dict !! key with
           | Some css_item, Some csgo_item =>
               let item_diff := compare_item css_item csgo_item in
               if truthy item_diff
               then dict_set (KStr (name csgo_item)) item_diff modified
               else modified
           | _, _ => modified
           end)
        [] (iter_str it (dom css_dict ∩ dom csgo_dict)).

(** The generator [(e for e in fgd.entities if e.name.lower() == entity_name)]
    that both scripts hand to [next] walks this list. *)
Definition entities_named (fgd : Fgd) (entity_name : string) : list FgdEntity :=
  filter (fun e => lower (ent_name e) = entity_name) (entities fgd).

(** * fgdcomparator.py *)

Module FgdComparator.

Definition compare_io_item (css_io csgo_io : FgdEntityIO) : pyval :=
  let differences :=
    compare_attrs io_getattr ["value_type"; "description"] css_io csgo_io [] in
  dict_or_none differences.

Definition compare_io (it : iteration) (css_io csgo_io : list FgdEntityIO)
    (io_type : string) : pyval :=
  let css_io_dict := dict_of (fun io => lower (io_name io)) css_io in
  let csgo_io_dict := dict_of (fun io => lower (io_name io)) csgo_io in
  let new := sorted_str (iter_str it (dom csgo_io_dict ∖ dom css_io_dict)) in
  let removed := sorted_str (iter_str it (dom css_io_dict ∖ dom csgo_io_dict)) in
  let modified :=
    modified_items it io_name compare_io_item css_io_dict csgo_io_dict in
  let differences :=
    [(KStr "new", PList (PStr <$> new));
     (KStr "removed", PList (PStr <$> removed));
     (KStr "modified", PDict modified)] in
  if py_any (dict_values differences) then PDict differences else PNone.

Definition compare_spawnflag (css_flag csgo_flag : FgdEntitySpawnflag) : pyval :=
  let differences := [] in
  let differences :=
    if bool_decide (flag_display_name css_flag ≠ flag_display_name csgo_flag)
    then dict_set (KStr "display_name")
           (css_csgo (PStr (flag_display_name css_flag))
                     (PStr (flag_display_name csgo_flag))) differences
    else differences in
  let differences :=
    if bool_decide (flag_default_value css_flag ≠ flag_default_value csgo_flag)
    then dict_set (KStr "default_value")
           (css_csgo (PBool (flag_default_value css_flag))
                     (PBool (flag_default_value csgo_flag))) differences
    else differences in
  dict_or_none differences.

(** [{int(flag.value): flag for flag in flags}]: the first value that is
    not an integer literal raises. *)
Definition flag_dict (flags : list FgdEntitySpawnflag)
  : result (gmap Z FgdEntitySpawnflag) :=
  for_each (fun m flag => value ← py_int (flag_value flag);
                          mret (<[value := flag]> m)) ∅ flags.

(** The body of the loop over [all_values]; the state is the triple of
    [differences['new']], [differences['removed']] and
    [differences['modified']].  [css_flag_dict.get(value)] is [None] for an
    absent value and a flag object, which counts as true, otherwise; a value
    of [all_values] is a key of one of the two dicts at least. *)
Definition spawnflag_step (css_flag_dict csgo_flag_dict : gmap Z FgdEntitySpawnflag)
    (differences : list pyval * list pyval * pydict) (value : Z)
  : list pyval * list pyval * pydict :=
  let '(new, removed, modified) := differences in
  match css_flag_dict !! value, csgo_flag_dict !! value with
  | Some css_flag, None => (new, removed ++ [flag_schema css_flag], modified)
  | None, Some csgo_flag => (new ++ [flag_schema csgo_flag], removed, modified)
  | Some css_flag, Some csgo_flag =>
      let flag_diff := compare_spawnflag css_flag csgo_flag in
      if truthy flag_diff
      then (new, removed, dict_set (KStr (pretty value)) flag_diff modified)
      else differences
  | None, None => differences
  end.

Definition compare_spawnflags (it : iteration)
    (css_flags csgo_flags : list FgdEntitySpawnflag) : result pyval :=
  css_flag_dict ← flag_dict css_flags;
  csgo_flag_dict ← flag_dict csgo_flags;
  let all_values := dom css_flag_dict ∪ dom csgo_flag_dict in
  let '(new, removed, modified) :=
    foldl (spawnflag_step css_flag_dict csgo_flag_dict) ([], [], [])
          (iter_int it all_values) in
  let differences :=
    [(KStr "new", PList new);
     (KStr "removed", PList removed);
     (KStr "modified", PDict modified)] in
  mret (if py_any (dict_values differences) then PDict differences else PNone).

(** [[c.schema for c in choices] if choices else None] *)
Definition choices_schema (choices : option (list FgdEntityPropertyChoice))
  : pyval :=
  match choices with
  | Some (c :: cs) => PList (choice_schema <$> (c :: cs))
  | _ => PNone
  end.

Definition compare_property (css_prop csgo_prop : FgdEntityProperty) : pyval :=
  let differences :=
    compare_attrs prop_getattr
      ["value_type"; "readonly"; "report"; "display_name"; "default_value";
       "description"] css_prop csgo_prop [] in
  let differences :=
    if bool_decide (prop_choices css_prop ≠ prop_choices csgo_prop)
    then dict_set (KStr "choices")
           (css_csgo (choices_schema (prop_choices css_prop))
                     (choices_schema (prop_choices csgo_prop))) differences
    else differences in
  dict_or_none differences.

Definition compare_properties (it : iteration)
    (css_props csgo_props : list FgdEntityProperty) : pyval :=
  let css_prop_dict := dict_of (fun prop => lower (prop_name prop)) css_props in
  let csgo_prop_dict := dict_of (fun prop => lower (prop_name prop)) csgo_props in
  let new := sorted_str (iter_str it (dom csgo_prop_dict ∖ dom css_prop_dict)) in
  let removed := sorted_str (iter_str it (dom css_prop_dict ∖ dom csgo_prop_dict)) in
  let modified :=
    modified_items it prop_name compare_property css_prop_dict csgo_prop_dict in
  if truthy (PList (PStr <$> new)) || truthy (PList (PStr <$> removed))
     || truthy (PDict modified)
  then PDict [(KStr "new", PList (PStr <$> new));
              (KStr "removed", PList (PStr <$> removed));
              (KStr "modified", PDict modified)]
  else PNone.

(** [d.get('name') == 'base'] *)
Definition is_base (d : FgdDefinition) : bool :=
  bool_decide (def_name d = "base").

Definition compare_definitions (css_defs csgo_defs : list FgdDefinition) : pyval :=
  let css_bases := filter (fun d => is_base d) css_defs in
  let csgo_bases := filter (fun d => is_base d) csgo_defs in
  if bool_decide (css_bases ≠ csgo_bases)
  then PDict
         [(KStr "css", PList (definition_py <$> css_bases));
          (KStr "csgo", PList (definition_py <$> csgo_bases));
          (KStr "changes",
           PDict
             [(KStr "added",
               PList (definition_py <$>
                        filter (fun b => b ∉ css_bases) csgo_bases));
              (KStr "removed",
               PList (definition_py <$>
                        filter (fun b => b ∉ csgo_bases) css_bases))])]
  else PNone.

Definition count_changes (diff : pyval) : result pyval :=
  if negb (truthy diff)
  then mret (PDict [(KStr "new", PInt 0); (KStr "removed", PInt 0);
                    (KStr "modified", PInt 0)])
  else
    match diff with
    | PDict d =>
        new ← py_len (default (PList []) (dict_get (KStr "new") d));
        removed ← py_len (default (PList []) (dict_get (KStr "removed") d));
        modified ← py_len (default (PDict []) (dict_get (KStr "modified") d));
        mret (PDict [(KStr "new", PInt new); (KStr "removed", PInt removed);
                     (KStr "modified", PInt modified)])
    | _ => Raise TypeError
    end.

(** [changes_summary[kind][field]], read as a number. *)
Definition summary_count (changes_summary : pyval) (kind field : string)
  : result Q :=
  counts ← py_getitem changes_summary kind;
  n ← py_getitem counts field;
  py_number n.

(** The running total [complexity_score] of [calculate_porting_complexity].
    Every weight is a multiple of one half, so the floating point sums of
    the script are exact and the rationals carry them. *)
Definition complexity_score (differences : pydict) : result Q :=
  let complexity_score := 0%Q in
  let complexity_score :=
    if dict_has (KStr "class_type") differences
    then (complexity_score + 3)%Q else complexity_score in
  complexity_score ←
    (if dict_has (KStr "definitions") differences
     then
       definitions ← py_getitem (PDict differences) "definitions";
       changes ← py_getitem definitions "changes";
       added ← py_getitem changes "added";
       n_added ← py_len added;
       removed ← py_getitem changes "removed";
       n_removed ← py_len removed;
       mret (complexity_score + inject_Z n_added * 2 + inject_Z n_removed * 2)%Q
     else mret complexity_score);
  changes_summary ← py_getitem (PDict differences) "changes_summary";
  n ← summary_count changes_summary "properties" "new";
  let complexity_score := (complexity_score + n * 2)%Q in
  n ← summary_count changes_summary "properties" "removed";
  let complexity_score := (complexity_score + n * 2)%Q in
  n ← summary_count changes_summary "properties" "modified";
  let complexity_score := (complexity_score + n)%Q in
  n ← summary_count changes_summary "inputs" "new";
  let complexity_score := (complexity_score + n * (3 # 2))%Q in
  n ← summary_count changes_summary "inputs" "removed";
  let complexity_score := (complexity_score + n * (3 # 2))%Q in
  n ← summary_count changes_summary "inputs" "modified";
  let complexity_score := (complexity_score + n * (1 # 2))%Q in
  n ← summary_count changes_summary "outputs" "new";
  let complexity_score := (complexity_score + n * (3 # 2))%Q in
  n ← summary_count changes_summary "outputs" "removed";
  let complexity_score := (complexity_score + n * (3 # 2))%Q in
  n ← summary_count changes_summary "outputs" "modified";
  let complexity_score := (complexity_score + n * (1 # 2))%Q in
  n ← summary_count changes_summary "spawnflags" "new";
  let complexity_score := (complexity_score + n)%Q in
  n ← summary_count changes_summary "spawnflags" "removed";
  let complexity_score := (complexity_score + n)%Q in
  n ← summary_count changes_summary "spawnflags" "modified";
  let complexity_score := (complexity_score + n * (1 # 2))%Q in
  mret complexity_score.

(** The closing [if complexity_score > 20: ... elif complexity_score > 10:
    ... else: ...]. *)
Definition bucket (complexity_score : Q) : string :=
  if negb (Qle_bool complexity_score 20) then "High"
  else if negb (Qle_bool complexity_score 10) then "Medium"
  else "Low".

Definition calculate_porting_complexity (differences : pydict) : result string :=
  complexity_score ← complexity_score differences;
  mret (bucket complexity_score).

Definition compare_entity (it : iteration) (css_entity csgo_entity : FgdEntity)
  : result pydict :=
  let differences : pydict := [] in
  let differences :=
    if bool_decide (ent_class_type css_entity ≠ ent_class_type csgo_entity)
    then dict_set (KStr "class_type")
           (css_csgo (PStr (ent_class_type css_entity))
                     (PStr (ent_class_type csgo_entity))) differences
    else differences in
  let differences :=
    if bool_decide (ent_description css_entity ≠ ent_description csgo_entity)
    then dict_set (KStr "description")
           (css_csgo (py_opt_str (ent_description css_entity))
                     (py_opt_str (ent_description csgo_entity))) differences
    else differences in
  let definitions_diff :=
    compare_definitions (ent_definitions css_entity)
                        (ent_definitions csgo_entity) in
  let differences :=
    if truthy definitions_diff
    then dict_set (KStr "definitions") definitions_diff differences
    else differences in
  let prop_diff :=
    compare_properties it (ent_properties css_entity)
                          (ent_properties csgo_entity) in
  let differences :=
    if truthy prop_diff
    then dict_set (KStr "properties") prop_diff differences
    else differences in
  spawnflag_diff ←
    compare_spawnflags it (ent_spawnflags css_entity)
                          (ent_spawnflags csgo_entity);
  let differences :=
    if truthy spawnflag_diff
    then dict_set (KStr "spawnflags") spawnflag_diff differences
    else differences in
  let input_diff :=
    compare_io it (ent_inputs css_entity) (ent_inputs csgo_entity) "input" in
  let differences :=
    if truthy input_diff
    then dict_set (KStr "inputs") input_diff differences
    else differences in
  let output_diff :=
    compare_io it (ent_outputs css_entity) (ent_outputs csgo_entity) "output" in
  let differences :=
    if truthy output_diff
    then dict_set (KStr "outputs") output_diff differences
    else differences in
  if truthy (PDict differences)
  then
    properties ← count_changes prop_diff;
    inputs ← count_changes input_diff;
    outputs ← count_changes output_diff;
    spawnflags ← count_changes spawnflag_diff;
    let differences :=
      dict_set (KStr "changes_summary")
        (PDict [(KStr "properties", properties); (KStr "inputs", inputs);
                (KStr "outputs", outputs); (KStr "spawnflags", spawnflags)])
        differences in
    complexity ← calculate_porting_complexity differences;
    mret (dict_set (KStr "backward_porting_complexity") (PStr complexity)
            differences)
  else mret differences.

Definition new_entity_issue (entity_name : string) : pyval :=
  PDict [(KStr "entity", PStr entity_name);
         (KStr "issue", PStr "New entity in CSGO, not present in CSS");
         (KStr "severity", PStr "High")].

Definition new_property_issue (entity_name prop : string) : pyval :=
  PDict [(KStr "entity", PStr entity_name);
         (KStr "property", PStr prop);
         (KStr "issue", PStr "Property exists in CSGO but not in CSS");
         (KStr "severity", PStr "Medium")].

(** The body of the loop [for entity_name in csgo_entity_names] that fills
    [differences['backward_porting_issues']]. *)
Definition porting_issues_step (it : iteration) (css_fgd csgo_fgd : Fgd)
    (issues : list pyval) (entity_name : string) : result (list pyval) :=
  csgo_entity ← next (entities_named csgo_fgd entity_name);
  let css_entity := next_or_none (entities_named css_fgd entity_name) in
  match css_entity with
  | None => mret (issues ++ [new_entity_issue entity_name])
  | Some css_entity =>
      let csgo_only_properties : gset string :=
        set_of prop_name (ent_properties csgo_entity)
        ∖ set_of prop_name (ent_properties css_entity) in
      mret (foldl (fun issues prop =>
                     issues ++ [new_property_issue entity_name prop])
                  issues (iter_str it csgo_only_properties))
  end.

(** The body of the loop [for entity_name in common_entities] that fills
    [differences['modified_entities']]. *)
Definition modified_entities_step (it : iteration) (css_fgd csgo_fgd : Fgd)
    (modified_entities : pydict) (entity_name : string) : result pydict :=
  css_entity ← next (entities_named css_fgd entity_name);
  csgo_entity ← next (entities_named csgo_fgd entity_name);
  entity_diff ← compare_entity it css_entity csgo_entity;
  mret (if truthy (PDict entity_diff)
        then dict_set (KStr (ent_name csgo_entity)) (PDict entity_diff)
               modified_entities
        else modified_entities).

(** [now] is the text of [datetime.now().isoformat()]. *)
Definition compare_fgds (it : iteration) (now : string) (css_fgd csgo_fgd : Fgd)
  : result pyval :=
  let css_entity_names : gset string :=
    set_of (fun e => lower (ent_name e)) (entities css_fgd) in
  let csgo_entity_names : gset string :=
    set_of (fun e => lower (ent_name e)) (entities csgo_fgd) in
  let metadata :=
    PDict [(KStr "css_version", PStr "Counter-Strike: Source");
           (KStr "csgo_version", PStr "Counter-Strike: Global Offensive");
           (KStr "comparison_date", PStr now)] in
  let new_entities :=
    sorted_str (iter_str it (csgo_entity_names ∖ css_entity_names)) in
  let removed_entities :=
    sorted_str (iter_str it (css_entity_names ∖ csgo_entity_names)) in
  let common_entities := css_entity_names ∩ csgo_entity_names in
  modified_entities ←
    for_each (modified_entities_step it css_fgd csgo_fgd) []
             (iter_str it common_entities);
  backward_porting_issues ←
    for_each (porting_issues_step it css_fgd csgo_fgd) []
             (iter_str it csgo_entity_names);
  mret (PDict [(KStr "metadata", metadata);
               (KStr "new_entities", PList (PStr <$> new_entities));
               (KStr "removed_entities", PList (PStr <$> removed_entities));
               (KStr "modified_entities", PDict modified_entities);
               (KStr "backward_porting_issues", PList backward_porting_issues)]).

End FgdComparator.

(** * csgo_to_css_comparison.py *)

Module CsgoToCss.

Definition compare_io_item (css_io csgo_io : FgdEntityIO) : pyval :=
  if bool_decide (io_type css_io ≠ io_type csgo_io)
  then PDict [(KStr "type",
               css_csgo (PStr (io_class_name (io_type css_io)))
                        (PStr (io_class_name (io_type csgo_io))))]
  else
    let differences :=
      compare_attrs io_getattr ["value_type"; "description"] css_io csgo_io [] in
    dict_or_none differences.

Definition compare_io (it : iteration) (css_io csgo_io : list FgdEntityIO)
  : pyval :=
  let css_io_dict := dict_of (fun io => lower (io_name io)) css_io in
  let csgo_io_dict := dict_of (fun io => lower (io_name io)) csgo_io in
  let new := iter_str it (dom csgo_io_dict ∖ dom css_io_dict) in
  let removed := iter_str it (dom css_io_dict ∖ dom csgo_io_dict) in
  let modified :=
    modified_items it io_name compare_io_item css_io_dict csgo_io_dict in
  if truthy (PList (PStr <$> new)) || truthy (PList (PStr <$> removed))
     || truthy (PDict modified)
  then PDict [(KStr "new", PList (PStr <$> new));
              (KStr "removed", PList (PStr <$> removed));
              (KStr "modified", PDict modified)]
  else PNone.

Definition compare_spawnflag (css_flag csgo_flag : FgdEntitySpawnflag) : pyval :=
  let attributes_to_compare := ["display_name"; "default_value"] in
  let differences :=
    compare_attrs flag_getattr attributes_to_compare css_flag csgo_flag [] in
  dict_or_none differences.

(** The loop that fills a [defaultdict(list)] with the flags filed under
    their integer value.  A value that [int()] rejects prints one line and
    the flag is passed over; the first component collects what was
    printed. *)
Definition group_flags (fgd_label : string) (flags : list FgdEntitySpawnflag)
  : list string * gmap Z (list FgdEntitySpawnflag) :=
  foldl (fun '(printed, flag_dict) flag =>
           match py_int (flag_value flag) with
           | Ok value =>
               (printed,
                <[value := default [] (flag_dict !! value) ++ [flag]]> flag_dict)
           | Raise _ =>
               (printed ++
                  ["Invalid flag value in " +:+ fgd_label +:+ " FGD: "
                     +:+ flag_literal_str (flag_value flag)],
                flag_dict)
           end)
        ([], ∅) flags.

(** [f"{value} ({flag.display_name})"] *)
Definition flag_label (value : Z) (flag : FgdEntitySpawnflag) : string :=
  pretty value +:+ " (" +:+ flag_display_name flag +:+ ")".

(** [[f"{value} ({flag.display_name})" for value in values
      for flag in flag_dict[value]]] *)
Definition flag_labels (flag_dict : gmap Z (list FgdEntitySpawnflag))
    (values : list Z) : list pyval :=
  values ≫= fun value =>
    (fun flag => PStr (flag_label value flag))
      <$> default [] (flag_dict !! value).

Definition compare_spawnflags (it : iteration)
    (css_flags csgo_flags : list FgdEntitySpawnflag) : list string * pyval :=
  let '(printed_css, css_flag_dict) := group_flags "CS:S" css_flags in
  let '(printed_csgo, csgo_flag_dict) := group_flags "CS:GO" csgo_flags in
  let new :=
    flag_labels csgo_flag_dict
      (iter_int it (dom csgo_flag_dict ∖ dom css_flag_dict)) in
  let removed :=
    flag_labels css_flag_dict
      (iter_int it (dom css_flag_dict ∖ dom csgo_flag_dict)) in
  let modified :=
    foldl (fun modified flag_value' =>
             let css_flag_list := default [] (css_flag_dict !! flag_value') in
             let csgo_flag_list := default [] (csgo_flag_dict !! flag_value') in
             foldl (fun modified '(css_flag, csgo_flag) =>
                      let flag_diff := compare_spawnflag css_flag csgo_flag in
                      if truthy flag_diff
                      then dict_set (KStr (flag_label flag_value' csgo_flag))
                             flag_diff modified
                      else modified)
                   modified (zip css_flag_list csgo_flag_list))
          [] (iter_int it (dom css_flag_dict ∩ dom csgo_flag_dict)) in
  let differences :=
    [(KStr "new", PList new); (KStr "removed", PList removed);
     (KStr "modified", PDict modified)] in
  let differences := filter (fun kv => truthy kv.2) differences in
  (printed_css ++ printed_csgo, dict_or_none differences).

(** [[{'value': c.value, 'display_name': c.display_name}
      for c in (choices or [])]] sorted by [x['value']]. *)
Definition sorted_choices (choices : option (list FgdEntityPropertyChoice))
  : list FgdEntityPropertyChoice :=
  sorted (fun a b => String.ltb (choice_value a) (choice_value b))
         (default [] choices).

Definition compare_property (css_prop csgo_prop : FgdEntityProperty) : pyval :=
  let differences :=
    compare_attrs prop_getattr
      ["value_type"; "readonly"; "report"; "display_name"; "default_value";
       "description"] css_prop csgo_prop [] in
  let differences :=
    if bool_decide (prop_choices css_prop ≠ None)
       || bool_decide (prop_choices csgo_prop ≠ None)
    then
      let css_choices := sorted_choices (prop_choices css_prop) in
      let csgo_choices := sorted_choices (prop_choices csgo_prop) in
      if bool_decide (css_choices ≠ csgo_choices)
      then dict_set (KStr "choices")
             (css_csgo (PList (choice_schema <$> css_choices))
                       (PList (choice_schema <$> csgo_choices))) differences
      else differences
    else differences in
  dict_or_none differences.

Definition compare_properties (it : iteration)
    (css_props csgo_props : list FgdEntityProperty) : pyval :=
  match css_props, csgo_props with
  | [], [] => PNone
  | _, _ =>
    let css_prop_dict := dict_of (fun prop => lower (prop_name prop)) css_props in
    let csgo_prop_dict := dict_of (fun prop => lower (prop_name prop)) csgo_props in
    let new := iter_str it (dom csgo_prop_dict ∖ dom css_prop_dict) in
    let removed := iter_str it (dom css_prop_dict ∖ dom csgo_prop_dict) in
    let modified :=
      modified_items it prop_name compare_property css_prop_dict csgo_prop_dict in
    if truthy (PList (PStr <$> new)) || truthy (PList (PStr <$> removed))
       || truthy (PDict modified)
    then PDict [(KStr "new", PList (PStr <$> new));
                (KStr "removed", PList (PStr <$> removed));
                (KStr "modified", PDict modified)]
    else PNone
  end.

(** Python's [<] on lists of strings. *)
Fixpoint list_str_lt (a b : list string) : bool :=
  match a, b with
  | [], [] => false
  | [], _ :: _ => true
  | _ :: _, [] => false
  | x :: a', y :: b' =>
      if bool_decide (x = y) then list_str_lt a' b' else String.ltb x y
  end.

(** The sort key [sorted(d.items())] of a definition is the list
    [[('args', args), ('name', name)]]; two such lists are ordered by their
    [args] first and by their [name] when the [args] agree. *)
Definition definition_lt (d1 d2 : FgdDefinition) : bool :=
  if bool_decide (def_args d1 = def_args d2)
  then String.ltb (def_name d1) (def_name d2)
  else list_str_lt (def_args d1) (def_args d2).

Definition compare_entity (it : iteration) (css_entity csgo_entity : FgdEntity)
  : list string * pydict :=
  let differences : pydict := [] in
  let differences :=
    if bool_decide (ent_class_type css_entity ≠ ent_class_type csgo_entity)
    then dict_set (KStr "class_type")
           (css_csgo (PStr (ent_class_type css_entity))
                     (PStr (ent_class_type csgo_entity))) differences
    else differences in
  let differences :=
    if bool_decide (ent_description css_entity ≠ ent_description csgo_entity)
    then dict_set (KStr "description")
           (css_csgo (py_opt_str (ent_description css_entity))
                     (py_opt_str (ent_description csgo_entity))) differences
    else differences in
  let sorted_css_definitions :=
    sorted definition_lt (ent_definitions css_entity) in
  let sorted_csgo_definitions :=
    sorted definition_lt (ent_definitions csgo_entity) in
  let differences :=
    if bool_decide (sorted_css_definitions ≠ sorted_csgo_definitions)
    then dict_set (KStr "definitions")
           (css_csgo (PList (definition_py <$> sorted_css_definitions))
                     (PList (definition_py <$> sorted_csgo_definitions)))
           differences
    else differences in
  let prop_diff :=
    compare_properties it (ent_properties css_entity)
                          (ent_properties csgo_entity) in
  let differences :=
    if truthy prop_diff
    then dict_set (KStr "properties") prop_diff differences
    else differences in
  let '(printed, spawnflag_diff) :=
    compare_spawnflags it (ent_spawnflags css_entity)
                          (ent_spawnflags csgo_entity) in
  let differences :=
    if truthy spawnflag_diff
    then dict_set (KStr "spawnflags") spawnflag_diff differences
    else differences in
  let input_diff :=
    compare_io it (ent_inputs css_entity) (ent_inputs csgo_entity) in
  let differences :=
    if truthy input_diff
    then dict_set (KStr "inputs") input_diff differences
    else differences in
  let output_diff :=
    compare_io it (ent_outputs css_entity) (ent_outputs csgo_entity) in
  let differences :=
    if truthy output_diff
    then dict_set (KStr "outputs") output_diff differences
    else differences in
  (printed, differences).

(** [(ed.class_type, ed.name) if ed.name else (ed.class_type,)] *)
Definition get_key (ed : FgdEditorData) : list string :=
  match ed_name ed with
  | Some name => if truthy (PStr name) then [ed_class_type ed; name]
                 else [ed_class_type ed]
  | None => [ed_class_type ed]
  end.

Definition compare_editor_data (it : iteration)
    (css_editor_data csgo_editor_data : list FgdEditorData) : pyval :=
  let css_data := dict_of get_key css_editor_data in
  let csgo_data := dict_of get_key csgo_editor_data in
  let new :=
    omap (fun key => ed_to_dict <$> csgo_data !! key)
         (iter_tuple it (dom csgo_data ∖ dom css_data)) in
  let removed :=
    omap (fun key => ed_to_dict <$> css_data !! key)
         (iter_tuple it (dom css_data ∖ dom csgo_data)) in
  let modified :=
    foldl (fun modified key =>
             match css_data !! key, csgo_data !! key with
             | Some css_ed, Some csgo_ed =>
                 if negb (py_eq (ed_data css_ed) (ed_data csgo_ed))
                 then dict_set (KTuple key)
                        (css_csgo (ed_data css_ed) (ed_data csgo_ed)) modified
                 else modified
             | _, _ => modified
             end)
          [] (iter_tuple it (dom css_data ∩ dom csgo_data)) in
  PDict [(KStr "new", PList new);
         (KStr "removed", PList removed);
         (KStr "modified", PDict modified)].

(** The loop [for entity_name in common_entities]: what it prints, and the
    [modified_entities] it leaves (or the exception that ends it). *)
Fixpoint modified_entities_loop (it : iteration) (css_fgd csgo_fgd : Fgd)
    (modified_entities : pydict) (names : list string)
  : list string * result pydict :=
  match names with
  | [] => ([], Ok modified_entities)
  | entity_name :: names' =>
      match next (entities_named css_fgd entity_name),
            next (entities_named csgo_fgd entity_name) with
      | Ok css_entity, Ok csgo_entity =>
          let '(printed, entity_diff) :=
            compare_entity it css_entity csgo_entity in
          let modified_entities :=
            if truthy (PDict entity_diff)
            then dict_set (KStr (ent_name csgo_entity)) (PDict entity_diff)
                   modified_entities
            else modified_entities in
          let '(printed', r) :=
            modified_entities_loop it css_fgd csgo_fgd modified_entities names' in
          (printed ++ printed', r)
      | Raise e, _ => ([], Raise e)
      | _, Raise e => ([], Raise e)
      end
  end.

Definition compare_fgds (it : iteration) (css_fgd csgo_fgd : Fgd)
  : list string * result pyval :=
  let css_entity_names : gset string :=
    set_of (fun e => lower (ent_name e)) (entities css_fgd) in
  let csgo_entity_names : gset string :=
    set_of (fun e => lower (ent_name e)) (entities csgo_fgd) in
  let new_entities := iter_str it (csgo_entity_names ∖ css_entity_names) in
  let removed_entities := iter_str it (css_entity_names ∖ csgo_entity_names) in
  let editor_data_changes :=
    compare_editor_data it (editor_data css_fgd) (editor_data csgo_fgd) in
  let common_entities := css_entity_names ∩ csgo_entity_names in
  let '(printed, r) :=
    modified_entities_loop it css_fgd csgo_fgd [] (iter_str it common_entities) in
  (printed,
   modified_entities ← r;
   mret (PDict [(KStr "new_entities", PList (PStr <$> new_entities));
                (KStr "removed_entities", PList (PStr <$> removed_entities));
                (KStr "modified_entities", PDict modified_entities);
                (KStr "editor_data_changes", editor_data_changes)])).

End CsgoToCss.

(** * The change summary of the scorer, in the words of the design

    What [calculate_porting_complexity] reads off a per-entity diff: whether
    the class type changed, the base clauses added and removed when the diff
    has a [definitions] entry, and the counts of new, removed and modified
    properties, inputs, outputs and spawnflags. *)

Record counts := {
  n_new : Z;
  n_removed : Z;
  n_modified : Z;
}.

Record change_summary := {
  class_type_changed : bool;
  base_changes : option (list pyval * list pyval);
  properties_changed : counts;
  inputs_changed : counts;
  outputs_changed : counts;
  spawnflags_changed : counts;
}.

Definition counts_py (c : counts) : pyval :=
  PDict [(KStr "new", PInt (n_new c)); (KStr "removed", PInt (n_removed c));
         (KStr "modified", PInt (n_modified c))].

(** The per-entity diff [differences] carries the summary [s]. *)
Definition has_summary (differences : pydict) (s : change_summary) : Prop :=
  dict_has (KStr "class_type") differences = class_type_changed s
  ∧ match base_changes s with
    | None => dict_get (KStr "definitions") differences = None
    | Some (added, removed) =>
        ∃ definitions changes,
          dict_get (KStr "definitions") differences = Some (PDict definitions)
          ∧ dict_get (KStr "changes") definitions = Some (PDict changes)
          ∧ dict_get (KStr "added") changes = Some (PList added)
          ∧ dict_get (KStr "removed") changes = Some (PList removed)
    end
  ∧ ∃ summary,
      dict_get (KStr "changes_summary") differences = Some (PDict summary)
      ∧ dict_get (KStr "properties") summary
        = Some (counts_py (properties_changed s))
      ∧ dict_get (KStr "inputs") summary = Some (counts_py (inputs_changed s))
      ∧ dict_get (KStr "outputs") summary = Some (counts_py (outputs_changed s))
      ∧ dict_get (KStr "spawnflags") summary
        = Some (counts_py (spawnflags_changed s)).

Definition bases_added (s : change_summary) : Z :=
  match base_changes s with
  | Some (added, _) => Z.of_nat (length added)
  | None => 0
  end.

Definition bases_removed (s : change_summary) : Z :=
  match base_changes s with
  | Some (_, removed) => Z.of_nat (length removed)
  | None => 0
  end.

(** The weighted sum as the design states it: 3 for a class-type change, 2
    per added or removed base clause, 2 per added or removed property, 1 per
    modified property, 1.5 per added or removed input or output, 0.5 per
    modified input or output, 1 per added or removed spawnflag, 0.5 per
    modified spawnflag. *)
Definition weighted_sum (s : change_summary) : Q :=
  ((if class_type_changed s then 3 else 0)
   + 2 * inject_Z (bases_added s + bases_removed s)
   + 2 * inject_Z (n_new (properties_changed s) + n_removed (properties_changed s))
   + 1 * inject_Z (n_modified (properties_changed s))
   + (3 # 2) * inject_Z (n_new (inputs_changed s) + n_removed (inputs_changed s)
                         + n_new (outputs_changed s) + n_removed (outputs_changed s))
   + (1 # 2) * inject_Z (n_modified (inputs_changed s)
                         + n_modified (outputs_changed s))
   + 1 * inject_Z (n_new (spawnflags_changed s) + n_removed (spawnflags_changed s))
   + (1 # 2) * inject_Z (n_modified (spawnflags_changed s)))%Q.

(** A spawnflag whose value [int()] accepts. *)
Definition integer_valued (flag : FgdEntitySpawnflag) : Prop :=
  ∃ value, py_int (flag_value flag) = Ok value.

Global Instance integer_valued_dec flag : Decision (integer_valued flag).
Proof.
  unfold integer_valued. destruct (py_int (flag_value flag)) as [value|e].
  - left. by exists value.
  - right. by intros [value ?].
Defined.

(** The lines that [csgo_to_css_comparison.py] prints for the flags of a
    list whose value is not an integer. *)
Definition flag_warnings (fgd_label : string) (flags : list FgdEntitySpawnflag)
  : list string :=
  (fun flag => "Invalid flag value in " +:+ fgd_label +:+ " FGD: "
               +:+ flag_literal_str (flag_value flag))
    <$> filter (fun flag => ¬ integer_valued flag) flags.

(** A schema all of whose spawnflag values [int()] accepts. *)
Definition integer_flags (fgd : Fgd) : Prop :=
  Forall (fun e => Forall integer_valued (ent_spawnflags e)) (entities fgd).

(** * Reading a report *)

(** The strings of the list [report[key]], and the keys of the dict
    [report[key]]; both are empty when the report is [None] or has no such
    entry. *)
Definition report_strings (key : string) (report : pyval) : list string :=
  match report with
  | PDict d =>
      match dict_get (KStr key) d with
      | Some (PList l) =>
          omap (fun v => match v with PStr s => Some s | _ => None end) l
      | _ => []
      end
  | _ => []
  end.

Definition report_keys (key : string) (report : pyval) : list pykey :=
  match report with
  | PDict d =>
      match dict_get (KStr key) d with
      | Some (PDict m) => dict_keys m
      | _ => []
      end
  | _ => []
  end.

(** Some item of [xs] has the lower-cased name [key]. *)
Definition named_in {X : Type} (name : X → string) (xs : list X) (key : string)
  : Prop :=
  ∃ x, x ∈ xs ∧ lower (name x) = key.

(** What the scripts do with names, for one kind of item: a report lists
    under [new_key] exactly the lower-cased names found on the CS:GO side
    only and under [removed_key] those found on the CS:S side only, so that
    two items whose names differ only in case are neither new nor removed;
    every key under [modified_key] is the name, as the CS:GO side spells it,
    of an item that has a namesake up to case on the CS:S side. *)
Definition matched_by_lower_name {X : Type} (name : X → string)
    (css csgo : list X) (new_key removed_key modified_key : string)
    (report : pyval) : Prop :=
  (∀ key, key ∈ report_strings new_key report
          ↔ named_in name csgo key ∧ ¬ named_in name css key)
  ∧ (∀ key, key ∈ report_strings removed_key report
            ↔ named_in name css key ∧ ¬ named_in name csgo key)
  ∧ (∀ css_item csgo_item,
       css_item ∈ css → csgo_item ∈ csgo →
       lower (name css_item) = lower (name csgo_item) →
       (lower (name csgo_item) ∉ report_strings new_key report)
       ∧ (lower (name css_item) ∉ report_strings removed_key report))
  ∧ (∀ k, k ∈ report_keys modified_key report →
       ∃ css_item csgo_item,
         css_item ∈ css ∧ csgo_item ∈ csgo
         ∧ lower (name css_item) = lower (name csgo_item)
         ∧ k = KStr (name csgo_item)).

(** * Duplicate keys

    [overwritten key xs xs']: the list [xs'] is [xs] without one item that a
    later item of [xs] with the same key replaces when the list is turned
    into a dict.  [shadowed key xs xs']: [xs'] is [xs] without one item
    that comes after an item with the same key, as [next] never reaches
    it. *)
Inductive overwritten {X K : Type} (key : X → K) : list X → list X → Prop :=
| overwritten_intro l1 p l2 q :
    q ∈ l2 → key q = key p → overwritten key (l1 ++ p :: l2) (l1 ++ l2).

Inductive shadowed {X K : Type} (key : X → K) : list X → list X → Prop :=
| shadowed_intro l1 p l2 q :
    q ∈ l1 → key q = key p → shadowed key (l1 ++ p :: l2) (l1 ++ l2).

(** The same for spawnflags, whose key is the integer that [int()] makes of
    the value. *)
Inductive flag_overwritten
  : list FgdEntitySpawnflag → list FgdEntitySpawnflag → Prop :=
| flag_overwritten_intro l1 p l2 q value :
    q ∈ l2 → py_int (flag_value p) = Ok value →
    py_int (flag_value q) = Ok value →
    flag_overwritten (l1 ++ p :: l2) (l1 ++ l2).

(** A schema with another list of entities. *)
Definition with_entities (fgd : Fgd) (es : list FgdEntity) : Fgd :=
  {| entities := es; editor_data := editor_data fgd |}.

(** An entity with another list of properties, inputs, outputs or
    spawnflags. *)
Definition with_properties (e : FgdEntity) (props : list FgdEntityProperty)
  : FgdEntity := {|
  ent_name := ent_name e;
  ent_class_type := ent_class_type e;
  ent_description := ent_description e;
  ent_definitions := ent_definitions e;
  ent_properties := props;
  ent_spawnflags := ent_spawnflags e;
  ent_inputs := ent_inputs e;
  ent_outputs := ent_outputs e;
|}.

Definition with_inputs (e : FgdEntity) (ios : list FgdEntityIO) : FgdEntity := {|
  ent_name := ent_name e;
  ent_class_type := ent_class_type e;
  ent_description := ent_description e;
  ent_definitions := ent_definitions e;
  ent_properties := ent_properties e;
  ent_spawnflags := ent_spawnflags e;
  ent_inputs := ios;
  ent_outputs := ent_outputs e;
|}.

Definition with_outputs (e : FgdEntity) (ios : list FgdEntityIO) : FgdEntity := {|
  ent_name := ent_name e;
  ent_class_type := ent_class_type e;
  ent_description := ent_description e;
  ent_definitions := ent_definitions e;
  ent_properties := ent_properties e;
  ent_spawnflags := ent_spawnflags e;
  ent_inputs := ent_inputs e;
  ent_outputs := ios;
|}.

Definition with_spawnflags (e : FgdEntity) (flags : list FgdEntitySpawnflag)
  : FgdEntity := {|
  ent_name := ent_name e;
  ent_class_type := ent_class_type e;
  ent_description := ent_description e;
  ent_definitions := ent_definitions e;
  ent_properties := ent_properties e;
  ent_spawnflags := flags;
  ent_inputs := ent_inputs e;
  ent_outputs := ent_outputs e;
|}.

(** [item_overwritten e e']: the entity [e'] is [e] without one property,
    input or output that a later one of the same lower-cased name replaces.
    [spawnflag_overwritten e e']: [e'] is [e] without one spawnflag that a
    later one of the same integer value replaces. *)
Inductive item_overwritten : FgdEntity → FgdEntity → Prop :=
| property_overwritten e props' :
    overwritten (fun prop => lower (prop_name prop)) (ent_properties e) props' →
    item_overwritten e (with_properties e props')
| input_overwritten e ios' :
    overwritten (fun io => lower (io_name io)) (ent_inputs e) ios' →
    item_overwritten e (with_inputs e ios')
| output_overwritten e ios' :
    overwritten (fun io => lower (io_name io)) (ent_outputs e) ios' →
    item_overwritten e (with_outputs e ios').

Inductive spawnflag_overwritten : FgdEntity → FgdEntity → Prop :=
| spawnflag_overwritten_intro e flags' :
    flag_overwritten (ent_spawnflags e) flags' →
    spawnflag_overwritten e (with_spawnflags e flags').

(** [entity_replaced R fgd fgd']: the schema [fgd'] is [fgd] with one entity
    [e] replaced, where it stands, by an entity [e'] with [R e e']. *)
Inductive entity_replaced (R : FgdEntity → FgdEntity → Prop) : Fgd → Fgd → Prop :=
| entity_replaced_intro l1 e e' l2 eds :
    R e e' →
    entity_replaced R {| entities := l1 ++ e :: l2; editor_data := eds |}
                      {| entities := l1 ++ e' :: l2; editor_data := eds |}.

(** A report of [fgdcomparator.py] without its list of backward-porting
    issues. *)
Definition without_issues (r : result pyval) : result pyval :=
  match r with
  | Ok (PDict d) =>
      Ok (PDict (filter (fun kv => kv.1 ≠ KStr "backward_porting_issues") d))
  | _ => r
  end.

(** The two shapes in which the collection comparators answer: [None], or
    a dict of the three collections. *)
Definition three_collections (diff : pyval) : Prop :=
  diff = PNone
  ∨ ∃ new removed modified,
      diff = PDict [(KStr "new", PList new); (KStr "removed", PList removed);
                    (KStr "modified", PDict modified)].

(** The list [report[key]]. *)
Definition report_list (key : string) (report : pyval) : list pyval :=
  match report with
  | PDict d =>
      match dict_get (KStr key) d with
      | Some (PList l) => l
      | _ => []
      end
  | _ => []
  end.

(** The backward-porting issues that the loop of [fgdcomparator.py] adds for
    one lower-cased entity name of the CS:GO schema. *)
Definition issues_of (it : iteration) (css_fgd csgo_fgd : Fgd)
    (entity_name : string) : list pyval :=
  match head (entities_named csgo_fgd entity_name),
        head (entities_named css_fgd entity_name) with
  | Some csgo_entity, None => [FgdComparator.new_entity_issue entity_name]
  | Some csgo_entity, Some css_entity =>
      FgdComparator.new_property_issue entity_name
        <$> iter_str it (set_of prop_name (ent_properties csgo_entity)
                         ∖ set_of prop_name (ent_properties css_entity))
  | None, _ => []
  end.

(** * Reading a diff *)

(** The keys of a diff and the entry under a key; a diff that is [None] has
    neither. *)
Definition diff_keys (diff : pyval) : list pykey :=
  match diff with PDict d => dict_keys d | _ => [] end.

Definition diff_get (key : pykey) (diff : pyval) : option pyval :=
  match diff with PDict d => dict_get key d | _ => None end.

(** The item that a dict comprehension keyed by lower-cased name keeps under
    [key]: the last item of the list with that lower-cased name. *)
Definition last_named {X : Type} (name : X → string) (xs : list X)
    (key : string) : option X :=
  last (filter (fun x => lower (name x) = key) xs).

(** The attribute names that the property comparators loop over. *)
Definition property_attrs : list string :=
  ["value_type"; "readonly"; "report"; "display_name"; "default_value";
   "description"].

(** The entry [report[key][k]] of a report; [None] when the report is
    [None] or has no such entry. *)
Definition report_entry (key : string) (k : pykey) (report : pyval)
  : option pyval :=
  match report with
  | PDict d =>
      match dict_get (KStr key) d with
      | Some (PDict m) => dict_get k m
      | _ => None
      end
  | _ => None
  end.

(** What a comparison of two lists of named items files under the name [n]:
    the item comparator's answer for the last item of either side whose
    lower-cased name is that of [n], when the answer is not empty and the
    item of the CS:GO side is spelled [n]. *)
Definition modified_entry {X : Type} (name : X → string)
    (compare_item : X → X → pyval) (css csgo : list X) (n : string)
  : option pyval :=
  match last_named name css (lower n), last_named name csgo (lower n) with
  | Some css_item, Some csgo_item =>
      if decide (name csgo_item = n)
      then if truthy (compare_item css_item csgo_item)
           then Some (compare_item css_item csgo_item)
           else None
      else None
  | _, _ => None
  end.

(** The tail [return differences if differences['new'] or
    differences['removed'] or differences['modified'] else None] of the
    collection comparators. *)
Definition collections_report (new removed : list string) (modified : pydict)
  : pyval :=
  if truthy (PList (PStr <$> new)) || truthy (PList (PStr <$> removed))
     || truthy (PDict modified)
  then PDict [(KStr "new", PList (PStr <$> new));
              (KStr "removed", PList (PStr <$> removed));
              (KStr "modified", PDict modified)]
  else PNone.

(** The flag that the dict [{int(flag.value): flag for flag in flags}] of
    [fgdcomparator.py] keeps under the integer [value]: the last flag of the
    list whose value [int()] turns into [value]. *)
Definition last_flag (flags : list FgdEntitySpawnflag) (value : Z)
  : option FgdEntitySpawnflag :=
  last (filter (fun flag => py_int (flag_value flag) = Ok value) flags).

(** The flags filed under the integer [value] by the [defaultdict(list)] of
    [csgo_to_css_comparison.py], in list order. *)
Definition flags_valued (flags : list FgdEntitySpawnflag) (value : Z)
  : list FgdEntitySpawnflag :=
  filter (fun flag => py_int (flag_value flag) = Ok value) flags.

(** The three lengths that [count_changes] reads off a diff of three
    collections; all zero for [None]. *)
Definition counts_of (diff : pyval) : counts := {|
  n_new := Z.of_nat (length (report_list "new" diff));
  n_removed := Z.of_nat (length (report_list "removed" diff));
  n_modified := Z.of_nat (length (report_keys "modified" diff));
|}.

(** * The summary text of [fgdcomparator.py]

    [main] ranks the modified entities by the key
    [sum(sum(v.values()) for v in x[1]['changes_summary'].values())] before it
    writes the ten largest.  [sum_values] is the inner sum and [ranking_key]
    the key; either is [None] when the expression raises (a missing key, a
    value that is no dict, a count that is no number). *)
Definition sum_values (v : pyval) : option Z :=
  match v with
  | PDict c =>
      foldl (fun total n =>
               total ← total;
               match n with
               | PInt z => Some (total + z)
               | PBool b => Some (total + (if b then 1 else 0))
               | _ => None
               end)
            (Some 0) (dict_values c)
  | _ => None
  end.

Definition ranking_key (changes : pyval) : option Z :=
  match changes with
  | PDict d =>
      match dict_get (KStr "changes_summary") d with
      | Some (PDict changes_summary) =>
          foldl (fun total v => total ← total; n ← sum_values v; Some (total + n))
                (Some 0) (dict_values changes_summary)
      | _ => None
      end
  | _ => None
  end.

(** The number of changes that a summary counts. *)
Definition total_changes (s : change_summary) : Z :=
  n_new (properties_changed s) + n_removed (properties_changed s)
  + n_modified (properties_changed s)
  + n_new (inputs_changed s) + n_removed (inputs_changed s)
  + n_modified (inputs_changed s)
  + n_new (outputs_changed s) + n_removed (outputs_changed s)
  + n_modified (outputs_changed s)
  + n_new (spawnflags_changed s) + n_removed (spawnflags_changed s)
  + n_modified (spawnflags_changed s).

(** The editor block that the dict [{get_key(ed): ed for ed in ...}] of
    [compare_editor_data] keeps under [key]: the last block of the list with
    that key. *)
Definition last_block (eds : list FgdEditorData) (key : list string)
  : option FgdEditorData :=
  last (filter (fun ed => CsgoToCss.get_key ed = key) eds).

(** * Sample data

    Two admissible iteration orders and the small schemas the closed
    statements below are evaluated on. *)

Definition ascending : iteration := {|
  iter_str := fun X => merge_sort String.le (elements X);
  iter_int := fun X => merge_sort Z.le (elements X);
  iter_tuple := elements;
|}.

Definition descending : iteration := {|
  iter_str := fun X => reverse (merge_sort String.le (elements X));
  iter_int := fun X => reverse (merge_sort Z.le (elements X));
  iter_tuple := fun X => reverse (elements X);
|}.

Definition sample_property (name default_value : string) : FgdEntityProperty := {|
  prop_name := name;
  prop_value_type := "integer";
  prop_readonly := false;
  prop_report := false;
  prop_display_name := Some "Speed";
  prop_default_value := Some default_value;
  prop_description := None;
  prop_choices := None;
|}.

Definition sample_flag (value : flag_literal) (display_name : string)
  : FgdEntitySpawnflag := {|
  flag_value := value;
  flag_display_name := display_name;
  flag_default_value := false;
|}.

Definition sample_io (type : io_class) (name : string) : FgdEntityIO := {|
  io_type := type;
  io_name := name;
  io_value_type := "void";
  io_description := None;
|}.

Definition sample_entity (name : string) (definitions : list FgdDefinition)
    (properties : list FgdEntityProperty) (spawnflags : list FgdEntitySpawnflag)
  : FgdEntity := {|
  ent_name := name;
  ent_class_type := "PointClass";
  ent_description := None;
  ent_definitions := definitions;
  ent_properties := properties;
  ent_spawnflags := spawnflags;
  ent_inputs := [];
  ent_outputs := [];
|}.

Definition sample_fgd (es : list FgdEntity) : Fgd :=
  {| entities := es; editor_data := [] |}.

Definition base (arg : string) : FgdDefinition :=
  {| def_name := "base"; def_args := [arg] |}.

(** A door entity before and after: the class type changes, a base clause
    is added, one property is modified and one added, an input is removed, an
    output is modified and a spawnflag is new. *)
Definition door_css : FgdEntity := {|
  ent_name := "func_door";
  ent_class_type := "SolidClass";
  ent_description := Some "A door";
  ent_definitions := [base "Targetname"];
  ent_properties := [sample_property "speed" "100"];
  ent_spawnflags := [sample_flag (FInt 1) "Locked"];
  ent_inputs := [sample_io FgdEntityInput "Open"; sample_io FgdEntityInput "Lock"];
  ent_outputs := [sample_io FgdEntityOutput "OnOpen"];
|}.

Definition door_csgo : FgdEntity := {|
  ent_name := "Func_Door";
  ent_class_type := "PointClass";
  ent_description := Some "A door";
  ent_definitions := [base "Targetname"; base "Parentname"];
  ent_properties := [sample_property "Speed" "200"; sample_property "torque" "1"];
  ent_spawnflags := [sample_flag (FInt 1) "Locked"; sample_flag (FInt 2) "Silent"];
  ent_inputs := [sample_io FgdEntityInput "Open"];
  ent_outputs :=
    [{| io_type := FgdEntityOutput; io_name := "OnOpen";
        io_value_type := "integer"; io_description := None |}];
|}.

(** The per-entity diff of the two doors, as [compare_entity] of
    [fgdcomparator.py] returns it. *)
Definition door_differences : pydict :=
  match FgdComparator.compare_entity ascending door_css door_csgo with
  | Ok differences => differences
  | Raise _ => []
  end.

Definition door_summary : change_summary := {|
  class_type_changed := true;
  base_changes :=
    Some ([definition_py (base "Parentname")], []);
  properties_changed := {| n_new := 1; n_removed := 0; n_modified := 1 |};
  inputs_changed := {| n_new := 0; n_removed := 1; n_modified := 0 |};
  outputs_changed := {| n_new := 0; n_removed := 0; n_modified := 1 |};
  spawnflags_changed := {| n_new := 1; n_removed := 0; n_modified := 0 |};
|}.

(** A schema with one entity whose only spawnflag has the value ['abc']. *)
Definition bad_flag_fgd : Fgd :=
  sample_fgd [sample_entity "func_door" [] [] [sample_flag (FStr "abc") "Locked"]].

(** Two entities, listed as [a] then [b]. *)
Definition two_entities_fgd : Fgd :=
  sample_fgd [sample_entity "a" [] [] []; sample_entity "b" [] [] []].

(** The same entity [X] whose one property is spelled [Speed] on the CS:S
    side and [speed] on the CS:GO side. *)
Definition speed_css_fgd : Fgd :=
  sample_fgd [sample_entity "X" [] [sample_property "Speed" "100"] []].

Definition speed_csgo_fgd : Fgd :=
  sample_fgd [sample_entity "X" [] [sample_property "speed" "100"] []].

(** An entity whose signal [Toggle] is an input on the CS:S side and an
    output on the CS:GO side. *)
Definition toggle_css : FgdEntity := {|
  ent_name := "light";
  ent_class_type := "PointClass";
  ent_description := None;
  ent_definitions := [];
  ent_properties := [];
  ent_spawnflags := [];
  ent_inputs := [sample_io FgdEntityInput "Toggle"];
  ent_outputs := [];
|}.

Definition toggle_csgo : FgdEntity := {|
  ent_name := "light";
  ent_class_type := "PointClass";
  ent_description := None;
  ent_definitions := [];
  ent_properties := [];
  ent_spawnflags := [];
  ent_inputs := [];
  ent_outputs := [sample_io FgdEntityOutput "Toggle"];
|}.

(** The entity [door] on the CS:S side and the same name with a leading
    blank on the CS:GO side. *)
Definition padded_css_fgd : Fgd := sample_fgd [sample_entity "door" [] [] []].
Definition padded_csgo_fgd : Fgd := sample_fgd [sample_entity " door" [] [] []].

(** Definition clauses for the closed statements about definitions. *)
Definition size_clause : FgdDefinition :=
  {| def_name := "size"; def_args := ["-8 -8 -8"; "8 8 8"] |}.

Definition two_bases : list FgdDefinition := [base "Targetname"; base "Parentname"].
Definition two_bases_swapped : list FgdDefinition :=
  [base "Parentname"; base "Targetname"].

(** An entity that declares the property [speed] twice, spelled [speed]
    with default 100 and then [Speed] with default 200, against an entity
    that declares it once with default 100. *)
Definition twice_css_fgd : Fgd :=
  sample_fgd [sample_entity "X" []
                [sample_property "speed" "100"; sample_property "Speed" "200"] []].

Definition once_csgo_fgd : Fgd :=
  sample_fgd [sample_entity "X" [] [sample_property "speed" "100"] []].

(** Editor data: an unnamed [mapsize] block and a named visgroup. *)
Definition mapsize_block (low high : Z) : FgdEditorData := {|
  ed_class_type := "mapsize";
  ed_name := None;
  ed_data := PList [PInt low; PInt high];
|}.

Definition visgroup_block (name : string) (members : list string)
  : FgdEditorData := {|
  ed_class_type := "AutoVisGroup";
  ed_name := Some name;
  ed_data := PList (PStr <$> members);
|}.

Definition editor_css_fgd : Fgd := {|
  entities := [door_css];
  editor_data := [mapsize_block (-16384) 16384; visgroup_block "Brushes" ["Triggers"]];
|}.

Definition editor_csgo_fgd : Fgd := {|
  entities := [door_csgo];
  editor_data := [mapsize_block (-32768) 32768; visgroup_block "Entities" ["Lights"]];
|}.

(** An enumerated property with the given choices. *)
Definition sample_choice (value display_name : string) : FgdEntityPropertyChoice :=
  {| choice_value := value; choice_display_name := display_name |}.

Definition sample_enum (choices : option (list FgdEntityPropertyChoice))
  : FgdEntityProperty := {|
  prop_name := "mode";
  prop_value_type := "choices";
  prop_readonly := false;
  prop_report := false;
  prop_display_name := Some "Mode";
  prop_default_value := Some "0";
  prop_description := None;
  prop_choices := choices;
|}.

(** * Properties *)

(** ** The iteration orders *)

Lemma ascending_ok : iteration_ok ascending.
Proof. split; intros X; simpl; try apply merge_sort_Permutation; done. Qed.

Lemma descending_ok : iteration_ok descending.
Proof.
  split; intros X; simpl; rewrite reverse_Permutation;
    try apply merge_sort_Permutation; done.
Qed.

Section iteration.
Context (it : iteration) (Hit : iteration_ok it).

Lemma elem_of_iter_str (X : gset string) x : x ∈ iter_str it X ↔ x ∈ X.
Proof. by rewrite (iter_str_ok it Hit X), elem_of_elements. Qed.

Lemma elem_of_iter_int (X : gset Z) x : x ∈ iter_int it X ↔ x ∈ X.
Proof. by rewrite (iter_int_ok it Hit X), elem_of_elements. Qed.

Lemma elem_of_iter_tuple (X : gset (list string)) x :
  x ∈ iter_tuple it X ↔ x ∈ X.
Proof. by rewrite (iter_tuple_ok it Hit X), elem_of_elements. Qed.

Lemma iter_str_empty : iter_str it ∅ = [].
Proof.
  apply Permutation_nil_r. by rewrite (iter_str_ok it Hit ∅), elements_empty.
Qed.

Lemma iter_int_empty : iter_int it ∅ = [].
Proof.
  apply Permutation_nil_r. by rewrite (iter_int_ok it Hit ∅), elements_empty.
Qed.

Lemma iter_tuple_empty : iter_tuple it ∅ = [].
Proof.
  apply Permutation_nil_r. by rewrite (iter_tuple_ok it Hit ∅), elements_empty.
Qed.

Lemma NoDup_iter_str (X : gset string) : NoDup (iter_str it X).
Proof. rewrite (iter_str_ok it Hit X). apply NoDup_elements. Qed.
End iteration.

(** ** The complexity scorer *)

Lemma bucket_proper (a b : Q) :
  (a == b)%Q → FgdComparator.bucket a = FgdComparator.bucket b.
Proof.
  intros Hab. unfold FgdComparator.bucket.
  assert (∀ c, Qle_bool a c = Qle_bool b c) as Hle.
  { intros c. apply eq_true_iff_eq. rewrite !Qle_bool_iff. by rewrite Hab. }
  by rewrite !Hle.
Qed.

Lemma bucket_high (q : Q) : FgdComparator.bucket q = "High" ↔ (20 < q)%Q.
Proof.
  unfold FgdComparator.bucket.
  destruct (Qle_bool q 20) eqn:H20; simpl.
  - apply Qle_bool_iff in H20.
    split; [|intros Hlt; exfalso; by apply (Qlt_not_le _ _ Hlt)].
    by destruct (Qle_bool q 10).
  - split; [intros _|done]. apply Qnot_le_lt. intros Hle.
    apply Qle_bool_iff in Hle. congruence.
Qed.

Lemma bucket_medium (q : Q) :
  FgdComparator.bucket q = "Medium" ↔ (10 < q)%Q ∧ (q <= 20)%Q.
Proof.
  unfold FgdComparator.bucket.
  destruct (Qle_bool q 20) eqn:H20; simpl.
  - apply Qle_bool_iff in H20.
    destruct (Qle_bool q 10) eqn:H10; simpl.
    + apply Qle_bool_iff in H10.
      split; [done|]. intros [Hlt _]. exfalso. by apply (Qlt_not_le _ _ Hlt).
    + split; [intros _|done]. split; [|done]. apply Qnot_le_lt. intros Hle.
      apply Qle_bool_iff in Hle. congruence.
  - split; [done|]. intros [_ Hle]. apply Qle_bool_iff in Hle. congruence.
Qed.

Lemma bucket_low (q : Q) : FgdComparator.bucket q = "Low" ↔ (q <= 10)%Q.
Proof.
  unfold FgdComparator.bucket.
  destruct (Qle_bool q 20) eqn:H20; simpl.
  - destruct (Qle_bool q 10) eqn:H10; simpl.
    + apply Qle_bool_iff in H10. done.
    + split; [done|]. intros Hle. apply Qle_bool_iff in Hle. congruence.
  - split; [done|]. intros Hle. exfalso.
    assert (Qle_bool q 20 = true); [|congruence].
    apply Qle_bool_iff. eapply Qle_trans; [exact Hle|]. by compute.
Qed.

Lemma summary_count_counts (summary : pydict) (kind : string) (c : counts) :
  dict_get (KStr kind) summary = Some (counts_py c) →
  FgdComparator.summary_count (PDict summary) kind "new" = Ok (inject_Z (n_new c))
  ∧ FgdComparator.summary_count (PDict summary) kind "removed"
    = Ok (inject_Z (n_removed c))
  ∧ FgdComparator.summary_count (PDict summary) kind "modified"
    = Ok (inject_Z (n_modified c)).
Proof.
  intros H. unfold FgdComparator.summary_count. simpl. rewrite H. done.
Qed.

Lemma complexity_score_weighted_sum (differences : pydict) (s : change_summary) :
  has_summary differences s →
  ∃ score, FgdComparator.complexity_score differences = Ok score
           ∧ (score == weighted_sum s)%Q.
Proof.
  intros (Hclass & Hbases & summary & Hsum & Hp & Hi & Ho & Hf).
  destruct (summary_count_counts _ _ _ Hp) as (Hp1 & Hp2 & Hp3).
  destruct (summary_count_counts _ _ _ Hi) as (Hi1 & Hi2 & Hi3).
  destruct (summary_count_counts _ _ _ Ho) as (Ho1 & Ho2 & Ho3).
  destruct (summary_count_counts _ _ _ Hf) as (Hf1 & Hf2 & Hf3).
  unfold FgdComparator.complexity_score, weighted_sum, bases_added, bases_removed.
  rewrite Hclass.
  destruct (base_changes s) as [[added removed]|].
  - destruct Hbases as (definitions & changes & Hd & Hc & Ha & Hr).
    unfold dict_has. rewrite Hd. cbn [py_getitem mbind result_bind mret result_ret].
    rewrite Hd. cbn [py_getitem mbind result_bind mret result_ret].
    rewrite Hc. cbn [py_getitem mbind result_bind mret result_ret].
    rewrite Ha. cbn [py_getitem mbind result_bind mret result_ret py_len].
    rewrite Hr. cbn [py_getitem mbind result_bind mret result_ret py_len].
    rewrite Hsum. cbn [mbind result_bind mret result_ret].
    rewrite Hp1, Hp2, Hp3, Hi1, Hi2, Hi3, Ho1, Ho2, Ho3, Hf1, Hf2, Hf3.
    cbn [mbind result_bind mret result_ret].
    eexists; split; [reflexivity|].
    rewrite !inject_Z_plus. destruct (class_type_changed s); ring.
  - unfold dict_has. rewrite Hbases.
    cbn [py_getitem mbind result_bind mret result_ret].
    rewrite Hsum. cbn [mbind result_bind mret result_ret].
    rewrite Hp1, Hp2, Hp3, Hi1, Hi2, Hi3, Ho1, Ho2, Ho3, Hf1, Hf2, Hf3.
    cbn [mbind result_bind mret result_ret].
    eexists; split; [reflexivity|].
    rewrite !inject_Z_plus. destruct (class_type_changed s); ring.
Qed.

(** C3.  For every per-entity diff that carries a change summary, the score
    that [calculate_porting_complexity] accumulates equals the weighted sum
    (3 for a class-type change, 2 per added or removed base clause, 2 per
    added or removed property, 1 per modified property, 1.5 per added or
    removed input or output, 0.5 per modified input or output, 1 per added
    or removed spawnflag, 0.5 per modified spawnflag), and the bucket it
    returns is High exactly when the sum is greater than 20, Medium exactly
    when it is greater than 10 and at most 20, and Low exactly when it is at
    most 10. *)
Theorem porting_complexity_is_weighted_sum
    (differences : pydict) (s : change_summary) :
  has_summary differences s →
  ∃ score bucket,
    FgdComparator.complexity_score differences = Ok score
    ∧ (score == weighted_sum s)%Q
    ∧ FgdComparator.calculate_porting_complexity differences = Ok bucket
    ∧ (bucket = "High" ↔ (20 < weighted_sum s)%Q)
    ∧ (bucket = "Medium" ↔ (10 < weighted_sum s)%Q ∧ (weighted_sum s <= 20)%Q)
    ∧ (bucket = "Low" ↔ (weighted_sum s <= 10)%Q).
Proof.
  intros Hs.
  destruct (complexity_score_weighted_sum differences s Hs) as (score & Hscore & Heq).
  exists score, (FgdComparator.bucket (weighted_sum s)).
  split; [done|]. split; [done|]. split.
  - unfold FgdComparator.calculate_porting_complexity. rewrite Hscore. simpl.
    unfold mret, result_ret. f_equal. by apply bucket_proper.
  - split; [apply bucket_high|]. split; [apply bucket_medium|apply bucket_low].
Qed.

Lemma porting_complexity_is_weighted_sum_witness :
  has_summary door_differences door_summary
  ∧ ∃ score bucket,
      FgdComparator.complexity_score door_differences = Ok score
      ∧ (score == weighted_sum door_summary)%Q
      ∧ FgdComparator.calculate_porting_complexity door_differences = Ok bucket
      ∧ (bucket = "High" ↔ (20 < weighted_sum door_summary)%Q)
      ∧ (bucket = "Medium" ↔ (10 < weighted_sum door_summary)%Q
                             ∧ (weighted_sum door_summary <= 20)%Q)
      ∧ (bucket = "Low" ↔ (weighted_sum door_summary <= 10)%Q).
Proof.
  assert (has_summary door_differences door_summary) as H.
  { split; [vm_compute; reflexivity|]. split.
    - do 2 eexists. vm_compute. repeat split; reflexivity.
    - eexists. vm_compute. repeat split; reflexivity. }
  split; [exact H|].
  exact (porting_complexity_is_weighted_sum door_differences door_summary H).
Defined.

(** ** Dicts and sets built from the input *)

Section dict_of.
Context `{Countable K} {A : Type} (key : A → K).
Implicit Types xs : list A.

Lemma dict_of_snoc xs x :
  dict_of key (xs ++ [x]) = <[key x := x]> (dict_of key xs).
Proof. unfold dict_of. by rewrite foldl_app. Qed.

(** A key holds the last item filed under it. *)
Lemma dict_of_lookup xs k :
  dict_of key xs !! k = last (filter (fun x => key x = k) xs).
Proof.
  induction xs as [|x xs IH] using rev_ind; [done|].
  rewrite dict_of_snoc, filter_app, last_app, filter_cons, filter_nil.
  destruct (decide (key x = k)) as [->|Hne]; simpl.
  - by rewrite lookup_insert_eq.
  - by rewrite lookup_insert_ne.
Qed.

Lemma dict_of_lookup_Some xs k x :
  dict_of key xs !! k = Some x → x ∈ xs ∧ key x = k.
Proof.
  rewrite dict_of_lookup. intros Hl.
  assert (x ∈ filter (fun x => key x = k) xs) as Hin.
  { apply last_Some in Hl as [l' ->]. set_solver. }
  by apply list_elem_of_filter in Hin as [? ?].
Qed.

Lemma elem_of_set_of xs k : k ∈ set_of key xs ↔ ∃ x, x ∈ xs ∧ key x = k.
Proof.
  unfold set_of. rewrite elem_of_list_to_set, list_elem_of_fmap. naive_solver.
Qed.

Lemma dom_dict_of xs : dom (dict_of key xs) = set_of key xs.
Proof.
  apply set_eq. intros k. rewrite elem_of_dom, elem_of_set_of, dict_of_lookup.
  split.
  - intros [x Hx]. exists x. apply (dict_of_lookup_Some xs k x).
    by rewrite dict_of_lookup.
  - intros (x & Hin & Hk).
    assert (x ∈ filter (fun x => key x = k) xs) as Hf
      by by apply list_elem_of_filter.
    destruct (filter (fun x => key x = k) xs) as [|y l] using rev_ind.
    + by apply elem_of_nil in Hf.
    + rewrite last_snoc. by eexists.
Qed.

(** An item is silently dropped when a later one has the same key. *)
Lemma dict_of_overwritten l1 p l2 :
  (∃ q, q ∈ l2 ∧ key q = key p) →
  dict_of key (l1 ++ p :: l2) = dict_of key (l1 ++ l2).
Proof.
  intros (q & Hq & Hk). apply map_eq. intros k.
  rewrite !dict_of_lookup, !filter_app, filter_cons.
  destruct (decide (key p = k)) as [<-|Hne]; [|done].
  rewrite !last_app, last_cons.
  assert (q ∈ filter (fun x => key x = key p) l2) as Hf
    by by apply list_elem_of_filter.
  destruct (last (filter (fun x => key x = key p) l2)) eqn:Hl; [done|].
  apply last_None in Hl. rewrite Hl in Hf. by apply elem_of_nil in Hf.
Qed.

End dict_of.

(** ** Output dicts *)

Lemma dict_keys_dict_set k v (d : pydict) k' :
  k' ∈ dict_keys (dict_set k v d) ↔ k' = k ∨ k' ∈ dict_keys d.
Proof.
  unfold dict_keys. induction d as [|[k0 v0] d IH]; simpl.
  - rewrite list_elem_of_singleton. set_solver.
  - destruct (decide (k0 = k)) as [->|Hne]; simpl.
    + set_solver.
    + rewrite !elem_of_cons, IH. naive_solver.
Qed.

Lemma dict_get_dict_set k v (d : pydict) k' :
  dict_get k' (dict_set k v d) = if decide (k = k') then Some v else dict_get k' d.
Proof.
  induction d as [|[k0 v0] d IH]; simpl.
  - by destruct (decide (k = k')).
  - destruct (decide (k0 = k)) as [->|Hne]; simpl.
    + by destruct (decide (k = k')).
    + destruct (decide (k0 = k')) as [->|Hne'].
      * by destruct (decide (k = k')); [congruence|].
      * done.
Qed.

Lemma dict_get_dict_set_eq k v (d : pydict) :
  dict_get k (dict_set k v d) = Some v.
Proof. rewrite dict_get_dict_set. by destruct (decide (k = k)). Qed.

Lemma dict_get_dict_set_ne k k' v (d : pydict) :
  k' ≠ k → dict_get k (dict_set k' v d) = dict_get k d.
Proof. intros Hne. rewrite dict_get_dict_set. by destruct (decide (k' = k)). Qed.

(** ** The loop over the common keys *)

Section modified_items.
Context {X : Type} (it : iteration) (name : X → string)
        (compare_item : X → X → pyval) (css_dict csgo_dict : gmap string X).

(** Every key of [modified] is the name, in its original spelling, of an
    item of the CS:GO side whose dict key is on both sides, and the value
    is the item comparator's non-empty answer for that pair. *)
Lemma modified_items_keys k :
  k ∈ dict_keys (modified_items it name compare_item css_dict csgo_dict) →
  ∃ key css_item csgo_item,
    key ∈ iter_str it (dom css_dict ∩ dom csgo_dict)
    ∧ css_dict !! key = Some css_item
    ∧ csgo_dict !! key = Some csgo_item
    ∧ truthy (compare_item css_item csgo_item) = true
    ∧ k = KStr (name csgo_item).
Proof.
  unfold modified_items.
  generalize (iter_str it (dom css_dict ∩ dom csgo_dict)). intros keys.
  induction keys as [|key keys IH] using rev_ind.
  - simpl. intros Hk. by apply elem_of_nil in Hk.
  - rewrite foldl_app. simpl.
    destruct (css_dict !! key) as [css_item|] eqn:Hcss;
      destruct (csgo_dict !! key) as [csgo_item|] eqn:Hcsgo;
      try (intros Hk; destruct (IH Hk) as (key' & c & g & Hin & ?);
           exists key', c, g; split; [set_solver|done]).
    destruct (truthy (compare_item css_item csgo_item)) eqn:Ht;
      [|intros Hk; destruct (IH Hk) as (key' & c & g & Hin & ?);
        exists key', c, g; split; [set_solver|done]].
    rewrite dict_keys_dict_set. intros [->|Hk].
    + exists key, css_item, csgo_item. repeat split; try done. set_solver.
    + destruct (IH Hk) as (key' & c & g & Hin & ?).
      exists key', c, g; split; [set_solver|done].
Qed.

(** Conversely a pair that the item comparator tells apart is stored. *)
Lemma modified_items_stored key css_item csgo_item :
  key ∈ iter_str it (dom css_dict ∩ dom csgo_dict) →
  css_dict !! key = Some css_item →
  csgo_dict !! key = Some csgo_item →
  truthy (compare_item css_item csgo_item) = true →
  KStr (name csgo_item)
    ∈ dict_keys (modified_items it name compare_item css_dict csgo_dict).
Proof.
  unfold modified_items.
  generalize (iter_str it (dom css_dict ∩ dom csgo_dict)). intros keys.
  induction keys as [|key' keys IH] using rev_ind.
  - intros Hk. by apply elem_of_nil in Hk.
  - rewrite foldl_app, elem_of_app, list_elem_of_singleton. simpl.
    intros [Hin| ->] Hcss Hcsgo Ht.
    + specialize (IH Hin Hcss Hcsgo Ht).
      destruct (css_dict !! key') as [c|]; [|done].
      destruct (csgo_dict !! key') as [g|]; [|done].
      destruct (truthy (compare_item c g)); [|done].
      apply dict_keys_dict_set. by right.
    + rewrite Hcss, Hcsgo, Ht. apply dict_keys_dict_set. by left.
Qed.
End modified_items.

(** When both sides are the same dict and the item comparator finds nothing
    between an item and itself, nothing is stored. *)
Lemma modified_items_same {X : Type} (it : iteration) (name : X → string)
    (compare_item : X → X → pyval) (d : gmap string X) :
  (∀ x, compare_item x x = PNone) →
  modified_items it name compare_item d d = [].
Proof.
  intros Hsame. unfold modified_items.
  generalize (iter_str it (dom d ∩ dom d)). intros keys.
  induction keys as [|key keys IH] using rev_ind; [done|].
  rewrite foldl_app, IH. simpl.
  destruct (d !! key) as [x|]; [|done]. by rewrite Hsame.
Qed.

(** ** Comparing a thing with itself *)

Lemma compare_attrs_same {X : Type} (getattr : X → string → pyval)
    (attrs : list string) (x : X) (differences : pydict) :
  compare_attrs getattr attrs x x differences = differences.
Proof.
  unfold compare_attrs. induction attrs as [|attr attrs IH]; simpl; [done|].
  rewrite bool_decide_eq_false_2; [done|]. intros Hne. by apply Hne.
Qed.

Lemma fgd_compare_io_item_same x : FgdComparator.compare_io_item x x = PNone.
Proof. unfold FgdComparator.compare_io_item. by rewrite compare_attrs_same. Qed.

Lemma csgo_compare_io_item_same x : CsgoToCss.compare_io_item x x = PNone.
Proof.
  unfold CsgoToCss.compare_io_item.
  rewrite bool_decide_eq_false_2 by (intros Hne; by apply Hne).
  by rewrite compare_attrs_same.
Qed.

Lemma fgd_compare_property_same x : FgdComparator.compare_property x x = PNone.
Proof.
  unfold FgdComparator.compare_property. rewrite compare_attrs_same.
  by rewrite bool_decide_eq_false_2 by (intros Hne; by apply Hne).
Qed.

Lemma csgo_compare_property_same x : CsgoToCss.compare_property x x = PNone.
Proof.
  unfold CsgoToCss.compare_property. rewrite compare_attrs_same.
  rewrite (bool_decide_eq_false_2 (_ ≠ CsgoToCss.sorted_choices _))
    by (intros Hne; by apply Hne).
  by destruct (_ || _).
Qed.

Lemma fgd_compare_spawnflag_same x : FgdComparator.compare_spawnflag x x = PNone.
Proof.
  unfold FgdComparator.compare_spawnflag.
  by rewrite !bool_decide_eq_false_2 by (intros Hne; by apply Hne).
Qed.

Lemma csgo_compare_spawnflag_same x : CsgoToCss.compare_spawnflag x x = PNone.
Proof. unfold CsgoToCss.compare_spawnflag. by rewrite compare_attrs_same. Qed.

Section same.
Context (it : iteration) (Hit : iteration_ok it).

Lemma fgd_compare_properties_same props :
  FgdComparator.compare_properties it props props = PNone.
Proof.
  unfold FgdComparator.compare_properties.
  rewrite difference_diag_L, (iter_str_empty it Hit).
  by rewrite (modified_items_same _ _ _ _ fgd_compare_property_same).
Qed.

Lemma csgo_compare_properties_same props :
  CsgoToCss.compare_properties it props props = PNone.
Proof.
  unfold CsgoToCss.compare_properties. destruct props as [|p props]; [done|].
  rewrite difference_diag_L, (iter_str_empty it Hit).
  by rewrite (modified_items_same _ _ _ _ csgo_compare_property_same).
Qed.

Lemma fgd_compare_io_same ios io_type :
  FgdComparator.compare_io it ios ios io_type = PNone.
Proof.
  unfold FgdComparator.compare_io.
  rewrite difference_diag_L, (iter_str_empty it Hit).
  by rewrite (modified_items_same _ _ _ _ fgd_compare_io_item_same).
Qed.

Lemma csgo_compare_io_same ios : CsgoToCss.compare_io it ios ios = PNone.
Proof.
  unfold CsgoToCss.compare_io.
  rewrite difference_diag_L, (iter_str_empty it Hit).
  by rewrite (modified_items_same _ _ _ _ csgo_compare_io_item_same).
Qed.

Lemma fgd_compare_definitions_same defs :
  FgdComparator.compare_definitions defs defs = PNone.
Proof.
  unfold FgdComparator.compare_definitions.
  by rewrite bool_decide_eq_false_2 by (intros Hne; by apply Hne).
Qed.
End same.

(** *** Spawnflags *)

Lemma flag_dict_from_integer flags (m : gmap Z FgdEntitySpawnflag) :
  Forall integer_valued flags →
  ∃ d, for_each (fun m flag => value ← py_int (flag_value flag);
                               mret (<[value := flag]> m)) m flags = Ok d.
Proof.
  intros Hall. revert m. induction Hall as [|flag flags [value Hv] _ IH];
    intros m; simpl; [by eexists|].
  rewrite Hv. simpl. apply IH.
Qed.

Lemma flag_dict_integer flags :
  Forall integer_valued flags → ∃ d, FgdComparator.flag_dict flags = Ok d.
Proof. apply flag_dict_from_integer. Qed.

(** The first value that [int()] rejects ends [flag_dict] with that
    exception. *)
Lemma flag_dict_from_raise flags (m : gmap Z FgdEntitySpawnflag) :
  ¬ Forall integer_valued flags →
  ∃ e, for_each (fun m flag => value ← py_int (flag_value flag);
                               mret (<[value := flag]> m)) m flags = Raise e.
Proof.
  revert m. induction flags as [|flag flags IH]; intros m Hnot.
  - destruct Hnot. constructor.
  - simpl. destruct (py_int (flag_value flag)) as [value|e] eqn:Hv; simpl.
    + apply IH. intros Hall. apply Hnot. constructor; [by exists value|done].
    + by exists e.
Qed.

Lemma spawnflag_steps_same (d : gmap Z FgdEntitySpawnflag) values acc :
  foldl (FgdComparator.spawnflag_step d d) acc values = acc.
Proof.
  revert acc. induction values as [|value values IH]; intros acc; [done|].
  simpl. rewrite <- (IH acc) at 2. f_equal.
  unfold FgdComparator.spawnflag_step. destruct acc as [[new removed] modified].
  destruct (d !! value) as [flag|]; [|done].
  by rewrite fgd_compare_spawnflag_same.
Qed.

Lemma fgd_compare_spawnflags_same it flags :
  Forall integer_valued flags →
  FgdComparator.compare_spawnflags it flags flags = Ok PNone.
Proof.
  intros Hall. destruct (flag_dict_integer flags Hall) as [d Hd].
  unfold FgdComparator.compare_spawnflags. rewrite Hd. simpl.
  by rewrite spawnflag_steps_same.
Qed.

(** What [group_flags] files does not depend on the label it prints. *)
Lemma group_flags_dict label1 label2 flags :
  (CsgoToCss.group_flags label1 flags).2 = (CsgoToCss.group_flags label2 flags).2.
Proof.
  unfold CsgoToCss.group_flags.
  induction flags as [|flag flags IH] using rev_ind; [done|].
  rewrite !foldl_app. simpl.
  destruct (foldl _ _ flags) as [printed1 d1].
  destruct (foldl _ _ flags) as [printed2 d2]. simpl in IH. subst d2.
  by destruct (py_int (flag_value flag)).
Qed.

Lemma zip_same_pairs {A : Type} (l : list A) (p : A * A) :
  p ∈ zip l l → p.1 = p.2.
Proof.
  induction l as [|x l IH]; simpl; [by intros ?%elem_of_nil|].
  rewrite elem_of_cons. intros [->|Hin]; [done|by apply IH].
Qed.

Lemma csgo_compare_spawnflags_same it flags :
  iteration_ok it →
  ∃ printed, CsgoToCss.compare_spawnflags it flags flags = (printed, PNone).
Proof.
  intros Hit. unfold CsgoToCss.compare_spawnflags.
  pose proof (group_flags_dict "CS:S" "CS:GO" flags) as Hsame.
  destruct (CsgoToCss.group_flags "CS:S" flags) as [printed_css d].
  destruct (CsgoToCss.group_flags "CS:GO" flags) as [printed_csgo d'].
  simpl in Hsame. subst d'. exists (printed_css ++ printed_csgo).
  rewrite difference_diag_L, (iter_int_empty it Hit). simpl.
  assert (foldl
            (fun modified flag_value' =>
               foldl (fun modified '(css_flag, csgo_flag) =>
                        if truthy (CsgoToCss.compare_spawnflag css_flag csgo_flag)
                        then dict_set
                               (KStr (CsgoToCss.flag_label flag_value' csgo_flag))
                               (CsgoToCss.compare_spawnflag css_flag csgo_flag)
                               modified
                        else modified)
                     modified
                     (zip (default [] (d !! flag_value'))
                          (default [] (d !! flag_value'))))
            [] (iter_int it (dom d ∩ dom d)) = []) as ->; [|done].
  generalize (iter_int it (dom d ∩ dom d)). intros values.
  induction values as [|value values IH] using rev_ind; [done|].
  rewrite foldl_app, IH. simpl.
  pose proof (zip_same_pairs (default [] (d !! value))) as Hpairs.
  induction (zip (default [] (d !! value)) (default [] (d !! value)))
    as [|[css_flag csgo_flag] pairs IHp] using rev_ind; [done|].
  rewrite foldl_app, IHp by (intros p Hp; apply Hpairs; set_solver). simpl.
  assert (css_flag = csgo_flag) as -> by (apply (Hpairs (css_flag, csgo_flag)); set_solver).
  by rewrite csgo_compare_spawnflag_same.
Qed.

(** *** Editor data *)

Lemma py_eq_refl (x : pyval) : py_eq x x = true.
Proof. unfold py_eq. by apply bool_decide_eq_true_2. Qed.

Lemma compare_editor_data_same it eds :
  iteration_ok it →
  CsgoToCss.compare_editor_data it eds eds
  = PDict [(KStr "new", PList []); (KStr "removed", PList []);
           (KStr "modified", PDict [])].
Proof.
  intros Hit. unfold CsgoToCss.compare_editor_data.
  rewrite difference_diag_L, (iter_tuple_empty it Hit). simpl.
  match goal with
  | |- context [foldl ?f [] ?keys] => assert (foldl f [] keys = []) as ->; [|done]
  end.
  generalize (iter_tuple it (dom (dict_of CsgoToCss.get_key eds)
                             ∩ dom (dict_of CsgoToCss.get_key eds))).
  intros keys. induction keys as [|key keys IH] using rev_ind; [done|].
  rewrite foldl_app, IH. simpl.
  destruct (dict_of CsgoToCss.get_key eds !! key); [|done].
  by rewrite py_eq_refl.
Qed.

(** *** Entities *)

Lemma fgd_compare_entity_same it e :
  iteration_ok it →
  Forall integer_valued (ent_spawnflags e) →
  FgdComparator.compare_entity it e e = Ok [].
Proof.
  intros Hit Hflags. unfold FgdComparator.compare_entity.
  rewrite !bool_decide_eq_false_2 by (intros Hne; by apply Hne).
  rewrite fgd_compare_definitions_same, (fgd_compare_properties_same it Hit).
  rewrite (fgd_compare_spawnflags_same it _ Hflags).
  by rewrite !(fgd_compare_io_same it Hit).
Qed.

Lemma csgo_compare_entity_same it e :
  iteration_ok it →
  ∃ printed, CsgoToCss.compare_entity it e e = (printed, []).
Proof.
  intros Hit. unfold CsgoToCss.compare_entity.
  rewrite !bool_decide_eq_false_2 by (intros Hne; by apply Hne).
  rewrite (csgo_compare_properties_same it Hit).
  destruct (csgo_compare_spawnflags_same it (ent_spawnflags e) Hit) as [printed ->].
  rewrite !(csgo_compare_io_same it Hit). by exists printed.
Qed.

(** *** Whole schemas *)

(** A name taken from the set of lower-cased entity names always finds its
    entity: [next] does not raise [StopIteration]. *)
Lemma entities_named_next fgd entity_name :
  entity_name ∈ (set_of (fun e => lower (ent_name e)) (entities fgd) : gset string) →
  ∃ e, next (entities_named fgd entity_name) = Ok e
       ∧ next_or_none (entities_named fgd entity_name) = Some e
       ∧ e ∈ entities fgd
       ∧ lower (ent_name e) = entity_name.
Proof.
  rewrite elem_of_set_of. intros (e & Hin & Hname).
  assert (e ∈ entities_named fgd entity_name) as Hf
    by by apply list_elem_of_filter.
  destruct (entities_named fgd entity_name) as [|e' l] eqn:Hl.
  - by apply elem_of_nil in Hf.
  - exists e'. split; [done|]. split; [done|].
    assert (e' ∈ entities_named fgd entity_name) as Hf' by (rewrite Hl; set_solver).
    by apply list_elem_of_filter in Hf' as [? ?].
Qed.

Lemma entities_named_absent fgd entity_name :
  entity_name ∉ (set_of (fun e => lower (ent_name e)) (entities fgd) : gset string) →
  entities_named fgd entity_name = [].
Proof.
  rewrite elem_of_set_of. intros Hnot.
  destruct (entities_named fgd entity_name) as [|e l] eqn:Hl; [done|].
  assert (e ∈ entities_named fgd entity_name) as Hf by (rewrite Hl; set_solver).
  apply list_elem_of_filter in Hf as [? ?]. destruct Hnot. by exists e.
Qed.

Lemma fgd_modified_entities_step_same it fgd modified name :
  iteration_ok it → integer_flags fgd →
  name ∈ (set_of (fun e => lower (ent_name e)) (entities fgd) : gset string) →
  FgdComparator.modified_entities_step it fgd fgd modified name = Ok modified.
Proof.
  intros Hit Hflags Hin. unfold FgdComparator.modified_entities_step.
  destruct (entities_named_next fgd name Hin) as (e & -> & _ & He & _).
  simpl. rewrite fgd_compare_entity_same; [done|done|].
  unfold integer_flags in Hflags. rewrite Forall_forall in Hflags. by apply Hflags.
Qed.

Lemma fgd_modified_entities_same it fgd names :
  iteration_ok it → integer_flags fgd →
  (∀ name, name ∈ names →
     name ∈ (set_of (fun e => lower (ent_name e)) (entities fgd) : gset string)) →
  for_each (FgdComparator.modified_entities_step it fgd fgd) [] names = Ok [].
Proof.
  intros Hit Hflags. induction names as [|name names IH]; intros Hin; [done|].
  cbn [for_each]. rewrite fgd_modified_entities_step_same; [|done|done|set_solver].
  simpl. apply IH. set_solver.
Qed.

Lemma fgd_porting_issues_step_same it fgd issues name :
  iteration_ok it →
  name ∈ (set_of (fun e => lower (ent_name e)) (entities fgd) : gset string) →
  FgdComparator.porting_issues_step it fgd fgd issues name = Ok issues.
Proof.
  intros Hit Hin. unfold FgdComparator.porting_issues_step.
  destruct (entities_named_next fgd name Hin) as (e & -> & -> & He & _).
  simpl. by rewrite difference_diag_L, (iter_str_empty it Hit).
Qed.

Lemma fgd_porting_issues_same it fgd names :
  iteration_ok it →
  (∀ name, name ∈ names →
     name ∈ (set_of (fun e => lower (ent_name e)) (entities fgd) : gset string)) →
  for_each (FgdComparator.porting_issues_step it fgd fgd) [] names = Ok [].
Proof.
  intros Hit. induction names as [|name names IH]; intros Hin; [done|].
  cbn [for_each]. rewrite fgd_porting_issues_step_same; [|done|set_solver].
  simpl. apply IH. set_solver.
Qed.

(** Idempotence of [fgdcomparator.py]: on a schema whose spawnflag values
    are all integers, comparing the schema with itself reports nothing. *)
Lemma fgd_compare_fgds_same it now fgd :
  iteration_ok it → integer_flags fgd →
  FgdComparator.compare_fgds it now fgd fgd
  = Ok (PDict
          [(KStr "metadata",
            PDict [(KStr "css_version", PStr "Counter-Strike: Source");
                   (KStr "csgo_version", PStr "Counter-Strike: Global Offensive");
                   (KStr "comparison_date", PStr now)]);
           (KStr "new_entities", PList []);
           (KStr "removed_entities", PList []);
           (KStr "modified_entities", PDict []);
           (KStr "backward_porting_issues", PList [])]).
Proof.
  intros Hit Hflags. unfold FgdComparator.compare_fgds.
  rewrite difference_diag_L, (iter_str_empty it Hit).
  rewrite fgd_modified_entities_same; [|done|done|].
  - simpl. rewrite fgd_porting_issues_same; [done|done|].
    intros name. by rewrite (elem_of_iter_str it Hit).
  - intros name. rewrite (elem_of_iter_str it Hit). set_solver.
Qed.

Lemma csgo_modified_entities_same it fgd names :
  iteration_ok it →
  (∀ name, name ∈ names →
     name ∈ (set_of (fun e => lower (ent_name e)) (entities fgd) : gset string)) →
  ∃ printed,
    CsgoToCss.modified_entities_loop it fgd fgd [] names = (printed, Ok []).
Proof.
  intros Hit. induction names as [|name names IH]; intros Hin; [by eexists|].
  cbn [CsgoToCss.modified_entities_loop].
  destruct (entities_named_next fgd name) as (e & -> & _ & He & _); [set_solver|].
  destruct (csgo_compare_entity_same it e Hit) as [printed ->]. simpl.
  destruct IH as [printed' ->]; [set_solver|]. by eexists.
Qed.

(** Idempotence of [csgo_to_css_comparison.py]: comparing any schema with
    itself reports nothing. *)
Lemma csgo_compare_fgds_same it fgd :
  iteration_ok it →
  ∃ printed,
    CsgoToCss.compare_fgds it fgd fgd
    = (printed,
       Ok (PDict
             [(KStr "new_entities", PList []);
              (KStr "removed_entities", PList []);
              (KStr "modified_entities", PDict []);
              (KStr "editor_data_changes",
               PDict [(KStr "new", PList []); (KStr "removed", PList []);
                      (KStr "modified", PDict [])])])).
Proof.
  intros Hit. unfold CsgoToCss.compare_fgds. cbv zeta.
  set (names := set_of (fun e => lower (ent_name e)) (entities fgd) : gset string).
  assert (names ∖ names = ∅) as -> by apply difference_diag_L.
  rewrite (iter_str_empty it Hit).
  rewrite (compare_editor_data_same it _ Hit).
  destruct (csgo_modified_entities_same it fgd (iter_str it (names ∩ names)) Hit)
    as [printed ->].
  - intros name. rewrite (elem_of_iter_str it Hit). set_solver.
  - by exists printed.
Qed.

(** ** The run of [csgo_to_css_comparison.py] always returns a report *)

Lemma csgo_modified_entities_loop_ok it css_fgd csgo_fgd modified names :
  (∀ name, name ∈ names →
     name ∈ (set_of (fun e => lower (ent_name e)) (entities css_fgd) : gset string)
     ∧ name ∈ (set_of (fun e => lower (ent_name e)) (entities csgo_fgd) : gset string)) →
  ∃ printed modified',
    CsgoToCss.modified_entities_loop it css_fgd csgo_fgd modified names
    = (printed, Ok modified').
Proof.
  revert modified. induction names as [|name names IH]; intros modified Hin;
    [by do 2 eexists|].
  cbn [CsgoToCss.modified_entities_loop].
  destruct (Hin name) as [Hcss Hcsgo]; [set_solver|].
  destruct (entities_named_next css_fgd name Hcss) as (e1 & -> & _).
  destruct (entities_named_next csgo_fgd name Hcsgo) as (e2 & -> & _).
  destruct (CsgoToCss.compare_entity it e1 e2) as [printed entity_diff].
  edestruct IH as (printed' & modified' & ->); [set_solver|]. by do 2 eexists.
Qed.

Lemma csgo_compare_fgds_ok it css_fgd csgo_fgd :
  iteration_ok it →
  ∃ printed new_entities removed_entities modified_entities,
    CsgoToCss.compare_fgds it css_fgd csgo_fgd
    = (printed,
       Ok (PDict
             [(KStr "new_entities", PList new_entities);
              (KStr "removed_entities", PList removed_entities);
              (KStr "modified_entities", PDict modified_entities);
              (KStr "editor_data_changes",
               CsgoToCss.compare_editor_data it (editor_data css_fgd)
                                                (editor_data csgo_fgd))])).
Proof.
  intros Hit. unfold CsgoToCss.compare_fgds. cbv zeta.
  edestruct (csgo_modified_entities_loop_ok it css_fgd csgo_fgd [])
    as (printed & modified & ->).
  - intros name. rewrite (elem_of_iter_str it Hit). set_solver.
  - by do 4 eexists.
Qed.

(** C10.  For every pair of lists of editor-data blocks the value of
    [compare_editor_data] is a dict with exactly the three keys [new],
    [removed] and [modified]; the report of [compare_fgds] always carries it
    under [editor_data_changes]; and when the two sides are equal the three
    collections are empty yet the entry is still there, whereas the property,
    spawnflag and io comparisons of equal sides return [None] and leave no
    entry. *)
Theorem editor_data_changes_always_reported (it : iteration) :
  iteration_ok it →
  (∀ css_editor_data csgo_editor_data,
     ∃ new removed modified,
       CsgoToCss.compare_editor_data it css_editor_data csgo_editor_data
       = PDict [(KStr "new", PList new); (KStr "removed", PList removed);
                (KStr "modified", PDict modified)])
  ∧ (∀ css_fgd csgo_fgd,
       ∃ printed report,
         CsgoToCss.compare_fgds it css_fgd csgo_fgd = (printed, Ok (PDict report))
         ∧ dict_get (KStr "editor_data_changes") report
           = Some (CsgoToCss.compare_editor_data it (editor_data css_fgd)
                                                    (editor_data csgo_fgd)))
  ∧ (∀ fgd,
       ∃ printed report,
         CsgoToCss.compare_fgds it fgd fgd = (printed, Ok (PDict report))
         ∧ dict_get (KStr "editor_data_changes") report
           = Some (PDict [(KStr "new", PList []); (KStr "removed", PList []);
                          (KStr "modified", PDict [])]))
  ∧ (∀ props, CsgoToCss.compare_properties it props props = PNone)
  ∧ (∀ flags, (CsgoToCss.compare_spawnflags it flags flags).2 = PNone)
  ∧ (∀ ios, CsgoToCss.compare_io it ios ios = PNone).
Proof.
  intros Hit. repeat split.
  - intros css_editor_data csgo_editor_data.
    unfold CsgoToCss.compare_editor_data. by do 3 eexists.
  - intros css_fgd csgo_fgd.
    destruct (csgo_compare_fgds_ok it css_fgd csgo_fgd Hit)
      as (printed & new & removed & modified & ->).
    by do 2 eexists.
  - intros fgd. destruct (csgo_compare_fgds_same it fgd Hit) as [printed ->].
    by do 2 eexists.
  - apply (csgo_compare_properties_same it Hit).
  - intros flags.
    by destruct (csgo_compare_spawnflags_same it flags Hit) as [printed ->].
  - apply (csgo_compare_io_same it Hit).
Qed.

Lemma editor_data_changes_always_reported_witness :
  iteration_ok ascending
  ∧ ∃ printed report,
      CsgoToCss.compare_fgds ascending editor_css_fgd editor_csgo_fgd
      = (printed, Ok (PDict report))
      ∧ dict_get (KStr "editor_data_changes") report
        = Some (CsgoToCss.compare_editor_data ascending
                  (editor_data editor_css_fgd) (editor_data editor_csgo_fgd)).
Proof.
  split; [exact ascending_ok|].
  exact (proj1 (proj2 (editor_data_changes_always_reported ascending ascending_ok))
           editor_css_fgd editor_csgo_fgd).
Defined.

(** The editor data of the two sample schemas: the visgroups are one new and
    one removed block, the [mapsize] blocks are paired under the key
    [('mapsize',)] and differ in their payload. *)
Example compare_editor_data_sample :
  CsgoToCss.compare_editor_data ascending
    (editor_data editor_css_fgd) (editor_data editor_csgo_fgd)
  = PDict
      [(KStr "new", PList [ed_to_dict (visgroup_block "Entities" ["Lights"])]);
       (KStr "removed", PList [ed_to_dict (visgroup_block "Brushes" ["Triggers"])]);
       (KStr "modified",
        PDict [(KTuple ["mapsize"],
                css_csgo (PList [PInt (-16384); PInt 16384])
                         (PList [PInt (-32768); PInt 32768]))])].
Proof. vm_compute. reflexivity. Qed.

(** ** Where the two scripts part from the design *)

(** C1.  Idempotence holds in [csgo_to_css_comparison.py] for every schema
    ([csgo_compare_fgds_same]) and in [fgdcomparator.py] for every schema
    whose spawnflag values are integers ([fgd_compare_fgds_same]).  On a
    schema with a spawnflag value that is not an integer literal,
    [fgdcomparator.py] compared with itself does not yield an empty diff: it
    raises [ValueError], while the sibling script prints two warnings and
    returns the empty diff. *)
Theorem fgdcomparator_same_schema_raises :
  FgdComparator.compare_fgds ascending "2024-01-01T00:00:00" bad_flag_fgd bad_flag_fgd
  = Raise (ValueError "abc")
  ∧ CsgoToCss.compare_fgds ascending bad_flag_fgd bad_flag_fgd
    = (["Invalid flag value in CS:S FGD: abc";
        "Invalid flag value in CS:GO FGD: abc"],
       Ok (PDict
             [(KStr "new_entities", PList []);
              (KStr "removed_entities", PList []);
              (KStr "modified_entities", PDict []);
              (KStr "editor_data_changes",
               PDict [(KStr "new", PList []); (KStr "removed", PList []);
                      (KStr "modified", PDict [])])])).
Proof. split; vm_compute; reflexivity. Qed.

(** C2.  The lists of added and removed keys are not always sorted.  In
    [csgo_to_css_comparison.py] the list of new entities is the set's own
    iteration order: of two admissible orders one gives [b, a] and the other
    [a, b] on the same pair of schemas.  In [fgdcomparator.py] the new
    spawnflags come out in iteration order as well, here 8 before 1. *)
Theorem added_lists_follow_iteration_order :
  iteration_ok ascending ∧ iteration_ok descending
  ∧ CsgoToCss.compare_fgds descending (sample_fgd []) two_entities_fgd
    = ([],
       Ok (PDict
             [(KStr "new_entities", PList [PStr "b"; PStr "a"]);
              (KStr "removed_entities", PList []);
              (KStr "modified_entities", PDict []);
              (KStr "editor_data_changes",
               PDict [(KStr "new", PList []); (KStr "removed", PList []);
                      (KStr "modified", PDict [])])]))
  ∧ CsgoToCss.compare_fgds ascending (sample_fgd []) two_entities_fgd
    = ([],
       Ok (PDict
             [(KStr "new_entities", PList [PStr "a"; PStr "b"]);
              (KStr "removed_entities", PList []);
              (KStr "modified_entities", PDict []);
              (KStr "editor_data_changes",
               PDict [(KStr "new", PList []); (KStr "removed", PList []);
                      (KStr "modified", PDict [])])]))
  ∧ FgdComparator.compare_spawnflags descending []
      [sample_flag (FInt 1) "Locked"; sample_flag (FInt 8) "Silent"]
    = Ok (PDict
            [(KStr "new",
              PList [flag_schema (sample_flag (FInt 8) "Silent");
                     flag_schema (sample_flag (FInt 1) "Locked")]);
             (KStr "removed", PList []);
             (KStr "modified", PDict [])]).
Proof.
  split; [exact ascending_ok|]. split; [exact descending_ok|].
  repeat split; vm_compute; reflexivity.
Qed.

(** C7.  [compare_spawnflags] of [fgdcomparator.py] does not skip a
    spawnflag whose value is not an integer: [int()] raises [ValueError] and
    the comparison ends there, whatever the other flags are.  On the same
    input [csgo_to_css_comparison.py] prints a warning, passes over the flag
    and compares the rest. *)
Theorem fgdcomparator_aborts_on_non_integer_flag :
  (∀ it,
     FgdComparator.compare_spawnflags it
       [sample_flag (FStr "abc") "Broken"; sample_flag (FInt 1) "Locked"]
       [sample_flag (FInt 1) "Locked"; sample_flag (FInt 2) "Silent"]
     = Raise (ValueError "abc"))
  ∧ CsgoToCss.compare_spawnflags ascending
      [sample_flag (FStr "abc") "Broken"; sample_flag (FInt 1) "Locked"]
      [sample_flag (FInt 1) "Locked"; sample_flag (FInt 2) "Silent"]
    = (["Invalid flag value in CS:S FGD: abc"],
       PDict [(KStr "new", PList [PStr "2 (Silent)"])]).
Proof. split; [intros it|]; vm_compute; reflexivity. Qed.

(** C8.  The backward-porting issues do not always agree with the added
    properties of the per-entity diff.  The issue list compares property
    names as spelled, the per-entity diff compares them lower-cased: for a
    property [Speed] that CS:GO spells [speed] the report has a
    Medium-severity issue, yet the entity has no added property (it is not
    even among the modified entities). *)
Theorem porting_issue_without_added_property :
  FgdComparator.compare_fgds ascending "2024-01-01T00:00:00"
    speed_css_fgd speed_csgo_fgd
  = Ok (PDict
          [(KStr "metadata",
            PDict [(KStr "css_version", PStr "Counter-Strike: Source");
                   (KStr "csgo_version", PStr "Counter-Strike: Global Offensive");
                   (KStr "comparison_date", PStr "2024-01-01T00:00:00")]);
           (KStr "new_entities", PList []);
           (KStr "removed_entities", PList []);
           (KStr "modified_entities", PDict []);
           (KStr "backward_porting_issues",
            PList [FgdComparator.new_property_issue "x" "speed"])])
  ∧ FgdComparator.compare_properties ascending
      [sample_property "Speed" "100"] [sample_property "speed" "100"]
    = PNone.
Proof. split; vm_compute; reflexivity. Qed.

(** C9.  [compare_io] of [fgdcomparator.py] matches an input and an output
    that share a name and reports nothing about the change of class: with
    equal value type and description the pair counts as unchanged.
    [csgo_to_css_comparison.py] reports the same pair under [type].  When the
    input sits in [inputs] on one side and the output in [outputs] on the
    other, the two are never paired: the per-entity diff is one removed
    input and one new output. *)
Theorem fgdcomparator_io_class_change_unreported :
  FgdComparator.compare_io ascending
    [sample_io FgdEntityInput "Kill"] [sample_io FgdEntityOutput "Kill"] "input"
  = PNone
  ∧ CsgoToCss.compare_io ascending
      [sample_io FgdEntityInput "Kill"] [sample_io FgdEntityOutput "Kill"]
    = PDict
        [(KStr "new", PList []); (KStr "removed", PList []);
         (KStr "modified",
          PDict [(KStr "Kill",
                  PDict [(KStr "type",
                          css_csgo (PStr "FgdEntityInput")
                                   (PStr "FgdEntityOutput"))])])]
  ∧ CsgoToCss.compare_entity ascending toggle_css toggle_csgo
    = ([],
       [(KStr "inputs",
         PDict [(KStr "new", PList []); (KStr "removed", PList [PStr "toggle"]);
                (KStr "modified", PDict [])]);
        (KStr "outputs",
         PDict [(KStr "new", PList [PStr "toggle"]); (KStr "removed", PList []);
                (KStr "modified", PDict [])])]).
Proof. repeat split; vm_compute; reflexivity. Qed.

(** ** Sorting *)

Section sorted_facts.
Context {A : Type} (lt : A → A → bool).

Lemma insert_sorted_Permutation x l : insert_sorted lt x l ≡ₚ x :: l.
Proof.
  induction l as [|y l IH]; simpl; [done|].
  destruct (lt y x); [|done]. rewrite IH. apply Permutation_swap.
Qed.

Lemma sorted_Permutation l : sorted lt l ≡ₚ l.
Proof.
  induction l as [|x l IH]; simpl; [done|].
  by rewrite insert_sorted_Permutation, IH.
Qed.

Lemma elem_of_sorted x l : x ∈ sorted lt l ↔ x ∈ l.
Proof. by rewrite sorted_Permutation. Qed.

Context (lt_asym : ∀ x y, lt x y = true → lt y x = false).
Context (not_after_trans : Transitive (not_after lt)).

Lemma insert_sorted_HdRel a x l :
  not_after lt a x → HdRel (not_after lt) a l →
  HdRel (not_after lt) a (insert_sorted lt x l).
Proof.
  intros Hax Hal. destruct l as [|y l]; simpl; [by constructor|].
  inversion_clear Hal. destruct (lt y x); by constructor.
Qed.

Lemma insert_sorted_Sorted x l :
  Sorted (not_after lt) l → Sorted (not_after lt) (insert_sorted lt x l).
Proof.
  induction 1 as [|y l Hs IH Hhd]; simpl; [by repeat constructor|].
  destruct (lt y x) eqn:Hyx.
  - constructor; [done|]. apply insert_sorted_HdRel; [|done].
    unfold not_after. by apply lt_asym.
  - constructor; [by constructor|]. by constructor.
Qed.

Lemma sorted_Sorted l : Sorted (not_after lt) (sorted lt l).
Proof.
  induction l as [|x l IH]; simpl; [constructor|]. by apply insert_sorted_Sorted.
Qed.

(** When no two different elements tie, a list has one sorted form. *)
Lemma sorted_unique `{!AntiSymm (=) (not_after lt)} l1 l2 :
  l1 ≡ₚ l2 → sorted lt l1 = sorted lt l2.
Proof.
  intros Hperm. apply (Sorted_unique (not_after lt)); try apply sorted_Sorted.
  by rewrite !sorted_Permutation.
Qed.
End sorted_facts.

Lemma string_ltb_le (x y : string) : String.ltb y x = false ↔ String.le x y.
Proof.
  unfold String.le, String.ltb, String.leb.
  rewrite (String.compare_antisym x y).
  destruct (String.compare y x); simpl; naive_solver.
Qed.

Lemma string_ltb_asym (x y : string) :
  String.ltb x y = true → String.ltb y x = false.
Proof.
  unfold String.ltb. rewrite (String.compare_antisym x y).
  by destruct (String.compare y x).
Qed.

Global Instance string_not_after_trans : Transitive (not_after String.ltb).
Proof.
  intros x y z. unfold not_after. rewrite !string_ltb_le. apply transitivity.
Qed.

Global Instance string_not_after_antisym : AntiSymm (=) (not_after String.ltb).
Proof.
  intros x y. unfold not_after. rewrite !string_ltb_le. apply anti_symm, _.
Qed.

(** [sorted] of a list of strings is in ascending order and does not depend
    on the order the strings came in. *)
Lemma sorted_str_Sorted l : Sorted String.le (sorted_str l).
Proof.
  pose proof (sorted_Sorted String.ltb string_ltb_asym l) as Hs.
  fold sorted_str in Hs. induction Hs as [|x l' Hs IH Hhd]; constructor; [done|].
  destruct Hhd; constructor. by apply string_ltb_le.
Qed.

Lemma sorted_str_unique l1 l2 : l1 ≡ₚ l2 → sorted_str l1 = sorted_str l2.
Proof.
  intros Hperm. unfold sorted_str.
  by apply (sorted_unique String.ltb string_ltb_asym _).
Qed.

(** ** Matching by lower-cased name *)

Lemma omap_PStr (l : list string) :
  omap (fun v => match v with PStr s => Some s | _ => None end) (PStr <$> l) = l.
Proof. induction l as [|x l IH]; [done|]. simpl. f_equal. exact IH. Qed.

Lemma report_strings_of_list key (d : pydict) (l : list string) :
  dict_get (KStr key) d = Some (PList (PStr <$> l)) →
  report_strings key (PDict d) = l.
Proof. intros Hd. unfold report_strings. rewrite Hd. apply omap_PStr. Qed.

Lemma fmap_PStr_nil (l : list string) :
  truthy (PList (PStr <$> l)) = false → l = [].
Proof. by destruct l. Qed.

Lemma truthy_PDict_nil (d : pydict) : truthy (PDict d) = false → d = [].
Proof. by destruct d. Qed.

(** The shape in which [compare_properties] and [compare_io] hand back
    their three collections: a dict when one of them is not empty, [None]
    otherwise.  Either way the report reads back as the collections. *)
Lemma differences_report (new removed : list string) (modified : pydict) :
  let report :=
    if truthy (PList (PStr <$> new)) || truthy (PList (PStr <$> removed))
       || truthy (PDict modified)
    then PDict [(KStr "new", PList (PStr <$> new));
                (KStr "removed", PList (PStr <$> removed));
                (KStr "modified", PDict modified)]
    else PNone in
  report_strings "new" report = new
  ∧ report_strings "removed" report = removed
  ∧ report_keys "modified" report = dict_keys modified.
Proof.
  cbv zeta.
  destruct (truthy (PList (PStr <$> new)) || truthy (PList (PStr <$> removed))
            || truthy (PDict modified)) eqn:Hc.
  - split; [by apply report_strings_of_list|].
    split; [by apply report_strings_of_list|done].
  - apply orb_false_elim in Hc as [Hc Hm]. apply orb_false_elim in Hc as [Hn Hr].
    apply fmap_PStr_nil in Hn, Hr. apply truthy_PDict_nil in Hm. by subst.
Qed.

Lemma named_in_dom {X : Type} (name : X → string) (xs : list X) key :
  named_in name xs key ↔ key ∈ dom (dict_of (fun x => lower (name x)) xs).
Proof. unfold named_in. by rewrite dom_dict_of, elem_of_set_of. Qed.

Lemma named_in_set {X : Type} (name : X → string) (xs : list X) key :
  named_in name xs key
  ↔ key ∈ (set_of (fun x => lower (name x)) xs : gset string).
Proof. unfold named_in. by rewrite elem_of_set_of. Qed.

(** A report whose two lists enumerate the one-sided names and whose
    modified keys come from pairs with one lower-cased name obeys
    [matched_by_lower_name]. *)
Lemma matched_by_lower_name_intro {X : Type} (name : X → string)
    (css csgo : list X) (new_key removed_key modified_key : string)
    (report : pyval) :
  (∀ key, key ∈ report_strings new_key report
          ↔ named_in name csgo key ∧ ¬ named_in name css key) →
  (∀ key, key ∈ report_strings removed_key report
          ↔ named_in name css key ∧ ¬ named_in name csgo key) →
  (∀ k, k ∈ report_keys modified_key report →
     ∃ css_item csgo_item,
       css_item ∈ css ∧ csgo_item ∈ csgo
       ∧ lower (name css_item) = lower (name csgo_item)
       ∧ k = KStr (name csgo_item)) →
  matched_by_lower_name name css csgo new_key removed_key modified_key report.
Proof.
  intros Hnew Hremoved Hmodified. split; [done|]. split; [done|].
  split; [|done]. intros css_item csgo_item Hcss Hcsgo Hsame. split.
  - rewrite Hnew. intros [_ Hnot]. apply Hnot. by exists css_item.
  - rewrite Hremoved. intros [_ Hnot]. apply Hnot. by exists csgo_item.
Qed.

Section matching.
Context (it : iteration) (Hit : iteration_ok it).
Context {X : Type} (name : X → string) (compare_item : X → X → pyval).
Context (css csgo : list X).

Let css_dict := dict_of (fun x => lower (name x)) css.
Let csgo_dict := dict_of (fun x => lower (name x)) csgo.

Lemma only_csgo_names key :
  key ∈ iter_str it (dom csgo_dict ∖ dom css_dict)
  ↔ named_in name csgo key ∧ ¬ named_in name css key.
Proof.
  rewrite (elem_of_iter_str it Hit), elem_of_difference.
  by rewrite !named_in_dom.
Qed.

Lemma only_css_names key :
  key ∈ iter_str it (dom css_dict ∖ dom csgo_dict)
  ↔ named_in name css key ∧ ¬ named_in name csgo key.
Proof.
  rewrite (elem_of_iter_str it Hit), elem_of_difference.
  by rewrite !named_in_dom.
Qed.

Lemma modified_items_names k :
  k ∈ dict_keys (modified_items it name compare_item css_dict csgo_dict) →
  ∃ css_item csgo_item,
    css_item ∈ css ∧ csgo_item ∈ csgo
    ∧ lower (name css_item) = lower (name csgo_item)
    ∧ k = KStr (name csgo_item).
Proof.
  intros Hk.
  destruct (modified_items_keys _ _ _ _ _ _ Hk)
    as (key & css_item & csgo_item & _ & Hcss & Hcsgo & _ & ->).
  apply dict_of_lookup_Some in Hcss as [? ?].
  apply dict_of_lookup_Some in Hcsgo as [? ?].
  exists css_item, csgo_item. repeat split; try done. congruence.
Qed.
End matching.

Lemma fgd_compare_properties_matched it css csgo :
  iteration_ok it →
  matched_by_lower_name prop_name css csgo "new" "removed" "modified"
    (FgdComparator.compare_properties it css csgo).
Proof.
  intros Hit. unfold FgdComparator.compare_properties. cbv zeta.
  match goal with
  | |- context [modified_items ?i ?n ?c ?d1 ?d2] =>
      destruct (differences_report
                  (sorted_str (iter_str it (dom d2 ∖ dom d1)))
                  (sorted_str (iter_str it (dom d1 ∖ dom d2)))
                  (modified_items i n c d1 d2)) as (Hn & Hr & Hm)
  end.
  apply matched_by_lower_name_intro.
  - intros key. rewrite Hn. unfold sorted_str. rewrite elem_of_sorted.
    by apply only_csgo_names.
  - intros key. rewrite Hr. unfold sorted_str. rewrite elem_of_sorted.
    by apply only_css_names.
  - intros k. rewrite Hm. apply modified_items_names.
Qed.

Lemma csgo_compare_properties_matched it css csgo :
  iteration_ok it →
  matched_by_lower_name prop_name css csgo "new" "removed" "modified"
    (CsgoToCss.compare_properties it css csgo).
Proof.
  intros Hit.
  assert (matched_by_lower_name prop_name css csgo "new" "removed" "modified"
            (let css_prop_dict := dict_of (fun prop => lower (prop_name prop)) css in
             let csgo_prop_dict := dict_of (fun prop => lower (prop_name prop)) csgo in
             let new := iter_str it (dom csgo_prop_dict ∖ dom css_prop_dict) in
             let removed := iter_str it (dom css_prop_dict ∖ dom csgo_prop_dict) in
             let modified :=
               modified_items it prop_name CsgoToCss.compare_property
                 css_prop_dict csgo_prop_dict in
             if truthy (PList (PStr <$> new)) || truthy (PList (PStr <$> removed))
                || truthy (PDict modified)
             then PDict [(KStr "new", PList (PStr <$> new));
                         (KStr "removed", PList (PStr <$> removed));
                         (KStr "modified", PDict modified)]
             else PNone)) as Hgeneral.
  { cbv zeta.
    match goal with
    | |- context [modified_items ?i ?n ?c ?d1 ?d2] =>
        destruct (differences_report
                    (iter_str it (dom d2 ∖ dom d1))
                    (iter_str it (dom d1 ∖ dom d2))
                    (modified_items i n c d1 d2)) as (Hn & Hr & Hm)
    end.
    apply matched_by_lower_name_intro.
    - intros key. rewrite Hn. by apply only_csgo_names.
    - intros key. rewrite Hr. by apply only_css_names.
    - intros k. rewrite Hm. apply modified_items_names. }
  unfold CsgoToCss.compare_properties.
  destruct css as [|p css']; [destruct csgo as [|q csgo']|]; try exact Hgeneral.
  apply matched_by_lower_name_intro; simpl.
  - intros key. split; [by intros ?%elem_of_nil|].
    intros [(x & Hx%elem_of_nil & _) _]. done.
  - intros key. split; [by intros ?%elem_of_nil|].
    intros [(x & Hx%elem_of_nil & _) _]. done.
  - by intros k ?%elem_of_nil.
Qed.

Lemma fgd_compare_io_matched it css csgo io_type :
  iteration_ok it →
  matched_by_lower_name io_name css csgo "new" "removed" "modified"
    (FgdComparator.compare_io it css csgo io_type).
Proof.
  intros Hit. unfold FgdComparator.compare_io. cbv zeta.
  match goal with
  | |- context [modified_items ?i ?n ?c ?d1 ?d2] =>
      destruct (differences_report
                  (sorted_str (iter_str it (dom d2 ∖ dom d1)))
                  (sorted_str (iter_str it (dom d1 ∖ dom d2)))
                  (modified_items i n c d1 d2)) as (Hn & Hr & Hm)
  end.
  unfold py_any, dict_values. cbn [fmap list_fmap snd existsb].
  rewrite orb_false_r, orb_assoc.
  apply matched_by_lower_name_intro.
  - intros key. rewrite Hn. unfold sorted_str. rewrite elem_of_sorted.
    by apply only_csgo_names.
  - intros key. rewrite Hr. unfold sorted_str. rewrite elem_of_sorted.
    by apply only_css_names.
  - intros k. rewrite Hm. apply modified_items_names.
Qed.

Lemma csgo_compare_io_matched it css csgo :
  iteration_ok it →
  matched_by_lower_name io_name css csgo "new" "removed" "modified"
    (CsgoToCss.compare_io it css csgo).
Proof.
  intros Hit. unfold CsgoToCss.compare_io. cbv zeta.
  match goal with
  | |- context [modified_items ?i ?n ?c ?d1 ?d2] =>
      destruct (differences_report
                  (iter_str it (dom d2 ∖ dom d1))
                  (iter_str it (dom d1 ∖ dom d2))
                  (modified_items i n c d1 d2)) as (Hn & Hr & Hm)
  end.
  apply matched_by_lower_name_intro.
  - intros key. rewrite Hn. by apply only_csgo_names.
  - intros key. rewrite Hr. by apply only_css_names.
  - intros k. rewrite Hm. apply modified_items_names.
Qed.

Lemma next_entities_named fgd entity_name e :
  next (entities_named fgd entity_name) = Ok e →
  e ∈ entities fgd ∧ lower (ent_name e) = entity_name.
Proof.
  unfold next. destruct (entities_named fgd entity_name) as [|e' l] eqn:Hl; [done|].
  intros [= ->].
  assert (e ∈ entities_named fgd entity_name) as Hin by (rewrite Hl; set_solver).
  by apply list_elem_of_filter in Hin as [? ?].
Qed.

Lemma fgd_modified_entities_keys it css_fgd csgo_fgd names acc modified :
  for_each (FgdComparator.modified_entities_step it css_fgd csgo_fgd) acc names
  = Ok modified →
  ∀ k, k ∈ dict_keys modified →
    k ∈ dict_keys acc
    ∨ ∃ css_entity csgo_entity,
        css_entity ∈ entities css_fgd ∧ csgo_entity ∈ entities csgo_fgd
        ∧ lower (ent_name css_entity) = lower (ent_name csgo_entity)
        ∧ k = KStr (ent_name csgo_entity).
Proof.
  revert acc. induction names as [|name names IH]; intros acc.
  - intros [= ->] k Hk. by left.
  - cbn [for_each].
    destruct (FgdComparator.modified_entities_step it css_fgd csgo_fgd acc name)
      as [acc'|e] eqn:Hstep; [|done].
    simpl. intros Hrest k Hk.
    destruct (IH acc' Hrest k Hk) as [Hacc'|Hfound]; [|by right].
    unfold FgdComparator.modified_entities_step in Hstep.
    destruct (next (entities_named css_fgd name)) as [css_entity|] eqn:Hcss;
      [|done].
    destruct (next (entities_named csgo_fgd name)) as [csgo_entity|] eqn:Hcsgo;
      [|done].
    simpl in Hstep.
    destruct (FgdComparator.compare_entity it css_entity csgo_entity)
      as [entity_diff|]; [|done].
    simpl in Hstep. injection Hstep as <-.
    destruct (match entity_diff with [] => false | _ => true end); [|by left].
    apply dict_keys_dict_set in Hacc' as [->|Hacc]; [|by left].
    right. exists css_entity, csgo_entity.
    apply next_entities_named in Hcss as [? ?].
    apply next_entities_named in Hcsgo as [? ?].
    repeat split; try done. congruence.
Qed.

Lemma csgo_modified_entities_keys it css_fgd csgo_fgd names acc printed modified :
  CsgoToCss.modified_entities_loop it css_fgd csgo_fgd acc names
  = (printed, Ok modified) →
  ∀ k, k ∈ dict_keys modified →
    k ∈ dict_keys acc
    ∨ ∃ css_entity csgo_entity,
        css_entity ∈ entities css_fgd ∧ csgo_entity ∈ entities csgo_fgd
        ∧ lower (ent_name css_entity) = lower (ent_name csgo_entity)
        ∧ k = KStr (ent_name csgo_entity).
Proof.
  revert acc printed. induction names as [|name names IH]; intros acc printed.
  - intros [= _ ->] k Hk. by left.
  - cbn [CsgoToCss.modified_entities_loop].
    destruct (next (entities_named css_fgd name)) as [css_entity|] eqn:Hcss;
      [|done].
    destruct (next (entities_named csgo_fgd name)) as [csgo_entity|] eqn:Hcsgo;
      [|done].
    destruct (CsgoToCss.compare_entity it css_entity csgo_entity)
      as [printed1 entity_diff].
    destruct (CsgoToCss.modified_entities_loop it css_fgd csgo_fgd _ names)
      as [printed2 r] eqn:Hrest.
    intros [= _ ->] k Hk.
    destruct (IH _ _ Hrest k Hk) as [Hacc'|Hfound]; [|by right].
    destruct (truthy (PDict entity_diff)); [|by left].
    apply dict_keys_dict_set in Hacc' as [->|Hacc]; [|by left].
    right. exists css_entity, csgo_entity.
    apply next_entities_named in Hcss as [? ?].
    apply next_entities_named in Hcsgo as [? ?].
    repeat split; try done. congruence.
Qed.

Lemma fgd_compare_fgds_matched it now css_fgd csgo_fgd report :
  iteration_ok it →
  FgdComparator.compare_fgds it now css_fgd csgo_fgd = Ok report →
  matched_by_lower_name ent_name (entities css_fgd) (entities csgo_fgd)
    "new_entities" "removed_entities" "modified_entities" report.
Proof.
  intros Hit. unfold FgdComparator.compare_fgds. cbv zeta.
  destruct (for_each (FgdComparator.modified_entities_step it css_fgd csgo_fgd) _ _)
    as [modified|] eqn:Hmodified; [|done].
  simpl.
  destruct (for_each (FgdComparator.porting_issues_step it css_fgd csgo_fgd) _ _)
    as [issues|]; [|done].
  simpl. intros [= <-].
  apply matched_by_lower_name_intro.
  - intros key. erewrite report_strings_of_list by reflexivity.
    unfold sorted_str. rewrite elem_of_sorted, (elem_of_iter_str it Hit).
    by rewrite elem_of_difference, !named_in_set.
  - intros key. erewrite report_strings_of_list by reflexivity.
    unfold sorted_str. rewrite elem_of_sorted, (elem_of_iter_str it Hit).
    by rewrite elem_of_difference, !named_in_set.
  - intros k Hk.
    destruct (fgd_modified_entities_keys _ _ _ _ _ _ Hmodified k Hk)
      as [Hnil|Hfound]; [|done].
    by apply elem_of_nil in Hnil.
Qed.

Lemma csgo_compare_fgds_matched it css_fgd csgo_fgd printed report :
  iteration_ok it →
  CsgoToCss.compare_fgds it css_fgd csgo_fgd = (printed, Ok report) →
  matched_by_lower_name ent_name (entities css_fgd) (entities csgo_fgd)
    "new_entities" "removed_entities" "modified_entities" report.
Proof.
  intros Hit. unfold CsgoToCss.compare_fgds. cbv zeta.
  destruct (CsgoToCss.modified_entities_loop it css_fgd csgo_fgd _ _)
    as [printed' [modified|]] eqn:Hmodified; [|done].
  simpl. intros [= _ <-].
  apply matched_by_lower_name_intro.
  - intros key. erewrite report_strings_of_list by reflexivity.
    rewrite (elem_of_iter_str it Hit).
    by rewrite elem_of_difference, !named_in_set.
  - intros key. erewrite report_strings_of_list by reflexivity.
    rewrite (elem_of_iter_str it Hit).
    by rewrite elem_of_difference, !named_in_set.
  - intros k Hk.
    destruct (csgo_modified_entities_keys _ _ _ _ _ _ _ Hmodified k Hk)
      as [Hnil|Hfound]; [|done].
    by apply elem_of_nil in Hnil.
Qed.

(** C4, as the code has it.  Entities, properties and io signals are matched
    by their lower-cased names, which are not trimmed: in both scripts a
    report lists as new (removed) exactly the lower-cased names that occur on
    the CS:GO (CS:S) side only, so two names that differ only in case are one
    item with no name-level difference, and every key of [modified_entities]
    and of a per-item [modified] dict is the name of the CS:GO item in its
    original spelling.  The new and removed lists hold the lower-cased
    names. *)
Theorem names_matched_by_lower_case (it : iteration) :
  iteration_ok it →
  (∀ now css_fgd csgo_fgd report,
     FgdComparator.compare_fgds it now css_fgd csgo_fgd = Ok report →
     matched_by_lower_name ent_name (entities css_fgd) (entities csgo_fgd)
       "new_entities" "removed_entities" "modified_entities" report)
  ∧ (∀ css_fgd csgo_fgd printed report,
       CsgoToCss.compare_fgds it css_fgd csgo_fgd = (printed, Ok report) →
       matched_by_lower_name ent_name (entities css_fgd) (entities csgo_fgd)
         "new_entities" "removed_entities" "modified_entities" report)
  ∧ (∀ css_props csgo_props,
       matched_by_lower_name prop_name css_props csgo_props
         "new" "removed" "modified"
         (FgdComparator.compare_properties it css_props csgo_props))
  ∧ (∀ css_props csgo_props,
       matched_by_lower_name prop_name css_props csgo_props
         "new" "removed" "modified"
         (CsgoToCss.compare_properties it css_props csgo_props))
  ∧ (∀ css_io csgo_io io_type,
       matched_by_lower_name io_name css_io csgo_io "new" "removed" "modified"
         (FgdComparator.compare_io it css_io csgo_io io_type))
  ∧ (∀ css_io csgo_io,
       matched_by_lower_name io_name css_io csgo_io "new" "removed" "modified"
         (CsgoToCss.compare_io it css_io csgo_io)).
Proof.
  intros Hit. split.
  { intros now css_fgd csgo_fgd report. by apply fgd_compare_fgds_matched. }
  split.
  { intros css_fgd csgo_fgd printed report. by apply csgo_compare_fgds_matched. }
  split.
  { intros css_props csgo_props. by apply fgd_compare_properties_matched. }
  split.
  { intros css_props csgo_props. by apply csgo_compare_properties_matched. }
  split.
  { intros css_io csgo_io io_type. by apply fgd_compare_io_matched. }
  intros css_io csgo_io. by apply csgo_compare_io_matched.
Qed.

Lemma names_matched_by_lower_case_witness :
  iteration_ok ascending
  ∧ ∃ report,
      FgdComparator.compare_fgds ascending "2024-01-01T00:00:00"
        (sample_fgd [door_css]) (sample_fgd [door_csgo]) = Ok report
      ∧ matched_by_lower_name ent_name [door_css] [door_csgo]
          "new_entities" "removed_entities" "modified_entities" report.
Proof.
  split; [exact ascending_ok|].
  eexists. split; [vm_compute; reflexivity|].
  apply (proj1 (names_matched_by_lower_case ascending ascending_ok)
           "2024-01-01T00:00:00" (sample_fgd [door_css]) (sample_fgd [door_csgo])).
  vm_compute; reflexivity.
Defined.

(** C4 does not hold as stated: a new entity spelled [Func_Door] is reported
    as [func_door], so the report has lost its casing, and a name with a
    leading blank is not matched with the same name without it. *)
Lemma reported_names_lose_casing :
  ent_name door_csgo = "Func_Door"
  ∧ FgdComparator.compare_fgds ascending "2024-01-01T00:00:00"
      (sample_fgd []) (sample_fgd [door_csgo])
    = Ok (PDict
            [(KStr "metadata",
              PDict [(KStr "css_version", PStr "Counter-Strike: Source");
                     (KStr "csgo_version", PStr "Counter-Strike: Global Offensive");
                     (KStr "comparison_date", PStr "2024-01-01T00:00:00")]);
             (KStr "new_entities", PList [PStr "func_door"]);
             (KStr "removed_entities", PList []);
             (KStr "modified_entities", PDict []);
             (KStr "backward_porting_issues",
              PList [FgdComparator.new_entity_issue "func_door"])])
  ∧ CsgoToCss.compare_fgds ascending padded_css_fgd padded_csgo_fgd
    = ([],
       Ok (PDict
             [(KStr "new_entities", PList [PStr " door"]);
              (KStr "removed_entities", PList [PStr "door"]);
              (KStr "modified_entities", PDict []);
              (KStr "editor_data_changes",
               PDict [(KStr "new", PList []); (KStr "removed", PList []);
                      (KStr "modified", PDict [])])])).
Proof. repeat split; vm_compute; reflexivity. Qed.

(** ** The order in which [csgo_to_css_comparison.py] sorts definitions *)

Lemma string_ltb_irrefl (x : string) : String.ltb x x = false.
Proof. by apply string_ltb_le. Qed.

Lemma list_str_lt_asym (a b : list string) :
  CsgoToCss.list_str_lt a b = true → CsgoToCss.list_str_lt b a = false.
Proof.
  revert b. induction a as [|x a IH]; intros [|y b]; simpl; try done.
  destruct (decide (x = y)) as [->|Hne].
  - rewrite !bool_decide_eq_true_2 by done. apply IH.
  - rewrite !bool_decide_eq_false_2 by done. apply string_ltb_asym.
Qed.

Global Instance list_str_not_after_antisym :
  AntiSymm (=) (not_after CsgoToCss.list_str_lt).
Proof.
  unfold not_after. intros a. induction a as [|x a IH]; intros [|y b]; simpl;
    try done.
  destruct (decide (x = y)) as [->|Hne].
  - rewrite !bool_decide_eq_true_2 by done. intros H1 H2. f_equal. by apply IH.
  - rewrite !bool_decide_eq_false_2 by done. intros H1 H2. destruct Hne.
    by apply (anti_symm (not_after String.ltb)).
Qed.

Global Instance list_str_not_after_trans :
  Transitive (not_after CsgoToCss.list_str_lt).
Proof.
  unfold not_after. intros a. induction a as [|x a IH]; intros [|y b] [|z c];
    simpl; try done.
  destruct (decide (y = x)) as [Hyx|Hyx], (decide (z = y)) as [Hzy|Hzy].
  - subst. rewrite !bool_decide_eq_true_2 by done. apply IH.
  - subst. rewrite (bool_decide_eq_true_2 (x = x)) by done.
    rewrite (bool_decide_eq_false_2 (z = x)) by done. by intros _.
  - subst. rewrite (bool_decide_eq_true_2 (y = y)) by done.
    rewrite (bool_decide_eq_false_2 (y = x)) by done. by intros ? _.
  - rewrite (bool_decide_eq_false_2 (y = x)), (bool_decide_eq_false_2 (z = y))
      by done.
    intros H1 H2.
    assert (not_after String.ltb x z) as Hxz by (by etrans).
    destruct (decide (z = x)) as [->|Hzx].
    + destruct Hyx. by apply (anti_symm (not_after String.ltb)).
    + by rewrite bool_decide_eq_false_2.
Qed.

Lemma definition_lt_asym (d1 d2 : FgdDefinition) :
  CsgoToCss.definition_lt d1 d2 = true → CsgoToCss.definition_lt d2 d1 = false.
Proof.
  unfold CsgoToCss.definition_lt.
  destruct (decide (def_args d1 = def_args d2)) as [Heq|Hne].
  - rewrite !bool_decide_eq_true_2 by done. apply string_ltb_asym.
  - rewrite !bool_decide_eq_false_2 by done. apply list_str_lt_asym.
Qed.

Global Instance definition_not_after_antisym :
  AntiSymm (=) (not_after CsgoToCss.definition_lt).
Proof.
  unfold not_after, CsgoToCss.definition_lt. intros d1 d2.
  destruct (decide (def_args d1 = def_args d2)) as [Heq|Hne].
  - rewrite !bool_decide_eq_true_2 by done. intros H1 H2.
    assert (def_name d1 = def_name d2)
      by by apply (anti_symm (not_after String.ltb)).
    destruct d1, d2; simpl in *; congruence.
  - rewrite !bool_decide_eq_false_2 by done. intros H1 H2. destruct Hne.
    by apply (anti_symm (not_after CsgoToCss.list_str_lt)).
Qed.

Global Instance definition_not_after_trans :
  Transitive (not_after CsgoToCss.definition_lt).
Proof.
  unfold not_after, CsgoToCss.definition_lt. intros d1 d2 d3.
  destruct (decide (def_args d2 = def_args d1)) as [H21|H21],
           (decide (def_args d3 = def_args d2)) as [H32|H32].
  - rewrite (bool_decide_eq_true_2 (def_args d2 = def_args d1)),
      (bool_decide_eq_true_2 (def_args d3 = def_args d2)),
      (bool_decide_eq_true_2 (def_args d3 = def_args d1)) by congruence.
    apply (transitivity (R := not_after String.ltb)).
  - rewrite (bool_decide_eq_true_2 (def_args d2 = def_args d1)),
      (bool_decide_eq_false_2 (def_args d3 = def_args d2)),
      (bool_decide_eq_false_2 (def_args d3 = def_args d1)) by congruence.
    intros _. by rewrite <- H21.
  - rewrite (bool_decide_eq_false_2 (def_args d2 = def_args d1)),
      (bool_decide_eq_true_2 (def_args d3 = def_args d2)),
      (bool_decide_eq_false_2 (def_args d3 = def_args d1)) by congruence.
    intros ? _. by rewrite H32.
  - rewrite (bool_decide_eq_false_2 (def_args d2 = def_args d1)),
      (bool_decide_eq_false_2 (def_args d3 = def_args d2)) by done.
    intros H1 H2.
    assert (not_after CsgoToCss.list_str_lt (def_args d1) (def_args d3)) as H13
      by (by etrans).
    destruct (decide (def_args d3 = def_args d1)) as [H31|H31].
    + destruct H21. apply (anti_symm (not_after CsgoToCss.list_str_lt)).
      * unfold not_after. by rewrite <- H31.
      * exact H1.
    + by rewrite bool_decide_eq_false_2.
Qed.

(** Two lists of definitions have the same sorted form exactly when they
    hold the same clauses the same number of times. *)
Lemma sorted_definitions_Permutation (defs1 defs2 : list FgdDefinition) :
  sorted CsgoToCss.definition_lt defs1 = sorted CsgoToCss.definition_lt defs2
  ↔ defs1 ≡ₚ defs2.
Proof.
  split.
  - intros Heq. rewrite <- (sorted_Permutation CsgoToCss.definition_lt defs1).
    rewrite Heq. apply sorted_Permutation.
  - by apply (sorted_unique CsgoToCss.definition_lt definition_lt_asym _).
Qed.

(** ** Definitions *)

Lemma dict_get_cond_set (k k' : pykey) (c : bool) v (d : pydict) :
  k' ≠ k → dict_get k (if c then dict_set k' v d else d) = dict_get k d.
Proof.
  intros Hne. destruct c; [|done]. rewrite dict_get_dict_set.
  by destruct (decide (k' = k)).
Qed.

Lemma csgo_compare_entity_definitions it css_entity csgo_entity :
  dict_get (KStr "definitions")
    (CsgoToCss.compare_entity it css_entity csgo_entity).2
  = if bool_decide
         (sorted CsgoToCss.definition_lt (ent_definitions css_entity)
          ≠ sorted CsgoToCss.definition_lt (ent_definitions csgo_entity))
    then Some (css_csgo
                 (PList (definition_py <$>
                           sorted CsgoToCss.definition_lt
                             (ent_definitions css_entity)))
                 (PList (definition_py <$>
                           sorted CsgoToCss.definition_lt
                             (ent_definitions csgo_entity))))
    else None.
Proof.
  unfold CsgoToCss.compare_entity.
  destruct (CsgoToCss.compare_spawnflags it _ _) as [printed spawnflag_diff].
  cbn [snd]. rewrite !dict_get_cond_set by done.
  destruct (bool_decide (sorted _ _ ≠ sorted _ _)).
  - rewrite dict_get_dict_set. by destruct (decide _).
  - by rewrite !dict_get_cond_set by done.
Qed.

(** X19.  How each script compares the definition clauses of two
    entities.  [fgdcomparator.py] looks at the [base] clauses only and
    compares them as lists: it reports a difference exactly when the two
    lists of base clauses differ, in which case the bases found on one side
    only are recorded as added and as removed; a clause that is not a base
    clause has no influence.  [csgo_to_css_comparison.py] compares all
    clauses, base or not, as a multiset: the entry [definitions] is present
    exactly when the two lists of clauses are not permutations of each
    other, and it holds the two sorted lists, with no added or removed
    lists. *)
Theorem definitions_compared_per_script (it : iteration) :
  (∀ css_defs csgo_defs,
     let css_bases := filter (fun d => FgdComparator.is_base d) css_defs in
     let csgo_bases := filter (fun d => FgdComparator.is_base d) csgo_defs in
     (css_bases = csgo_bases →
      FgdComparator.compare_definitions css_defs csgo_defs = PNone)
     ∧ (css_bases ≠ csgo_bases →
        FgdComparator.compare_definitions css_defs csgo_defs
        = PDict
            [(KStr "css", PList (definition_py <$> css_bases));
             (KStr "csgo", PList (definition_py <$> csgo_bases));
             (KStr "changes",
              PDict
                [(KStr "added",
                  PList (definition_py <$>
                           filter (fun b => b ∉ css_bases) csgo_bases));
                 (KStr "removed",
                  PList (definition_py <$>
                           filter (fun b => b ∉ csgo_bases) css_bases))])]))
  ∧ (∀ css_defs csgo_defs d,
       FgdComparator.is_base d = false →
       FgdComparator.compare_definitions (d :: css_defs) csgo_defs
       = FgdComparator.compare_definitions css_defs csgo_defs
       ∧ FgdComparator.compare_definitions css_defs (d :: csgo_defs)
         = FgdComparator.compare_definitions css_defs csgo_defs)
  ∧ (∀ css_entity csgo_entity,
       (ent_definitions css_entity ≡ₚ ent_definitions csgo_entity →
        dict_get (KStr "definitions")
          (CsgoToCss.compare_entity it css_entity csgo_entity).2 = None)
       ∧ (¬ ent_definitions css_entity ≡ₚ ent_definitions csgo_entity →
          dict_get (KStr "definitions")
            (CsgoToCss.compare_entity it css_entity csgo_entity).2
          = Some (css_csgo
                    (PList (definition_py <$>
                              sorted CsgoToCss.definition_lt
                                (ent_definitions css_entity)))
                    (PList (definition_py <$>
                              sorted CsgoToCss.definition_lt
                                (ent_definitions csgo_entity)))))).
Proof.
  split; [|split].
  - intros css_defs csgo_defs css_bases csgo_bases.
    unfold FgdComparator.compare_definitions. fold css_bases csgo_bases. split.
    + intros Heq. by rewrite bool_decide_eq_false_2 by (intros Hne; by apply Hne).
    + intros Hne. by rewrite bool_decide_eq_true_2.
  - intros css_defs csgo_defs d Hd. unfold FgdComparator.compare_definitions.
    rewrite !filter_cons. rewrite Hd. by destruct (decide (Is_true false)).
  - intros css_entity csgo_entity. rewrite csgo_compare_entity_definitions.
    split; intros Hperm.
    + apply sorted_definitions_Permutation in Hperm.
      by rewrite bool_decide_eq_false_2 by (intros Hne; by apply Hne).
    + rewrite bool_decide_eq_true_2; [done|].
      intros Heq. by apply Hperm, sorted_definitions_Permutation.
Qed.

Lemma definitions_compared_per_script_witness :
  filter (fun d => FgdComparator.is_base d) (size_clause :: two_bases)
  = filter (fun d => FgdComparator.is_base d) two_bases
  ∧ FgdComparator.compare_definitions (size_clause :: two_bases) two_bases = PNone
  ∧ ent_definitions (sample_entity "door" two_bases [] [])
    ≡ₚ ent_definitions (sample_entity "door" two_bases_swapped [] [])
  ∧ dict_get (KStr "definitions")
      (CsgoToCss.compare_entity ascending
         (sample_entity "door" two_bases [] [])
         (sample_entity "door" two_bases_swapped [] [])).2 = None.
Proof.
  assert (filter (fun d => FgdComparator.is_base d) (size_clause :: two_bases)
          = filter (fun d => FgdComparator.is_base d) two_bases) as Hbases
    by (vm_compute; reflexivity).
  assert (ent_definitions (sample_entity "door" two_bases [] [])
          ≡ₚ ent_definitions (sample_entity "door" two_bases_swapped [] []))
    as Hperm by apply Permutation_swap.
  split; [exact Hbases|]. split.
  - exact (proj1 (proj1 (definitions_compared_per_script ascending)
                    (size_clause :: two_bases) two_bases) Hbases).
  - split; [exact Hperm|].
    exact (proj1 (proj2 (proj2 (definitions_compared_per_script ascending))
                    (sample_entity "door" two_bases [] [])
                    (sample_entity "door" two_bases_swapped [] [])) Hperm).
Defined.

(** C5.  The base clauses are not compared as a set by
    [fgdcomparator.py]: [compare_definitions] tests the two lists of base
    clauses with [!=], so two entities with the same bases in another order
    are reported as differing, with nothing added and nothing removed.  The
    other script sorts the clauses first and reports nothing for the same
    pair of entities.  A clause that is not a base clause is never looked at
    by [fgdcomparator.py]: an entity that gains a [size] clause is reported
    as unchanged, where the other script reports the two lists. *)
Theorem fgdcomparator_bases_compared_in_order :
  two_bases ≡ₚ two_bases_swapped
  ∧ FgdComparator.compare_definitions two_bases two_bases_swapped
    = PDict
        [(KStr "css", PList (definition_py <$> two_bases));
         (KStr "csgo", PList (definition_py <$> two_bases_swapped));
         (KStr "changes",
          PDict [(KStr "added", PList []); (KStr "removed", PList [])])]
  ∧ dict_get (KStr "definitions")
      (CsgoToCss.compare_entity ascending
         (sample_entity "door" two_bases [] [])
         (sample_entity "door" two_bases_swapped [] [])).2 = None
  ∧ FgdComparator.compare_definitions two_bases (size_clause :: two_bases)
    = PNone
  ∧ dict_get (KStr "definitions")
      (CsgoToCss.compare_entity ascending
         (sample_entity "door" two_bases [] [])
         (sample_entity "door" (size_clause :: two_bases) [] [])).2
    = Some (css_csgo
              (PList (definition_py
                        <$> sorted CsgoToCss.definition_lt two_bases))
              (PList (definition_py
                        <$> sorted CsgoToCss.definition_lt
                              (size_clause :: two_bases)))).
Proof.
  split; [apply Permutation_swap|].
  repeat split; vm_compute; reflexivity.
Qed.

(** ** Duplicate keys are resolved silently *)

Lemma dict_of_overwritten_eq `{Countable K} {X : Type} (key : X → K) xs xs' :
  overwritten key xs xs' → dict_of key xs = dict_of key xs'.
Proof. intros [l1 p l2 q Hq Hk]. apply dict_of_overwritten. by exists q. Qed.

Lemma overwritten_not_nil {X K : Type} (key : X → K) xs xs' :
  overwritten key xs xs' → xs ≠ [] ∧ xs' ≠ [].
Proof.
  intros [l1 p l2 q Hq Hk]. split.
  - by destruct l1.
  - destruct l2; [by apply elem_of_nil in Hq|]. by destruct l1.
Qed.

Section overwritten_items.
Context (it : iteration).

Lemma fgd_compare_properties_overwritten_css css css' csgo :
  overwritten (fun prop => lower (prop_name prop)) css css' →
  FgdComparator.compare_properties it css csgo
  = FgdComparator.compare_properties it css' csgo.
Proof.
  intros Hd%dict_of_overwritten_eq.
  unfold FgdComparator.compare_properties. by rewrite Hd.
Qed.

Lemma fgd_compare_properties_overwritten_csgo css csgo csgo' :
  overwritten (fun prop => lower (prop_name prop)) csgo csgo' →
  FgdComparator.compare_properties it css csgo
  = FgdComparator.compare_properties it css csgo'.
Proof.
  intros Hd%dict_of_overwritten_eq.
  unfold FgdComparator.compare_properties. by rewrite Hd.
Qed.

Lemma csgo_compare_properties_overwritten_css css css' csgo :
  overwritten (fun prop => lower (prop_name prop)) css css' →
  CsgoToCss.compare_properties it css csgo
  = CsgoToCss.compare_properties it css' csgo.
Proof.
  intros Ho. destruct (overwritten_not_nil _ _ _ Ho) as [Hne Hne'].
  apply dict_of_overwritten_eq in Ho as Hd.
  unfold CsgoToCss.compare_properties.
  destruct css as [|p css]; [done|]. destruct css' as [|p' css']; [done|].
  by rewrite Hd.
Qed.

Lemma csgo_compare_properties_overwritten_csgo css csgo csgo' :
  overwritten (fun prop => lower (prop_name prop)) csgo csgo' →
  CsgoToCss.compare_properties it css csgo
  = CsgoToCss.compare_properties it css csgo'.
Proof.
  intros Ho. destruct (overwritten_not_nil _ _ _ Ho) as [Hne Hne'].
  apply dict_of_overwritten_eq in Ho as Hd.
  unfold CsgoToCss.compare_properties.
  destruct csgo as [|p csgo]; [done|]. destruct csgo' as [|p' csgo']; [done|].
  rewrite Hd. by destruct css.
Qed.

Lemma fgd_compare_io_overwritten_css css css' csgo io_type :
  overwritten (fun io => lower (io_name io)) css css' →
  FgdComparator.compare_io it css csgo io_type
  = FgdComparator.compare_io it css' csgo io_type.
Proof.
  intros Hd%dict_of_overwritten_eq. unfold FgdComparator.compare_io. by rewrite Hd.
Qed.

Lemma fgd_compare_io_overwritten_csgo css csgo csgo' io_type :
  overwritten (fun io => lower (io_name io)) csgo csgo' →
  FgdComparator.compare_io it css csgo io_type
  = FgdComparator.compare_io it css csgo' io_type.
Proof.
  intros Hd%dict_of_overwritten_eq. unfold FgdComparator.compare_io. by rewrite Hd.
Qed.

Lemma csgo_compare_io_overwritten_css css css' csgo :
  overwritten (fun io => lower (io_name io)) css css' →
  CsgoToCss.compare_io it css csgo = CsgoToCss.compare_io it css' csgo.
Proof.
  intros Hd%dict_of_overwritten_eq. unfold CsgoToCss.compare_io. by rewrite Hd.
Qed.

Lemma csgo_compare_io_overwritten_csgo css csgo csgo' :
  overwritten (fun io => lower (io_name io)) csgo csgo' →
  CsgoToCss.compare_io it css csgo = CsgoToCss.compare_io it css csgo'.
Proof.
  intros Hd%dict_of_overwritten_eq. unfold CsgoToCss.compare_io. by rewrite Hd.
Qed.
End overwritten_items.

(** *** Spawnflags in [fgdcomparator.py] *)

Lemma for_each_app {A S : Type} (f : S → A → result S) s l1 l2 :
  for_each f s (l1 ++ l2) = (s' ← for_each f s l1; for_each f s' l2).
Proof.
  revert s. induction l1 as [|x l1 IH]; intros s; simpl; [done|].
  destruct (f s x); simpl; [apply IH|done].
Qed.

Lemma flag_dict_from_overwritten (m : gmap Z FgdEntitySpawnflag) p value l2 :
  (∃ q, q ∈ l2 ∧ py_int (flag_value q) = Ok value) →
  for_each (fun m flag => value ← py_int (flag_value flag);
                          mret (<[value := flag]> m)) (<[value := p]> m) l2
  = for_each (fun m flag => value ← py_int (flag_value flag);
                            mret (<[value := flag]> m)) m l2.
Proof.
  revert m. induction l2 as [|g l2 IH]; intros m (q & Hq & Hv).
  - by apply elem_of_nil in Hq.
  - simpl. destruct (py_int (flag_value g)) as [value'|e] eqn:Hg; simpl; [|done].
    destruct (decide (value' = value)) as [->|Hne].
    + by rewrite insert_insert_eq.
    + rewrite insert_insert_ne by done. apply IH. exists q. split; [|done].
      apply elem_of_cons in Hq as [->|Hq]; [congruence|done].
Qed.

Lemma flag_dict_overwritten flags flags' :
  flag_overwritten flags flags' →
  FgdComparator.flag_dict flags = FgdComparator.flag_dict flags'.
Proof.
  intros [l1 p l2 q value Hq Hp Hv]. unfold FgdComparator.flag_dict.
  rewrite !for_each_app.
  destruct (for_each _ ∅ l1) as [m|e]; simpl; [|done].
  rewrite Hp. simpl. apply flag_dict_from_overwritten. by exists q.
Qed.

Lemma fgd_compare_spawnflags_overwritten_css it css css' csgo :
  flag_overwritten css css' →
  FgdComparator.compare_spawnflags it css csgo
  = FgdComparator.compare_spawnflags it css' csgo.
Proof.
  intros Hd%flag_dict_overwritten.
  unfold FgdComparator.compare_spawnflags. by rewrite Hd.
Qed.

Lemma fgd_compare_spawnflags_overwritten_csgo it css csgo csgo' :
  flag_overwritten csgo csgo' →
  FgdComparator.compare_spawnflags it css csgo
  = FgdComparator.compare_spawnflags it css csgo'.
Proof.
  intros Hd%flag_dict_overwritten.
  unfold FgdComparator.compare_spawnflags. by rewrite Hd.
Qed.

(** *** Spawnflags in [csgo_to_css_comparison.py] *)

(** [group_flags] keeps every flag: under a value it files all the flags
    with that value, in the order of the list. *)
Lemma group_flags_lookup label flags value :
  (CsgoToCss.group_flags label flags).2 !! value
  = match filter (fun flag => py_int (flag_value flag) = Ok value) flags with
    | [] => None
    | group => Some group
    end.
Proof.
  unfold CsgoToCss.group_flags.
  induction flags as [|flag flags IH] using rev_ind; [done|].
  rewrite foldl_app, filter_app. simpl.
  destruct (foldl _ _ flags) as [printed d]. simpl in IH.
  rewrite filter_cons, filter_nil.
  destruct (py_int (flag_value flag)) as [value'|e] eqn:Hflag; simpl.
  - destruct (decide (Ok value' = Ok value)) as [[= ->]|Hne].
    + rewrite lookup_insert_eq, IH.
      by destruct (filter _ flags).
    + rewrite lookup_insert_ne by congruence. rewrite IH, app_nil_r. done.
  - destruct (decide (Raise e = Ok value)); [done|]. by rewrite IH, app_nil_r.
Qed.

(** *** Entities *)

Lemma next_head {A : Type} (l : list A) :
  next l = match head l with Some x => Ok x | None => Raise StopIteration end.
Proof. by destruct l. Qed.

Lemma shadowed_set_of `{Countable K} {X : Type} (key : X → K) xs xs' :
  shadowed key xs xs' → (set_of key xs : gset K) = set_of key xs'.
Proof.
  intros [l1 p l2 q Hq Hk]. apply set_eq. intros k. rewrite !elem_of_set_of.
  split.
  - intros (x & Hx & <-). apply elem_of_app in Hx as [Hx|Hx].
    + exists x. set_solver.
    + apply elem_of_cons in Hx as [->|Hx]; [exists q|exists x]; set_solver.
  - intros (x & Hx & <-). exists x. set_solver.
Qed.

Lemma shadowed_head_filter {X K : Type} `{EqDecision K} (key : X → K) xs xs' k :
  shadowed key xs xs' →
  head (filter (fun x => key x = k) xs) = head (filter (fun x => key x = k) xs').
Proof.
  intros [l1 p l2 q Hq Hk]. rewrite !filter_app, filter_cons.
  destruct (decide (key p = k)) as [Hp|Hp]; [|done].
  assert (q ∈ filter (fun x => key x = k) l1) as Hf
    by (apply list_elem_of_filter; split; [congruence|done]).
  destruct (filter (fun x => key x = k) l1); [|done]. by apply elem_of_nil in Hf.
Qed.

Lemma shadowed_entities_named fgd es' entity_name :
  shadowed (fun e => lower (ent_name e)) (entities fgd) es' →
  head (entities_named fgd entity_name)
  = head (entities_named (with_entities fgd es') entity_name).
Proof. intros Hs. by apply shadowed_head_filter. Qed.

Lemma for_each_ext {A S : Type} (f g : S → A → result S) s l :
  (∀ s x, f s x = g s x) → for_each f s l = for_each g s l.
Proof.
  intros Hfg. revert s. induction l as [|x l IH]; intros s; simpl; [done|].
  rewrite Hfg. destruct (g s x); simpl; [apply IH|done].
Qed.

(** Both scripts see a schema only through the set of its lower-cased
    entity names, the first entity under each name, and its editor data. *)
Lemma fgd_compare_fgds_heads it now css_fgd css_fgd' csgo_fgd csgo_fgd' :
  (set_of (fun e => lower (ent_name e)) (entities css_fgd) : gset string)
  = set_of (fun e => lower (ent_name e)) (entities css_fgd') →
  (set_of (fun e => lower (ent_name e)) (entities csgo_fgd) : gset string)
  = set_of (fun e => lower (ent_name e)) (entities csgo_fgd') →
  (∀ name, head (entities_named css_fgd name)
           = head (entities_named css_fgd' name)) →
  (∀ name, head (entities_named csgo_fgd name)
           = head (entities_named csgo_fgd' name)) →
  FgdComparator.compare_fgds it now css_fgd csgo_fgd
  = FgdComparator.compare_fgds it now css_fgd' csgo_fgd'.
Proof.
  intros Hcss Hcsgo Hhcss Hhcsgo. unfold FgdComparator.compare_fgds.
  rewrite Hcss, Hcsgo.
  rewrite (for_each_ext
             (FgdComparator.modified_entities_step it css_fgd csgo_fgd)
             (FgdComparator.modified_entities_step it css_fgd' csgo_fgd')).
  2:{ intros s name. unfold FgdComparator.modified_entities_step.
      by rewrite !next_head, Hhcss, Hhcsgo. }
  rewrite (for_each_ext
             (FgdComparator.porting_issues_step it css_fgd csgo_fgd)
             (FgdComparator.porting_issues_step it css_fgd' csgo_fgd')).
  2:{ intros s name. unfold FgdComparator.porting_issues_step, next_or_none.
      by rewrite !next_head, Hhcss, Hhcsgo. }
  done.
Qed.

Lemma csgo_modified_entities_loop_heads it css_fgd css_fgd' csgo_fgd csgo_fgd'
    modified names :
  (∀ name, head (entities_named css_fgd name)
           = head (entities_named css_fgd' name)) →
  (∀ name, head (entities_named csgo_fgd name)
           = head (entities_named csgo_fgd' name)) →
  CsgoToCss.modified_entities_loop it css_fgd csgo_fgd modified names
  = CsgoToCss.modified_entities_loop it css_fgd' csgo_fgd' modified names.
Proof.
  intros Hhcss Hhcsgo. revert modified.
  induction names as [|name names IH]; intros modified; [done|].
  cbn [CsgoToCss.modified_entities_loop].
  rewrite !next_head, Hhcss, Hhcsgo.
  destruct (head (entities_named css_fgd' name)) as [css_entity|]; [|done].
  destruct (head (entities_named csgo_fgd' name)) as [csgo_entity|]; [|done].
  destruct (CsgoToCss.compare_entity it css_entity csgo_entity) as [printed d].
  by rewrite IH.
Qed.

Lemma csgo_compare_fgds_heads it css_fgd css_fgd' csgo_fgd csgo_fgd' :
  (set_of (fun e => lower (ent_name e)) (entities css_fgd) : gset string)
  = set_of (fun e => lower (ent_name e)) (entities css_fgd') →
  (set_of (fun e => lower (ent_name e)) (entities csgo_fgd) : gset string)
  = set_of (fun e => lower (ent_name e)) (entities csgo_fgd') →
  (∀ name, head (entities_named css_fgd name)
           = head (entities_named css_fgd' name)) →
  (∀ name, head (entities_named csgo_fgd name)
           = head (entities_named csgo_fgd' name)) →
  editor_data css_fgd = editor_data css_fgd' →
  editor_data csgo_fgd = editor_data csgo_fgd' →
  CsgoToCss.compare_fgds it css_fgd csgo_fgd
  = CsgoToCss.compare_fgds it css_fgd' csgo_fgd'.
Proof.
  intros Hcss Hcsgo Hhcss Hhcsgo Hedcss Hedcsgo. unfold CsgoToCss.compare_fgds.
  rewrite Hcss, Hcsgo, Hedcss, Hedcsgo.
  by rewrite (csgo_modified_entities_loop_heads it css_fgd css_fgd'
                csgo_fgd csgo_fgd').
Qed.

(** *** A duplicate inside an entity, seen from the whole schema *)

Section entity_replaced.
Context (R : FgdEntity → FgdEntity → Prop).
Context (R_name : ∀ e e', R e e' → ent_name e' = ent_name e).

Lemma entity_replaced_set_of fgd fgd' :
  entity_replaced R fgd fgd' →
  (set_of (fun e => lower (ent_name e)) (entities fgd) : gset string)
  = set_of (fun e => lower (ent_name e)) (entities fgd').
Proof.
  intros [l1 e e' l2 eds HR]. unfold set_of. cbn [entities].
  by rewrite !fmap_app, !fmap_cons, (R_name e e' HR).
Qed.

Lemma entity_replaced_editor_data fgd fgd' :
  entity_replaced R fgd fgd' → editor_data fgd = editor_data fgd'.
Proof. by intros [l1 e e' l2 eds HR]. Qed.

(** Under every name the first entity is the same in both schemas, or it is
    the entity that was replaced and its replacement. *)
Lemma entity_replaced_head fgd fgd' name :
  entity_replaced R fgd fgd' →
  head (entities_named fgd name) = head (entities_named fgd' name)
  ∨ ∃ e e', R e e'
            ∧ head (entities_named fgd name) = Some e
            ∧ head (entities_named fgd' name) = Some e'.
Proof.
  intros [l1 e e' l2 eds HR]. unfold entities_named. cbn [entities].
  rewrite !filter_app, !filter_cons, !head_app, (R_name e e' HR).
  destruct (head (filter _ l1)) as [e0|]; [by left|].
  destruct (decide (lower (ent_name e) = name)); [|by left].
  right. by exists e, e'.
Qed.
End entity_replaced.

Lemma item_overwritten_name e e' : item_overwritten e e' → ent_name e' = ent_name e.
Proof. by intros []. Qed.

Lemma spawnflag_overwritten_name e e' :
  spawnflag_overwritten e e' → ent_name e' = ent_name e.
Proof. by intros []. Qed.

Lemma fgd_compare_entity_item_overwritten it e e' other :
  item_overwritten e e' ∨ spawnflag_overwritten e e' →
  FgdComparator.compare_entity it e other
  = FgdComparator.compare_entity it e' other
  ∧ FgdComparator.compare_entity it other e
    = FgdComparator.compare_entity it other e'.
Proof.
  intros [[e0 props' Ho|e0 ios' Ho|e0 ios' Ho]|[e0 flags' Ho]];
    unfold FgdComparator.compare_entity;
    cbn [with_properties with_inputs with_outputs with_spawnflags
         ent_name ent_class_type ent_description ent_definitions
         ent_properties ent_spawnflags ent_inputs ent_outputs].
  - by rewrite (fgd_compare_properties_overwritten_css it _ _ _ Ho),
      (fgd_compare_properties_overwritten_csgo it _ _ _ Ho).
  - by rewrite (fgd_compare_io_overwritten_css it _ _ _ "input" Ho),
      (fgd_compare_io_overwritten_csgo it _ _ _ "input" Ho).
  - by rewrite (fgd_compare_io_overwritten_css it _ _ _ "output" Ho),
      (fgd_compare_io_overwritten_csgo it _ _ _ "output" Ho).
  - by rewrite (fgd_compare_spawnflags_overwritten_css it _ _ _ Ho),
      (fgd_compare_spawnflags_overwritten_csgo it _ _ _ Ho).
Qed.

Lemma csgo_compare_entity_item_overwritten it e e' other :
  item_overwritten e e' →
  CsgoToCss.compare_entity it e other = CsgoToCss.compare_entity it e' other
  ∧ CsgoToCss.compare_entity it other e = CsgoToCss.compare_entity it other e'.
Proof.
  intros [e0 props' Ho|e0 ios' Ho|e0 ios' Ho];
    unfold CsgoToCss.compare_entity;
    cbn [with_properties with_inputs with_outputs
         ent_name ent_class_type ent_description ent_definitions
         ent_properties ent_spawnflags ent_inputs ent_outputs].
  - by rewrite (csgo_compare_properties_overwritten_css it _ _ _ Ho),
      (csgo_compare_properties_overwritten_csgo it _ _ _ Ho).
  - by rewrite (csgo_compare_io_overwritten_css it _ _ _ Ho),
      (csgo_compare_io_overwritten_csgo it _ _ _ Ho).
  - by rewrite (csgo_compare_io_overwritten_css it _ _ _ Ho),
      (csgo_compare_io_overwritten_csgo it _ _ _ Ho).
Qed.

Section schema_replaced.
Context (it : iteration) (R : FgdEntity → FgdEntity → Prop).
Context (R_name : ∀ e e', R e e' → ent_name e' = ent_name e).

Section fgdcomparator.
Context (R_compare : ∀ e e' other,
           R e e' →
           FgdComparator.compare_entity it e other
           = FgdComparator.compare_entity it e' other
           ∧ FgdComparator.compare_entity it other e
             = FgdComparator.compare_entity it other e').

Lemma fgd_modified_entities_step_replaced fgd fgd' other modified name :
  entity_replaced R fgd fgd' →
  FgdComparator.modified_entities_step it fgd other modified name
  = FgdComparator.modified_entities_step it fgd' other modified name
  ∧ FgdComparator.modified_entities_step it other fgd modified name
    = FgdComparator.modified_entities_step it other fgd' modified name.
Proof.
  intros Hr. unfold FgdComparator.modified_entities_step. rewrite !next_head.
  destruct (entity_replaced_head R R_name fgd fgd' name Hr)
    as [->|(e & e' & HR & -> & ->)]; [done|].
  split.
  - destruct (head (entities_named other name)) as [b|]; [|done].
    cbn [mbind result_bind]. by rewrite (proj1 (R_compare e e' b HR)).
  - destruct (head (entities_named other name)) as [a|]; [|done].
    cbn [mbind result_bind].
    by rewrite (proj2 (R_compare e e' a HR)), (R_name e e' HR).
Qed.

(** The loop that collects the issues ends the same way in both runs:
    with a list, or with the exception of the same [next]. *)
Lemma fgd_porting_issues_replaced css_fgd css_fgd' csgo_fgd csgo_fgd'
    names issues issues' :
  (∀ name, head (entities_named csgo_fgd name) = None
           ↔ head (entities_named csgo_fgd' name) = None) →
  (∃ found found',
     for_each (FgdComparator.porting_issues_step it css_fgd csgo_fgd)
       issues names = Ok found
     ∧ for_each (FgdComparator.porting_issues_step it css_fgd' csgo_fgd')
         issues' names = Ok found')
  ∨ (∃ e,
       for_each (FgdComparator.porting_issues_step it css_fgd csgo_fgd)
         issues names = Raise e
       ∧ for_each (FgdComparator.porting_issues_step it css_fgd' csgo_fgd')
           issues' names = Raise e).
Proof.
  intros Hnone. revert issues issues'.
  induction names as [|name names IH]; intros issues issues'.
  - left. by exists issues, issues'.
  - cbn [for_each].
    assert ((∃ found found',
               FgdComparator.porting_issues_step it css_fgd csgo_fgd issues name
               = Ok found
               ∧ FgdComparator.porting_issues_step it css_fgd' csgo_fgd'
                   issues' name = Ok found')
            ∨ (∃ e,
                 FgdComparator.porting_issues_step it css_fgd csgo_fgd
                   issues name = Raise e
                 ∧ FgdComparator.porting_issues_step it css_fgd' csgo_fgd'
                     issues' name = Raise e)) as Hstep.
    { unfold FgdComparator.porting_issues_step. rewrite !next_head.
      specialize (Hnone name).
      destruct (head (entities_named csgo_fgd name)) as [e1|];
        destruct (head (entities_named csgo_fgd' name)) as [e2|].
      - left. cbn [mbind result_bind].
        destruct (next_or_none (entities_named css_fgd name));
          destruct (next_or_none (entities_named css_fgd' name));
          by do 2 eexists.
      - discriminate (proj2 Hnone eq_refl).
      - discriminate (proj1 Hnone eq_refl).
      - right. by exists StopIteration. }
    destruct Hstep as [(found & found' & -> & ->)|(e & -> & ->)].
    + cbn [mbind result_bind]. apply IH.
    + right. by exists e.
Qed.

Lemma entity_replaced_head_None fgd fgd' name :
  entity_replaced R fgd fgd' →
  head (entities_named fgd name) = None
  ↔ head (entities_named fgd' name) = None.
Proof.
  intros Hr.
  destruct (entity_replaced_head R R_name fgd fgd' name Hr)
    as [->|(e & e' & HR & -> & ->)]; done.
Qed.

(** The report of [fgdcomparator.py] for a schema and for the same schema
    with one entity replaced, the list of issues left aside. *)
Lemma fgd_compare_fgds_replaced now fgd fgd' other :
  entity_replaced R fgd fgd' →
  without_issues (FgdComparator.compare_fgds it now fgd other)
  = without_issues (FgdComparator.compare_fgds it now fgd' other)
  ∧ without_issues (FgdComparator.compare_fgds it now other fgd)
    = without_issues (FgdComparator.compare_fgds it now other fgd').
Proof.
  intros Hr. unfold FgdComparator.compare_fgds. cbv zeta.
  rewrite <- !(entity_replaced_set_of R R_name fgd fgd' Hr). split.
  - rewrite (for_each_ext
               (FgdComparator.modified_entities_step it fgd other)
               (FgdComparator.modified_entities_step it fgd' other))
      by (intros s name;
          apply (fgd_modified_entities_step_replaced fgd fgd' other s name Hr)).
    destruct (for_each (FgdComparator.modified_entities_step it fgd' other) _ _)
      as [modified|e]; [|done].
    cbn [mbind result_bind].
    destruct (fgd_porting_issues_replaced fgd fgd' other other
                (iter_str it (set_of (fun e => lower (ent_name e))
                                (entities other))) [] [])
      as [(found & found' & -> & ->)|(e & -> & ->)]; done.
  - rewrite (for_each_ext
               (FgdComparator.modified_entities_step it other fgd)
               (FgdComparator.modified_entities_step it other fgd'))
      by (intros s name;
          apply (fgd_modified_entities_step_replaced fgd fgd' other s name Hr)).
    destruct (for_each (FgdComparator.modified_entities_step it other fgd') _ _)
      as [modified|e]; [|done].
    cbn [mbind result_bind].
    destruct (fgd_porting_issues_replaced other other fgd fgd'
                (iter_str it (set_of (fun e => lower (ent_name e))
                                (entities fgd))) [] [])
      as [(found & found' & -> & ->)|(e & -> & ->)]; try done.
    intros name. by apply entity_replaced_head_None.
Qed.
End fgdcomparator.

Section csgo_to_css.
Context (R_compare : ∀ e e' other,
           R e e' →
           CsgoToCss.compare_entity it e other
           = CsgoToCss.compare_entity it e' other
           ∧ CsgoToCss.compare_entity it other e
             = CsgoToCss.compare_entity it other e').

Lemma csgo_modified_entities_loop_replaced_css fgd fgd' other modified names :
  entity_replaced R fgd fgd' →
  CsgoToCss.modified_entities_loop it fgd other modified names
  = CsgoToCss.modified_entities_loop it fgd' other modified names.
Proof.
  intros Hr. revert modified.
  induction names as [|name names IH]; intros modified; [done|].
  cbn [CsgoToCss.modified_entities_loop]. rewrite !next_head.
  destruct (entity_replaced_head R R_name fgd fgd' name Hr)
    as [->|(e & e' & HR & -> & ->)].
  - destruct (head (entities_named fgd' name)) as [a|]; [|done].
    destruct (head (entities_named other name)) as [b|]; [|done].
    destruct (CsgoToCss.compare_entity it a b) as [printed entity_diff].
    by rewrite IH.
  - destruct (head (entities_named other name)) as [b|]; [|done].
    rewrite (proj1 (R_compare e e' b HR)).
    destruct (CsgoToCss.compare_entity it e' b) as [printed entity_diff].
    by rewrite IH.
Qed.

Lemma csgo_modified_entities_loop_replaced_csgo fgd fgd' other modified names :
  entity_replaced R fgd fgd' →
  CsgoToCss.modified_entities_loop it other fgd modified names
  = CsgoToCss.modified_entities_loop it other fgd' modified names.
Proof.
  intros Hr. revert modified.
  induction names as [|name names IH]; intros modified; [done|].
  cbn [CsgoToCss.modified_entities_loop]. rewrite !next_head.
  destruct (entity_replaced_head R R_name fgd fgd' name Hr)
    as [->|(e & e' & HR & -> & ->)].
  - destruct (head (entities_named other name)) as [a|]; [|done].
    destruct (head (entities_named fgd' name)) as [b|]; [|done].
    destruct (CsgoToCss.compare_entity it a b) as [printed entity_diff].
    by rewrite IH.
  - destruct (head (entities_named other name)) as [a|]; [|done].
    rewrite (proj2 (R_compare e e' a HR)), (R_name e e' HR).
    destruct (CsgoToCss.compare_entity it a e') as [printed entity_diff].
    by rewrite IH.
Qed.

Lemma csgo_compare_fgds_replaced fgd fgd' other :
  entity_replaced R fgd fgd' →
  CsgoToCss.compare_fgds it fgd other = CsgoToCss.compare_fgds it fgd' other
  ∧ CsgoToCss.compare_fgds it other fgd = CsgoToCss.compare_fgds it other fgd'.
Proof.
  intros Hr. unfold CsgoToCss.compare_fgds. cbv zeta.
  rewrite <- !(entity_replaced_set_of R R_name fgd fgd' Hr),
    <- !(entity_replaced_editor_data R fgd fgd' Hr).
  by rewrite <- (csgo_modified_entities_loop_replaced_css fgd fgd' other),
    <- (csgo_modified_entities_loop_replaced_csgo fgd fgd' other).
Qed.
End csgo_to_css.
End schema_replaced.




(** ** Spawnflag values that are not integers *)

(** [csgo_to_css_comparison.py] prints one line per flag whose value is not
    an integer and files the other flags as if the former were not there. *)
Lemma group_flags_skips label flags :
  CsgoToCss.group_flags label flags
  = (flag_warnings label flags,
     (CsgoToCss.group_flags label (filter integer_valued flags)).2).
Proof.
  unfold CsgoToCss.group_flags, flag_warnings.
  induction flags as [|flag flags IH] using rev_ind; [done|].
  rewrite !filter_app, !filter_cons, !filter_nil, foldl_app. simpl. rewrite IH.
  destruct (decide (integer_valued flag)) as [[value Hv]|Hnot].
  - rewrite decide_False by (intros Hnot; apply Hnot; by exists value).
    rewrite foldl_app. simpl.
    destruct (foldl _ _ (filter integer_valued flags)) as [printed d].
    simpl. rewrite !Hv. simpl. by rewrite app_nil_r.
  - rewrite decide_True by done. rewrite app_nil_r, fmap_app. simpl.
    destruct (py_int (flag_value flag)) as [value|e] eqn:Hv.
    + destruct Hnot. by exists value.
    + done.
Qed.

Lemma flag_warnings_integer label flags :
  Forall integer_valued flags → flag_warnings label flags = [].
Proof.
  intros Hall. unfold flag_warnings.
  induction Hall as [|flag flags Hflag _ IH]; [done|].
  rewrite filter_cons. by rewrite decide_False by (intros Hnot; by apply Hnot).
Qed.

(** The comparison of the flags that do have integer values goes through:
    the diff is the diff of the two lists without the other flags, and the
    run prints one warning per flag passed over. *)
Lemma csgo_compare_spawnflags_skips it css_flags csgo_flags :
  CsgoToCss.compare_spawnflags it css_flags csgo_flags
  = (flag_warnings "CS:S" css_flags ++ flag_warnings "CS:GO" csgo_flags,
     (CsgoToCss.compare_spawnflags it (filter integer_valued css_flags)
                                      (filter integer_valued csgo_flags)).2).
Proof.
  unfold CsgoToCss.compare_spawnflags.
  rewrite (group_flags_skips "CS:S" css_flags).
  rewrite (group_flags_skips "CS:GO" csgo_flags).
  destruct (CsgoToCss.group_flags "CS:S" (filter integer_valued css_flags))
    as [printed1 d1].
  destruct (CsgoToCss.group_flags "CS:GO" (filter integer_valued csgo_flags))
    as [printed2 d2].
  done.
Qed.

(** [fgdcomparator.py] on the other hand ends with the exception as soon as
    one flag on either side has a value that is not an integer. *)
Lemma fgd_compare_spawnflags_raises it css_flags csgo_flags :
  ¬ (Forall integer_valued css_flags ∧ Forall integer_valued csgo_flags) →
  ∃ e, FgdComparator.compare_spawnflags it css_flags csgo_flags = Raise e.
Proof.
  intros Hnot. unfold FgdComparator.compare_spawnflags.
  destruct (decide (Forall integer_valued css_flags)) as [Hcss|Hcss].
  - destruct (flag_dict_integer css_flags Hcss) as [d ->]. simpl.
    destruct (flag_dict_from_raise csgo_flags ∅) as [e He]; [tauto|].
    unfold FgdComparator.flag_dict. rewrite He. by exists e.
  - destruct (flag_dict_from_raise css_flags ∅ Hcss) as [e He].
    unfold FgdComparator.flag_dict. rewrite He. by exists e.
Qed.

(** ** The sorted lists of [fgdcomparator.py] *)

Lemma sorted_iter_str it1 it2 (X : gset string) :
  iteration_ok it1 → iteration_ok it2 →
  sorted_str (iter_str it1 X) = sorted_str (iter_str it2 X).
Proof.
  intros Hit1 Hit2. apply sorted_str_unique.
  by rewrite (iter_str_ok it1 Hit1), (iter_str_ok it2 Hit2).
Qed.

Lemma fgd_compare_properties_lists it css csgo :
  report_strings "new" (FgdComparator.compare_properties it css csgo)
  = sorted_str (iter_str it
                  (dom (dict_of (fun prop => lower (prop_name prop)) csgo)
                   ∖ dom (dict_of (fun prop => lower (prop_name prop)) css)))
  ∧ report_strings "removed" (FgdComparator.compare_properties it css csgo)
    = sorted_str (iter_str it
                    (dom (dict_of (fun prop => lower (prop_name prop)) css)
                     ∖ dom (dict_of (fun prop => lower (prop_name prop)) csgo))).
Proof.
  unfold FgdComparator.compare_properties. cbv zeta.
  match goal with
  | |- context [modified_items ?i ?n ?c ?d1 ?d2] =>
      destruct (differences_report
                  (sorted_str (iter_str it (dom d2 ∖ dom d1)))
                  (sorted_str (iter_str it (dom d1 ∖ dom d2)))
                  (modified_items i n c d1 d2)) as (Hn & Hr & Hm)
  end.
  by rewrite Hn, Hr.
Qed.

Lemma fgd_compare_io_lists it css csgo io_type :
  report_strings "new" (FgdComparator.compare_io it css csgo io_type)
  = sorted_str (iter_str it
                  (dom (dict_of (fun io => lower (io_name io)) csgo)
                   ∖ dom (dict_of (fun io => lower (io_name io)) css)))
  ∧ report_strings "removed" (FgdComparator.compare_io it css csgo io_type)
    = sorted_str (iter_str it
                    (dom (dict_of (fun io => lower (io_name io)) css)
                     ∖ dom (dict_of (fun io => lower (io_name io)) csgo))).
Proof.
  unfold FgdComparator.compare_io. cbv zeta.
  match goal with
  | |- context [modified_items ?i ?n ?c ?d1 ?d2] =>
      destruct (differences_report
                  (sorted_str (iter_str it (dom d2 ∖ dom d1)))
                  (sorted_str (iter_str it (dom d1 ∖ dom d2)))
                  (modified_items i n c d1 d2)) as (Hn & Hr & Hm)
  end.
  unfold py_any, dict_values. cbn [fmap list_fmap snd existsb].
  rewrite orb_false_r, orb_assoc. by rewrite Hn, Hr.
Qed.

Lemma fgd_compare_fgds_lists it now css_fgd csgo_fgd report :
  FgdComparator.compare_fgds it now css_fgd csgo_fgd = Ok report →
  report_strings "new_entities" report
  = sorted_str (iter_str it
                  (set_of (fun e => lower (ent_name e)) (entities csgo_fgd)
                   ∖ set_of (fun e => lower (ent_name e)) (entities css_fgd)))
  ∧ report_strings "removed_entities" report
    = sorted_str (iter_str it
                    (set_of (fun e => lower (ent_name e)) (entities css_fgd)
                     ∖ set_of (fun e => lower (ent_name e)) (entities csgo_fgd))).
Proof.
  unfold FgdComparator.compare_fgds. cbv zeta.
  destruct (for_each (FgdComparator.modified_entities_step it css_fgd csgo_fgd) _ _)
    as [modified|]; [|done].
  simpl.
  destruct (for_each (FgdComparator.porting_issues_step it css_fgd csgo_fgd) _ _)
    as [issues|]; [|done].
  simpl. intros [= <-].
  split; by erewrite report_strings_of_list by reflexivity.
Qed.

(** In [fgdcomparator.py] the lists of new and removed entity, property,
    input and output names are in ascending order and are the same under
    any two admissible iteration orders. *)
Lemma fgd_name_lists_sorted it1 it2 :
  iteration_ok it1 → iteration_ok it2 →
  (∀ css csgo key, key = "new" ∨ key = "removed" →
     Sorted String.le
       (report_strings key (FgdComparator.compare_properties it1 css csgo))
     ∧ report_strings key (FgdComparator.compare_properties it1 css csgo)
       = report_strings key (FgdComparator.compare_properties it2 css csgo))
  ∧ (∀ css csgo io_type key, key = "new" ∨ key = "removed" →
       Sorted String.le
         (report_strings key (FgdComparator.compare_io it1 css csgo io_type))
       ∧ report_strings key (FgdComparator.compare_io it1 css csgo io_type)
         = report_strings key (FgdComparator.compare_io it2 css csgo io_type))
  ∧ (∀ now css_fgd csgo_fgd report1 report2 key,
       key = "new_entities" ∨ key = "removed_entities" →
       FgdComparator.compare_fgds it1 now css_fgd csgo_fgd = Ok report1 →
       FgdComparator.compare_fgds it2 now css_fgd csgo_fgd = Ok report2 →
       Sorted String.le (report_strings key report1)
       ∧ report_strings key report1 = report_strings key report2).
Proof.
  intros Hit1 Hit2. split; [|split].
  - intros css csgo key Hkey.
    destruct (fgd_compare_properties_lists it1 css csgo) as [Hn1 Hr1].
    destruct (fgd_compare_properties_lists it2 css csgo) as [Hn2 Hr2].
    destruct Hkey as [-> | ->].
    + rewrite Hn1, Hn2. split; [apply sorted_str_Sorted|by apply sorted_iter_str].
    + rewrite Hr1, Hr2. split; [apply sorted_str_Sorted|by apply sorted_iter_str].
  - intros css csgo io_type key Hkey.
    destruct (fgd_compare_io_lists it1 css csgo io_type) as [Hn1 Hr1].
    destruct (fgd_compare_io_lists it2 css csgo io_type) as [Hn2 Hr2].
    destruct Hkey as [-> | ->].
    + rewrite Hn1, Hn2. split; [apply sorted_str_Sorted|by apply sorted_iter_str].
    + rewrite Hr1, Hr2. split; [apply sorted_str_Sorted|by apply sorted_iter_str].
  - intros now css_fgd csgo_fgd report1 report2 key Hkey H1 H2.
    destruct (fgd_compare_fgds_lists _ _ _ _ _ H1) as [Hn1 Hr1].
    destruct (fgd_compare_fgds_lists _ _ _ _ _ H2) as [Hn2 Hr2].
    destruct Hkey as [-> | ->].
    + rewrite Hn1, Hn2. split; [apply sorted_str_Sorted|by apply sorted_iter_str].
    + rewrite Hr1, Hr2. split; [apply sorted_str_Sorted|by apply sorted_iter_str].
Qed.

(** ** [fgdcomparator.py] raises nothing but [ValueError] *)

Lemma count_changes_three_collections diff :
  three_collections diff →
  ∃ c, FgdComparator.count_changes diff = Ok (counts_py c).
Proof.
  intros [->|(new & removed & modified & ->)].
  - by exists {| n_new := 0; n_removed := 0; n_modified := 0 |}.
  - by exists {| n_new := Z.of_nat (length new);
                 n_removed := Z.of_nat (length removed);
                 n_modified := Z.of_nat (length modified) |}.
Qed.

Lemma fgd_compare_properties_shape it css csgo :
  three_collections (FgdComparator.compare_properties it css csgo).
Proof.
  unfold FgdComparator.compare_properties. cbv zeta.
  destruct (_ || _); [right|by left]. by do 3 eexists.
Qed.

Lemma fgd_compare_io_shape it css csgo io_type :
  three_collections (FgdComparator.compare_io it css csgo io_type).
Proof.
  unfold FgdComparator.compare_io. cbv zeta.
  destruct (py_any _); [right|by left]. by do 3 eexists.
Qed.

Lemma fgd_compare_spawnflags_ok it css_flags csgo_flags :
  Forall integer_valued css_flags → Forall integer_valued csgo_flags →
  ∃ diff, FgdComparator.compare_spawnflags it css_flags csgo_flags = Ok diff
          ∧ three_collections diff.
Proof.
  intros Hcss Hcsgo. unfold FgdComparator.compare_spawnflags.
  destruct (flag_dict_integer css_flags Hcss) as [d1 ->].
  destruct (flag_dict_integer csgo_flags Hcsgo) as [d2 ->]. simpl.
  destruct (foldl _ _ _) as [[new removed] modified].
  match goal with
  | |- context [if ?c then _ else _] => destruct c
  end.
  - eexists. split; [done|]. right. by do 3 eexists.
  - eexists. split; [done|]. by left.
Qed.

(** The diff of one entity, once the change summary is attached, carries a
    summary in the sense of [has_summary]; hence the scorer accepts it. *)
Lemma fgd_differences_has_summary (class_type description : bool)
    (class_type_diff description_diff : pyval)
    (css_defs csgo_defs : list FgdDefinition)
    (prop_diff spawnflag_diff input_diff output_diff : pyval)
    (properties inputs outputs spawnflags : counts) :
  let differences : pydict := [] in
  let differences :=
    if class_type then dict_set (KStr "class_type") class_type_diff differences
    else differences in
  let differences :=
    if description then dict_set (KStr "description") description_diff differences
    else differences in
  let definitions_diff := FgdComparator.compare_definitions css_defs csgo_defs in
  let differences :=
    if truthy definitions_diff
    then dict_set (KStr "definitions") definitions_diff differences
    else differences in
  let differences :=
    if truthy prop_diff then dict_set (KStr "properties") prop_diff differences
    else differences in
  let differences :=
    if truthy spawnflag_diff
    then dict_set (KStr "spawnflags") spawnflag_diff differences
    else differences in
  let differences :=
    if truthy input_diff then dict_set (KStr "inputs") input_diff differences
    else differences in
  let differences :=
    if truthy output_diff then dict_set (KStr "outputs") output_diff differences
    else differences in
  let differences :=
    dict_set (KStr "changes_summary")
      (PDict [(KStr "properties", counts_py properties);
              (KStr "inputs", counts_py inputs);
              (KStr "outputs", counts_py outputs);
              (KStr "spawnflags", counts_py spawnflags)])
      differences in
  ∃ s, has_summary differences s
       ∧ class_type_changed s = class_type
       ∧ properties_changed s = properties
       ∧ inputs_changed s = inputs
       ∧ outputs_changed s = outputs
       ∧ spawnflags_changed s = spawnflags.
Proof.
  cbv zeta.
  set (css_bases := filter (fun d => FgdComparator.is_base d) css_defs).
  set (csgo_bases := filter (fun d => FgdComparator.is_base d) csgo_defs).
  exists {| class_type_changed := class_type;
            base_changes :=
              if bool_decide (css_bases ≠ csgo_bases)
              then Some (definition_py <$>
                           filter (fun b => b ∉ css_bases) csgo_bases,
                         definition_py <$>
                           filter (fun b => b ∉ csgo_bases) css_bases)
              else None;
            properties_changed := properties;
            inputs_changed := inputs;
            outputs_changed := outputs;
            spawnflags_changed := spawnflags |}.
  split; [|done]. unfold has_summary. cbn [class_type_changed base_changes
    properties_changed inputs_changed outputs_changed spawnflags_changed].
  split; [|split].
  - unfold dict_has. rewrite dict_get_dict_set_ne by done.
    rewrite !dict_get_cond_set by done.
    destruct class_type; [by rewrite dict_get_dict_set_eq|done].
  - unfold FgdComparator.compare_definitions. fold css_bases csgo_bases.
    rewrite dict_get_dict_set_ne by done.
    rewrite !dict_get_cond_set by done.
    destruct (bool_decide (css_bases ≠ csgo_bases)); cbn [truthy].
    + do 2 eexists. split; [by rewrite dict_get_dict_set_eq|done].
    + by rewrite !dict_get_cond_set by done.
  - eexists. split; [by rewrite dict_get_dict_set_eq|done].
Qed.

Lemma has_summary_dict_set differences s k v :
  k ≠ KStr "class_type" → k ≠ KStr "definitions" → k ≠ KStr "changes_summary" →
  has_summary differences s → has_summary (dict_set k v differences) s.
Proof.
  intros H1 H2 H3 (Hclass & Hbases & Hsummary). unfold has_summary, dict_has.
  rewrite !dict_get_dict_set_ne by done. done.
Qed.

(** On entities whose spawnflag values are integers [compare_entity] of
    [fgdcomparator.py] returns a diff.  The diff is empty, or it carries a
    change summary and, under [backward_porting_complexity], the bucket of
    the weighted sum of that summary. *)
Lemma fgd_compare_entity_ok it css_entity csgo_entity :
  Forall integer_valued (ent_spawnflags css_entity) →
  Forall integer_valued (ent_spawnflags csgo_entity) →
  ∃ differences,
    FgdComparator.compare_entity it css_entity csgo_entity = Ok differences
    ∧ (differences = []
       ∨ ∃ s, has_summary differences s
              ∧ dict_get (KStr "backward_porting_complexity") differences
                = Some (PStr (FgdComparator.bucket (weighted_sum s)))).
Proof.
  intros Hcss Hcsgo. unfold FgdComparator.compare_entity. cbv zeta.
  destruct (fgd_compare_spawnflags_ok it _ _ Hcss Hcsgo)
    as (spawnflag_diff & -> & Hflags).
  cbn [mbind result_bind].
  destruct (count_changes_three_collections _
              (fgd_compare_properties_shape it (ent_properties css_entity)
                 (ent_properties csgo_entity))) as [properties Hproperties].
  destruct (count_changes_three_collections _
              (fgd_compare_io_shape it (ent_inputs css_entity)
                 (ent_inputs csgo_entity) "input")) as [inputs Hinputs].
  destruct (count_changes_three_collections _
              (fgd_compare_io_shape it (ent_outputs css_entity)
                 (ent_outputs csgo_entity) "output")) as [outputs Houtputs].
  destruct (count_changes_three_collections _ Hflags) as [spawnflags Hspawnflags].
  destruct (fgd_differences_has_summary
              (bool_decide (ent_class_type css_entity ≠ ent_class_type csgo_entity))
              (bool_decide (ent_description css_entity ≠ ent_description csgo_entity))
              (css_csgo (PStr (ent_class_type css_entity))
                        (PStr (ent_class_type csgo_entity)))
              (css_csgo (py_opt_str (ent_description css_entity))
                        (py_opt_str (ent_description csgo_entity)))
              (ent_definitions css_entity) (ent_definitions csgo_entity)
              (FgdComparator.compare_properties it (ent_properties css_entity)
                 (ent_properties csgo_entity))
              spawnflag_diff
              (FgdComparator.compare_io it (ent_inputs css_entity)
                 (ent_inputs csgo_entity) "input")
              (FgdComparator.compare_io it (ent_outputs css_entity)
                 (ent_outputs csgo_entity) "output")
              properties inputs outputs spawnflags) as (s & Hs & _).
  cbv zeta in Hs.
  match goal with
  | |- context [if truthy (PDict ?d) then _ else _] =>
      destruct (truthy (PDict d)) eqn:Hdiff
  end.
  - rewrite Hproperties, Hinputs, Houtputs, Hspawnflags.
    cbn [mbind result_bind].
    destruct (complexity_score_weighted_sum _ s Hs) as (score & Hscore & Heq).
    unfold FgdComparator.calculate_porting_complexity. rewrite Hscore.
    cbn [mbind result_bind mret result_ret].
    eexists. split; [done|]. right. exists s. split.
    + by apply has_summary_dict_set.
    + rewrite dict_get_dict_set_eq. do 2 f_equal. by apply bucket_proper.
  - eexists. split; [done|]. left. by apply truthy_PDict_nil.
Qed.

Lemma fgd_modified_entities_step_ok it css_fgd csgo_fgd modified name :
  integer_flags css_fgd → integer_flags csgo_fgd →
  name ∈ (set_of (fun e => lower (ent_name e)) (entities css_fgd) : gset string) →
  name ∈ (set_of (fun e => lower (ent_name e)) (entities csgo_fgd) : gset string) →
  ∃ modified',
    FgdComparator.modified_entities_step it css_fgd csgo_fgd modified name
    = Ok modified'.
Proof.
  unfold integer_flags. rewrite !Forall_forall. intros Hcss Hcsgo H1 H2.
  unfold FgdComparator.modified_entities_step.
  destruct (entities_named_next css_fgd name H1) as (e1 & -> & _ & He1 & _).
  destruct (entities_named_next csgo_fgd name H2) as (e2 & -> & _ & He2 & _).
  cbn [mbind result_bind].
  destruct (fgd_compare_entity_ok it e1 e2) as (differences & -> & _);
    [by apply Hcss|by apply Hcsgo|].
  by eexists.
Qed.

Lemma fgd_porting_issues_step_ok it css_fgd csgo_fgd issues name :
  name ∈ (set_of (fun e => lower (ent_name e)) (entities csgo_fgd) : gset string) →
  ∃ issues',
    FgdComparator.porting_issues_step it css_fgd csgo_fgd issues name
    = Ok issues'.
Proof.
  intros H2. unfold FgdComparator.porting_issues_step.
  destruct (entities_named_next csgo_fgd name H2) as (e2 & -> & _).
  cbn [mbind result_bind].
  destruct (next_or_none (entities_named css_fgd name)); by eexists.
Qed.

(** On schemas whose spawnflag values are integers [compare_fgds] of
    [fgdcomparator.py] returns a report: no lookup fails, [next] always
    finds its entity, and the scorer is given what it expects. *)
Lemma fgd_compare_fgds_ok it now css_fgd csgo_fgd :
  iteration_ok it → integer_flags css_fgd → integer_flags csgo_fgd →
  ∃ report, FgdComparator.compare_fgds it now css_fgd csgo_fgd = Ok report.
Proof.
  intros Hit Hcss Hcsgo. unfold FgdComparator.compare_fgds. cbv zeta.
  assert (∀ names modified,
            (∀ name, name ∈ names →
               name ∈ (set_of (fun e => lower (ent_name e)) (entities css_fgd)
                       : gset string)
               ∧ name ∈ (set_of (fun e => lower (ent_name e)) (entities csgo_fgd)
                         : gset string)) →
            ∃ modified',
              for_each (FgdComparator.modified_entities_step it css_fgd csgo_fgd)
                modified names = Ok modified') as Hloop1.
  { induction names as [|name names IH]; intros modified Hin; [by eexists|].
    cbn [for_each]. destruct (Hin name) as [H1 H2]; [set_solver|].
    destruct (fgd_modified_entities_step_ok it css_fgd csgo_fgd modified name)
      as [modified' ->]; try done.
    cbn [mbind result_bind]. apply IH. set_solver. }
  assert (∀ names issues,
            (∀ name, name ∈ names →
               name ∈ (set_of (fun e => lower (ent_name e)) (entities csgo_fgd)
                       : gset string)) →
            ∃ issues',
              for_each (FgdComparator.porting_issues_step it css_fgd csgo_fgd)
                issues names = Ok issues') as Hloop2.
  { induction names as [|name names IH]; intros issues Hin; [by eexists|].
    cbn [for_each].
    destruct (fgd_porting_issues_step_ok it css_fgd csgo_fgd issues name)
      as [issues' ->]; [set_solver|].
    cbn [mbind result_bind]. apply IH. set_solver. }
  edestruct Hloop1 as [modified ->].
  { intros name. rewrite (elem_of_iter_str it Hit). set_solver. }
  cbn [mbind result_bind].
  edestruct Hloop2 as [issues ->].
  { intros name. by rewrite (elem_of_iter_str it Hit). }
  by eexists.
Qed.

(** ** The backward-porting issues *)

Lemma foldl_snoc_fmap {A B : Type} (f : A → B) (acc : list B) (l : list A) :
  foldl (fun acc x => acc ++ [f x]) acc l = acc ++ (f <$> l).
Proof.
  revert acc. induction l as [|x l IH]; intros acc; simpl.
  - by rewrite app_nil_r.
  - by rewrite IH, <- app_assoc.
Qed.

Lemma fgd_porting_issues_step_issues it css_fgd csgo_fgd issues name issues' :
  FgdComparator.porting_issues_step it css_fgd csgo_fgd issues name = Ok issues' →
  issues' = issues ++ issues_of it css_fgd csgo_fgd name.
Proof.
  unfold FgdComparator.porting_issues_step, issues_of, next_or_none.
  rewrite next_head.
  destruct (head (entities_named csgo_fgd name)) as [csgo_entity|]; [|done].
  cbn [mbind result_bind].
  destruct (head (entities_named css_fgd name)) as [css_entity|].
  - intros [= <-]. apply foldl_snoc_fmap.
  - by intros [= <-].
Qed.

Lemma fgd_porting_issues_loop it css_fgd csgo_fgd names issues issues' :
  for_each (FgdComparator.porting_issues_step it css_fgd csgo_fgd) issues names
  = Ok issues' →
  issues' = issues ++ (names ≫= issues_of it css_fgd csgo_fgd).
Proof.
  revert issues. induction names as [|name names IH]; intros issues.
  - intros [= <-]. by rewrite app_nil_r.
  - cbn [for_each].
    destruct (FgdComparator.porting_issues_step it css_fgd csgo_fgd issues name)
      as [issues1|] eqn:Hstep; [|done].
    cbn [mbind result_bind]. intros Hrest.
    apply fgd_porting_issues_step_issues in Hstep as ->.
    apply IH in Hrest as ->. by rewrite <- app_assoc.
Qed.

(** The issue list of a report is the list of the issues of each lower-cased
    entity name of the CS:GO schema, in the iteration order of these
    names. *)
Lemma fgd_porting_issues it now css_fgd csgo_fgd report :
  FgdComparator.compare_fgds it now css_fgd csgo_fgd = Ok report →
  report_list "backward_porting_issues" report
  = iter_str it (set_of (fun e => lower (ent_name e)) (entities csgo_fgd))
      ≫= issues_of it css_fgd csgo_fgd.
Proof.
  unfold FgdComparator.compare_fgds. cbv zeta.
  destruct (for_each (FgdComparator.modified_entities_step it css_fgd csgo_fgd) _ _)
    as [modified|]; [|done].
  cbn [mbind result_bind].
  destruct (for_each (FgdComparator.porting_issues_step it css_fgd csgo_fgd) _ _)
    as [issues|] eqn:Hissues; [|done].
  cbn [mbind result_bind mret result_ret]. intros [= <-].
  by apply fgd_porting_issues_loop in Hissues as ->.
Qed.

(** An entity name found in the CS:GO schema only has exactly one issue, of
    severity High, and no other issue names that entity. *)
Lemma fgd_new_entity_issues it css_fgd csgo_fgd name :
  name ∈ (set_of (fun e => lower (ent_name e)) (entities csgo_fgd) : gset string) →
  name ∉ (set_of (fun e => lower (ent_name e)) (entities css_fgd) : gset string) →
  issues_of it css_fgd csgo_fgd name = [FgdComparator.new_entity_issue name].
Proof.
  intros Hcsgo Hcss. unfold issues_of.
  destruct (entities_named_next csgo_fgd name Hcsgo) as (e & _ & Hhead & _).
  unfold next_or_none in Hhead. rewrite Hhead.
  by rewrite (entities_named_absent css_fgd name Hcss).
Qed.

(** For an entity name found in both schemas the issues are of severity
    Medium, one per property name of the first CS:GO entity of that name
    that is not, as spelled, a property name of the first CS:S entity of
    that name. *)
Lemma fgd_matched_entity_issues it css_fgd csgo_fgd name issue :
  iteration_ok it →
  name ∈ (set_of (fun e => lower (ent_name e)) (entities csgo_fgd) : gset string) →
  name ∈ (set_of (fun e => lower (ent_name e)) (entities css_fgd) : gset string) →
  issue ∈ issues_of it css_fgd csgo_fgd name
  ↔ ∃ css_entity csgo_entity prop,
      head (entities_named css_fgd name) = Some css_entity
      ∧ head (entities_named csgo_fgd name) = Some csgo_entity
      ∧ (∃ p, p ∈ ent_properties csgo_entity ∧ prop_name p = prop)
      ∧ ¬ (∃ p, p ∈ ent_properties css_entity ∧ prop_name p = prop)
      ∧ issue = FgdComparator.new_property_issue name prop.
Proof.
  intros Hit Hcsgo Hcss. unfold issues_of.
  destruct (entities_named_next csgo_fgd name Hcsgo) as (e2 & _ & Hhead2 & _).
  destruct (entities_named_next css_fgd name Hcss) as (e1 & _ & Hhead1 & _).
  unfold next_or_none in Hhead1, Hhead2. rewrite Hhead1, Hhead2.
  rewrite list_elem_of_fmap. split.
  - intros (prop & -> & Hprop).
    apply (elem_of_iter_str it Hit) in Hprop.
    apply elem_of_difference in Hprop as [Hin Hnot].
    rewrite elem_of_set_of in Hin, Hnot.
    by exists e1, e2, prop.
  - intros (css_entity & csgo_entity & prop & [= <-] & [= <-] & Hin & Hnot & ->).
    exists prop. split; [done|]. apply (elem_of_iter_str it Hit).
    apply elem_of_difference. by rewrite !elem_of_set_of.
Qed.

(** ** The scenarios of the design, evaluated *)

(** Entity [X] with property [speed] of default 100 against [X] with [speed]
    of default 200 and a new property [torque]. *)
Example scenario_speed_torque :
  FgdComparator.compare_properties ascending
    [sample_property "speed" "100"]
    [sample_property "speed" "200"; sample_property "torque" "1"]
  = PDict
      [(KStr "new", PList [PStr "torque"]);
       (KStr "removed", PList []);
       (KStr "modified",
        PDict [(KStr "speed",
                PDict [(KStr "default_value",
                        css_csgo (PStr "100") (PStr "200"))])])].
Proof. vm_compute. reflexivity. Qed.

(** Spawnflag 1, [Locked], on the CS:S side only and spawnflag 2, [Silent],
    on the CS:GO side only. *)
Example scenario_locked_silent :
  CsgoToCss.compare_spawnflags ascending
    [sample_flag (FInt 1) "Locked"] [sample_flag (FInt 2) "Silent"]
  = ([],
     PDict [(KStr "new", PList [PStr "2 (Silent)"]);
            (KStr "removed", PList [PStr "1 (Locked)"])]).
Proof. vm_compute. reflexivity. Qed.

(** An entity found in the CS:GO schema only: one issue of severity High
    and none of severity Medium. *)
Example scenario_new_trigger :
  FgdComparator.compare_fgds ascending "2024-01-01T00:00:00"
    (sample_fgd [])
    (sample_fgd [sample_entity "new_trigger" []
                   [sample_property "speed" "100"] []])
  = Ok (PDict
          [(KStr "metadata",
            PDict [(KStr "css_version", PStr "Counter-Strike: Source");
                   (KStr "csgo_version", PStr "Counter-Strike: Global Offensive");
                   (KStr "comparison_date", PStr "2024-01-01T00:00:00")]);
           (KStr "new_entities", PList [PStr "new_trigger"]);
           (KStr "removed_entities", PList []);
           (KStr "modified_entities", PDict []);
           (KStr "backward_porting_issues",
            PList [FgdComparator.new_entity_issue "new_trigger"])]).
Proof. vm_compute. reflexivity. Qed.

(** * Further properties of the two scripts *)

(** ** The item comparators *)

Lemma dict_set_fresh k v (d : pydict) :
  k ∉ dict_keys d → dict_set k v d = d ++ [(k, v)].
Proof.
  unfold dict_keys. induction d as [|[k0 v0] d IH]; simpl; [done|].
  rewrite not_elem_of_cons. intros [Hne Hnot].
  rewrite decide_False by done. by rewrite IH.
Qed.

(** The attribute loop leaves one entry per attribute on which the two
    objects differ, in the order of the attribute list. *)
Lemma compare_attrs_entries {X : Type} (getattr : X → string → pyval)
    (attrs : list string) (css csgo : X) :
  NoDup attrs →
  compare_attrs getattr attrs css csgo []
  = (fun attr => (KStr attr, css_csgo (getattr css attr) (getattr csgo attr)))
      <$> filter (fun attr => getattr css attr ≠ getattr csgo attr) attrs.
Proof.
  unfold compare_attrs. induction attrs as [|attr attrs IH] using rev_ind;
    [done|].
  intros (Hnodup & Hfresh & _)%NoDup_app.
  rewrite foldl_app, filter_app, fmap_app, IH by done. simpl.
  rewrite filter_cons, filter_nil.
  destruct (decide (getattr css attr ≠ getattr csgo attr)) as [Hne|Heq].
  - rewrite bool_decide_eq_true_2 by done. apply dict_set_fresh.
    unfold dict_keys. rewrite <- list_fmap_compose.
    intros (attr' & [= <-] & Hin%list_elem_of_filter)%list_elem_of_fmap.
    apply (Hfresh attr); [tauto|set_solver].
  - rewrite bool_decide_eq_false_2 by done. by rewrite app_nil_r.
Qed.

Lemma compare_attrs_none {X : Type} (getattr : X → string → pyval)
    (attrs : list string) (css csgo : X) :
  NoDup attrs →
  compare_attrs getattr attrs css csgo [] = []
  ↔ ∀ attr, attr ∈ attrs → getattr css attr = getattr csgo attr.
Proof.
  intros Hnodup. rewrite compare_attrs_entries by done. split.
  - intros Hnil%fmap_nil_inv attr Hin.
    destruct (decide (getattr css attr = getattr csgo attr)) as [|Hne]; [done|].
    by destruct (filter_nil_not_elem_of _ _ attr Hnil Hne).
  - intros Hall.
    assert (filter (fun attr => getattr css attr ≠ getattr csgo attr) attrs = [])
      as ->; [|done].
    induction attrs as [|attr attrs IH]; [done|].
    rewrite filter_cons. rewrite decide_False.
    + apply IH; [by apply NoDup_cons in Hnodup as [_ ?]|]. set_solver.
    + intros Hne. apply Hne, Hall. set_solver.
Qed.

Lemma dict_or_none_None (d : pydict) : dict_or_none d = PNone ↔ d = [].
Proof. unfold dict_or_none. by destruct d. Qed.

Lemma NoDup_io_attrs : NoDup ["value_type"; "description"].
Proof. apply (bool_decide_unpack (NoDup _)). by vm_compute. Qed.

Lemma NoDup_flag_attrs : NoDup ["display_name"; "default_value"].
Proof. apply (bool_decide_unpack (NoDup _)). by vm_compute. Qed.

Lemma NoDup_property_attrs : NoDup property_attrs.
Proof. apply (bool_decide_unpack (NoDup _)). by vm_compute. Qed.

Lemma py_opt_str_inj (a b : option string) : py_opt_str a = py_opt_str b ↔ a = b.
Proof. destruct a, b; simpl; naive_solver. Qed.

Lemma io_attrs_equal (css_io csgo_io : FgdEntityIO) :
  (∀ attr, attr ∈ ["value_type"; "description"] →
     io_getattr css_io attr = io_getattr csgo_io attr)
  ↔ io_value_type css_io = io_value_type csgo_io
    ∧ io_description css_io = io_description csgo_io.
Proof.
  rewrite <- Forall_forall, !Forall_cons, Forall_nil.
  change (io_getattr css_io "value_type") with (PStr (io_value_type css_io)).
  change (io_getattr csgo_io "value_type") with (PStr (io_value_type csgo_io)).
  change (io_getattr css_io "description")
    with (py_opt_str (io_description css_io)).
  change (io_getattr csgo_io "description")
    with (py_opt_str (io_description csgo_io)).
  rewrite py_opt_str_inj. split.
  - by intros ([= ?] & ? & _).
  - by intros [-> ->].
Qed.

(** X1.  [compare_io_item] answers [None] exactly when nothing it looks at
    differs: the value type and the description in [fgdcomparator.py]; the
    class of the object, the value type and the description in
    [csgo_to_css_comparison.py].  On two objects of one class the two
    scripts give the same answer; on objects of different classes the second
    script reports the classes and nothing else. *)
Theorem compare_io_item_none_iff (css_io csgo_io : FgdEntityIO) :
  (FgdComparator.compare_io_item css_io csgo_io = PNone
   ↔ io_value_type css_io = io_value_type csgo_io
     ∧ io_description css_io = io_description csgo_io)
  ∧ (CsgoToCss.compare_io_item css_io csgo_io = PNone
     ↔ io_type css_io = io_type csgo_io
       ∧ io_value_type css_io = io_value_type csgo_io
       ∧ io_description css_io = io_description csgo_io)
  ∧ CsgoToCss.compare_io_item css_io csgo_io
    = if decide (io_type css_io = io_type csgo_io)
      then FgdComparator.compare_io_item css_io csgo_io
      else PDict [(KStr "type",
                   css_csgo (PStr (io_class_name (io_type css_io)))
                            (PStr (io_class_name (io_type csgo_io))))].
Proof.
  assert (FgdComparator.compare_io_item css_io csgo_io = PNone
          ↔ io_value_type css_io = io_value_type csgo_io
            ∧ io_description css_io = io_description csgo_io) as Hfgd.
  { unfold FgdComparator.compare_io_item.
    rewrite dict_or_none_None, compare_attrs_none by apply NoDup_io_attrs.
    apply io_attrs_equal. }
  assert (CsgoToCss.compare_io_item css_io csgo_io
          = if decide (io_type css_io = io_type csgo_io)
            then FgdComparator.compare_io_item css_io csgo_io
            else PDict [(KStr "type",
                         css_csgo (PStr (io_class_name (io_type css_io)))
                                  (PStr (io_class_name (io_type csgo_io))))])
    as Hcsgo.
  { unfold CsgoToCss.compare_io_item, FgdComparator.compare_io_item.
    destruct (decide (io_type css_io = io_type csgo_io)) as [Heq|Hne].
    - by rewrite bool_decide_eq_false_2 by (intros Hne; by apply Hne).
    - by rewrite bool_decide_eq_true_2. }
  split; [exact Hfgd|]. split; [|exact Hcsgo].
  rewrite Hcsgo. destruct (decide (io_type css_io = io_type csgo_io)).
  - rewrite Hfgd. naive_solver.
  - naive_solver.
Qed.

Lemma flag_attrs_equal (css_flag csgo_flag : FgdEntitySpawnflag) :
  (∀ attr, attr ∈ ["display_name"; "default_value"] →
     flag_getattr css_flag attr = flag_getattr csgo_flag attr)
  ↔ flag_display_name css_flag = flag_display_name csgo_flag
    ∧ flag_default_value css_flag = flag_default_value csgo_flag.
Proof.
  rewrite <- Forall_forall, !Forall_cons, Forall_nil.
  change (flag_getattr css_flag "display_name")
    with (PStr (flag_display_name css_flag)).
  change (flag_getattr csgo_flag "display_name")
    with (PStr (flag_display_name csgo_flag)).
  change (flag_getattr css_flag "default_value")
    with (PBool (flag_default_value css_flag)).
  change (flag_getattr csgo_flag "default_value")
    with (PBool (flag_default_value csgo_flag)).
  split.
  - by intros ([= ?] & [= ?] & _).
  - by intros [-> ->].
Qed.

(** X2.  The two scripts have the same [compare_spawnflag]: the one written
    out attribute by attribute and the one that loops over the attribute
    names return the same value on every pair of flags.  The value is [None]
    exactly when display name and default state agree; the flag's value
    itself is never compared. *)
Theorem compare_spawnflag_agree (css_flag csgo_flag : FgdEntitySpawnflag) :
  FgdComparator.compare_spawnflag css_flag csgo_flag
  = CsgoToCss.compare_spawnflag css_flag csgo_flag
  ∧ (CsgoToCss.compare_spawnflag css_flag csgo_flag = PNone
     ↔ flag_display_name css_flag = flag_display_name csgo_flag
       ∧ flag_default_value css_flag = flag_default_value csgo_flag).
Proof.
  split.
  - unfold FgdComparator.compare_spawnflag, CsgoToCss.compare_spawnflag.
    unfold compare_attrs. cbn [foldl].
    change (flag_getattr css_flag "display_name")
      with (PStr (flag_display_name css_flag)).
    change (flag_getattr csgo_flag "display_name")
      with (PStr (flag_display_name csgo_flag)).
    change (flag_getattr css_flag "default_value")
      with (PBool (flag_default_value css_flag)).
    change (flag_getattr csgo_flag "default_value")
      with (PBool (flag_default_value csgo_flag)).
    rewrite (bool_decide_ext
               (PStr (flag_display_name css_flag)
                ≠ PStr (flag_display_name csgo_flag))
               (flag_display_name css_flag ≠ flag_display_name csgo_flag))
      by (split; intros Hne ?; apply Hne; congruence).
    rewrite (bool_decide_ext
               (PBool (flag_default_value css_flag)
                ≠ PBool (flag_default_value csgo_flag))
               (flag_default_value css_flag ≠ flag_default_value csgo_flag))
      by (split; intros Hne ?; apply Hne; congruence).
    done.
  - unfold CsgoToCss.compare_spawnflag.
    rewrite dict_or_none_None, compare_attrs_none by apply NoDup_flag_attrs.
    apply flag_attrs_equal.
Qed.

Lemma diff_keys_dict_or_none (d : pydict) :
  diff_keys (dict_or_none d) = dict_keys d.
Proof. unfold dict_or_none. by destruct d. Qed.

Lemma compare_attrs_keys {X : Type} (getattr : X → string → pyval)
    (attrs : list string) (css csgo : X) (k : pykey) :
  NoDup attrs →
  k ∈ dict_keys (compare_attrs getattr attrs css csgo [])
  ↔ ∃ attr, k = KStr attr ∧ attr ∈ attrs
            ∧ getattr css attr ≠ getattr csgo attr.
Proof.
  intros Hnodup. rewrite compare_attrs_entries by done.
  unfold dict_keys. rewrite <- list_fmap_compose, list_elem_of_fmap.
  split.
  - intros (attr & -> & [? ?]%list_elem_of_filter). by exists attr.
  - intros (attr & -> & ? & ?). exists attr. split; [done|].
    by apply list_elem_of_filter.
Qed.

Lemma property_attrs_equal (css_prop csgo_prop : FgdEntityProperty) :
  (∀ attr, attr ∈ property_attrs →
     prop_getattr css_prop attr = prop_getattr csgo_prop attr)
  ↔ prop_value_type css_prop = prop_value_type csgo_prop
    ∧ prop_readonly css_prop = prop_readonly csgo_prop
    ∧ prop_report css_prop = prop_report csgo_prop
    ∧ prop_display_name css_prop = prop_display_name csgo_prop
    ∧ prop_default_value css_prop = prop_default_value csgo_prop
    ∧ prop_description css_prop = prop_description csgo_prop.
Proof.
  unfold property_attrs. rewrite <- Forall_forall, !Forall_cons, Forall_nil.
  change (prop_getattr css_prop "value_type")
    with (PStr (prop_value_type css_prop)).
  change (prop_getattr csgo_prop "value_type")
    with (PStr (prop_value_type csgo_prop)).
  change (prop_getattr css_prop "readonly") with (PBool (prop_readonly css_prop)).
  change (prop_getattr csgo_prop "readonly")
    with (PBool (prop_readonly csgo_prop)).
  change (prop_getattr css_prop "report") with (PBool (prop_report css_prop)).
  change (prop_getattr csgo_prop "report") with (PBool (prop_report csgo_prop)).
  change (prop_getattr css_prop "display_name")
    with (py_opt_str (prop_display_name css_prop)).
  change (prop_getattr csgo_prop "display_name")
    with (py_opt_str (prop_display_name csgo_prop)).
  change (prop_getattr css_prop "default_value")
    with (py_opt_str (prop_default_value css_prop)).
  change (prop_getattr csgo_prop "default_value")
    with (py_opt_str (prop_default_value csgo_prop)).
  change (prop_getattr css_prop "description")
    with (py_opt_str (prop_description css_prop)).
  change (prop_getattr csgo_prop "description")
    with (py_opt_str (prop_description csgo_prop)).
  rewrite !py_opt_str_inj. split.
  - by intros ([= ?] & [= ?] & [= ?] & ? & ? & ? & _).
  - by intros (-> & -> & -> & -> & -> & ->).
Qed.

(** X3.  [compare_property] of [fgdcomparator.py] reports exactly the
    attributes on which the two properties differ: a key of its answer is one
    of the six attribute names with different values, or [choices] when the
    choices differ.  The answer is [None] exactly when value type, readonly,
    report, display name, default value, description and choices all agree;
    the name of the property is not compared. *)
Theorem fgd_compare_property_reports (css_prop csgo_prop : FgdEntityProperty) :
  (∀ k, k ∈ diff_keys (FgdComparator.compare_property css_prop csgo_prop)
        ↔ (∃ attr, k = KStr attr ∧ attr ∈ property_attrs
                   ∧ prop_getattr css_prop attr ≠ prop_getattr csgo_prop attr)
          ∨ (k = KStr "choices"
             ∧ prop_choices css_prop ≠ prop_choices csgo_prop))
  ∧ (FgdComparator.compare_property css_prop csgo_prop = PNone
     ↔ prop_value_type css_prop = prop_value_type csgo_prop
       ∧ prop_readonly css_prop = prop_readonly csgo_prop
       ∧ prop_report css_prop = prop_report csgo_prop
       ∧ prop_display_name css_prop = prop_display_name csgo_prop
       ∧ prop_default_value css_prop = prop_default_value csgo_prop
       ∧ prop_description css_prop = prop_description csgo_prop
       ∧ prop_choices css_prop = prop_choices csgo_prop).
Proof.
  unfold FgdComparator.compare_property. fold property_attrs. cbv zeta. split.
  - intros k. rewrite diff_keys_dict_or_none.
    destruct (decide (prop_choices css_prop = prop_choices csgo_prop))
      as [Heq|Hne].
    + rewrite bool_decide_eq_false_2 by (intros Hne; by apply Hne).
      rewrite compare_attrs_keys by apply NoDup_property_attrs. naive_solver.
    + rewrite bool_decide_eq_true_2 by done.
      rewrite dict_keys_dict_set.
      rewrite compare_attrs_keys by apply NoDup_property_attrs. naive_solver.
  - rewrite dict_or_none_None.
    destruct (decide (prop_choices css_prop = prop_choices csgo_prop))
      as [Heq|Hne].
    + rewrite bool_decide_eq_false_2 by (intros Hne; by apply Hne).
      rewrite compare_attrs_none by apply NoDup_property_attrs.
      rewrite property_attrs_equal. naive_solver.
    + rewrite bool_decide_eq_true_2 by done. split.
      * intros Hnil. destruct (dict_set (KStr "choices") _ _) eqn:Hset; [|done].
        destruct (compare_attrs _ _ _ _ _) as [|[k v] d]; simpl in Hset;
          [done|]. by destruct (decide (k = KStr "choices")).
      * naive_solver.
Qed.

Lemma choice_value_ltb_asym (a b : FgdEntityPropertyChoice) :
  String.ltb (choice_value a) (choice_value b) = true →
  String.ltb (choice_value b) (choice_value a) = false.
Proof. apply string_ltb_asym. Qed.

Global Instance choice_not_after_trans :
  Transitive (not_after (fun a b : FgdEntityPropertyChoice =>
                           String.ltb (choice_value a) (choice_value b))).
Proof.
  intros a b c. unfold not_after.
  apply (transitivity (R := not_after String.ltb)).
Qed.

Lemma NoDup_fmap_elem_inj {A B : Type} (f : A → B) (l : list A) x y :
  NoDup (f <$> l) → x ∈ l → y ∈ l → f x = f y → x = y.
Proof.
  induction l as [|z l IH]; [by intros _ ?%elem_of_nil|].
  rewrite fmap_cons, NoDup_cons, !elem_of_cons.
  intros [Hz Hl] [->|Hx] [->|Hy] Hf; try done.
  - destruct Hz. rewrite Hf. by apply list_elem_of_fmap_2.
  - destruct Hz. rewrite <- Hf. by apply list_elem_of_fmap_2.
  - by apply IH.
Qed.

(** Two lists of choices with the same choices in another order have one
    sorted form, provided no value occurs twice. *)
Lemma sorted_choices_Permutation (c1 c2 : option (list FgdEntityPropertyChoice)) :
  default [] c1 ≡ₚ default [] c2 →
  NoDup (choice_value <$> default [] c1) →
  CsgoToCss.sorted_choices c1 = CsgoToCss.sorted_choices c2.
Proof.
  intros Hperm Hnodup. unfold CsgoToCss.sorted_choices.
  apply (Sorted_unique_strong
           (not_after (fun a b : FgdEntityPropertyChoice =>
                         String.ltb (choice_value a) (choice_value b)))).
  - intros x1 x2. rewrite !elem_of_sorted, <- Hperm. intros Hx1 Hx2 H12 H21.
    apply (NoDup_fmap_elem_inj choice_value (default [] c1)); try done.
    by apply (anti_symm (not_after String.ltb)).
  - apply sorted_Sorted, choice_value_ltb_asym.
  - apply sorted_Sorted, choice_value_ltb_asym.
  - by rewrite !sorted_Permutation.
Qed.

(** X4.  [compare_property] of [csgo_to_css_comparison.py] compares the
    choices after sorting them by value: its answer has a [choices] entry
    exactly when the two sorted lists differ, and it is [None] exactly when
    the six attributes agree and the sorted lists are equal.  Hence a
    property without choices ([None]) and one with an empty list are not told
    apart, and neither are two lists with the same choices in another order
    when no value occurs twice. *)
Theorem csgo_compare_property_choices (css_prop csgo_prop : FgdEntityProperty) :
  (KStr "choices" ∈ diff_keys (CsgoToCss.compare_property css_prop csgo_prop)
   ↔ CsgoToCss.sorted_choices (prop_choices css_prop)
     ≠ CsgoToCss.sorted_choices (prop_choices csgo_prop))
  ∧ (CsgoToCss.compare_property css_prop csgo_prop = PNone
     ↔ prop_value_type css_prop = prop_value_type csgo_prop
       ∧ prop_readonly css_prop = prop_readonly csgo_prop
       ∧ prop_report css_prop = prop_report csgo_prop
       ∧ prop_display_name css_prop = prop_display_name csgo_prop
       ∧ prop_default_value css_prop = prop_default_value csgo_prop
       ∧ prop_description css_prop = prop_description csgo_prop
       ∧ CsgoToCss.sorted_choices (prop_choices css_prop)
         = CsgoToCss.sorted_choices (prop_choices csgo_prop))
  ∧ (default [] (prop_choices css_prop) ≡ₚ default [] (prop_choices csgo_prop) →
     NoDup (choice_value <$> default [] (prop_choices css_prop)) →
     KStr "choices" ∉ diff_keys (CsgoToCss.compare_property css_prop csgo_prop)).
Proof.
  assert (∃ reported : bool,
            (reported = true
             ↔ CsgoToCss.sorted_choices (prop_choices css_prop)
               ≠ CsgoToCss.sorted_choices (prop_choices csgo_prop))
            ∧ CsgoToCss.compare_property css_prop csgo_prop
              = dict_or_none
                  (if reported
                   then dict_set (KStr "choices")
                          (css_csgo
                             (PList (choice_schema <$>
                                       CsgoToCss.sorted_choices
                                         (prop_choices css_prop)))
                             (PList (choice_schema <$>
                                       CsgoToCss.sorted_choices
                                         (prop_choices csgo_prop))))
                          (compare_attrs prop_getattr property_attrs
                             css_prop csgo_prop [])
                   else compare_attrs prop_getattr property_attrs
                          css_prop csgo_prop [])) as (reported & Hrep & ->).
  { unfold CsgoToCss.compare_property. fold property_attrs. cbv zeta.
    destruct (decide (CsgoToCss.sorted_choices (prop_choices css_prop)
                      = CsgoToCss.sorted_choices (prop_choices csgo_prop)))
      as [Heq|Hne].
    - exists false. split; [naive_solver|].
      rewrite (bool_decide_eq_false_2 (CsgoToCss.sorted_choices _ ≠ _))
        by (intros Hne; by apply Hne).
      by destruct (_ || _).
    - exists true. split; [naive_solver|].
      rewrite (bool_decide_eq_true_2 (CsgoToCss.sorted_choices _ ≠ _)) by done.
      assert (bool_decide (prop_choices css_prop ≠ None)
              || bool_decide (prop_choices csgo_prop ≠ None) = true) as ->; [|done].
      by destruct (prop_choices css_prop), (prop_choices csgo_prop). }
  assert (KStr "choices"
            ∈ diff_keys
                (dict_or_none
                   (if reported
                    then dict_set (KStr "choices")
                           (css_csgo
                              (PList (choice_schema <$>
                                        CsgoToCss.sorted_choices
                                          (prop_choices css_prop)))
                              (PList (choice_schema <$>
                                        CsgoToCss.sorted_choices
                                          (prop_choices csgo_prop))))
                           (compare_attrs prop_getattr property_attrs
                              css_prop csgo_prop [])
                    else compare_attrs prop_getattr property_attrs
                           css_prop csgo_prop []))
          ↔ CsgoToCss.sorted_choices (prop_choices css_prop)
            ≠ CsgoToCss.sorted_choices (prop_choices csgo_prop)) as Hkey.
  { rewrite diff_keys_dict_or_none, <- Hrep. destruct reported.
    - rewrite dict_keys_dict_set. naive_solver.
    - rewrite compare_attrs_keys by apply NoDup_property_attrs. split; [|done].
      intros (attr & [= <-] & Hin & _). revert Hin. unfold property_attrs.
      rewrite !elem_of_cons, elem_of_nil. naive_solver. }
  split; [exact Hkey|]. split.
  - rewrite dict_or_none_None. destruct reported.
    + split.
      * intros Hnil. destruct (dict_set (KStr "choices") _ _) eqn:Hset; [|done].
        destruct (compare_attrs _ _ _ _ _) as [|[k v] d]; simpl in Hset;
          [done|]. by destruct (decide (k = KStr "choices")).
      * intros (_ & _ & _ & _ & _ & _ & Heq). by apply Hrep in Heq.
    + rewrite compare_attrs_none by apply NoDup_property_attrs.
      rewrite property_attrs_equal.
      assert (CsgoToCss.sorted_choices (prop_choices css_prop)
              = CsgoToCss.sorted_choices (prop_choices csgo_prop)) as Heq.
      { destruct (decide (CsgoToCss.sorted_choices (prop_choices css_prop)
                          = CsgoToCss.sorted_choices (prop_choices csgo_prop)))
          as [|Hne]; [done|]. by apply Hrep in Hne. }
      naive_solver.
  - intros Hperm Hnodup. rewrite Hkey. intros Hne. apply Hne.
    by apply sorted_choices_Permutation.
Qed.

Lemma csgo_compare_property_choices_witness :
  default [] (prop_choices
                (sample_enum (Some [sample_choice "1" "On"; sample_choice "0" "Off"])))
  ≡ₚ default [] (prop_choices
                   (sample_enum
                      (Some [sample_choice "0" "Off"; sample_choice "1" "On"])))
  ∧ NoDup (choice_value
             <$> default []
                   (prop_choices
                      (sample_enum
                         (Some [sample_choice "1" "On"; sample_choice "0" "Off"]))))
  ∧ KStr "choices"
      ∉ diff_keys
          (CsgoToCss.compare_property
             (sample_enum (Some [sample_choice "1" "On"; sample_choice "0" "Off"]))
             (sample_enum (Some [sample_choice "0" "Off"; sample_choice "1" "On"]))).
Proof.
  assert (default [] (prop_choices
                        (sample_enum
                           (Some [sample_choice "1" "On"; sample_choice "0" "Off"])))
          ≡ₚ default [] (prop_choices
                           (sample_enum
                              (Some [sample_choice "0" "Off";
                                     sample_choice "1" "On"])))) as Hperm
    by apply Permutation_swap.
  assert (NoDup (choice_value
                   <$> default []
                         (prop_choices
                            (sample_enum
                               (Some [sample_choice "1" "On";
                                      sample_choice "0" "Off"]))))) as Hnodup.
  { apply (bool_decide_unpack (NoDup _)). vm_compute. exact I. }
  split; [exact Hperm|]. split; [exact Hnodup|].
  exact (proj2 (proj2 (csgo_compare_property_choices _ _)) Hperm Hnodup).
Defined.

(** ** The collection comparators *)

Lemma dict_or_none_falsy (d : pydict) :
  truthy (dict_or_none d) = false ↔ dict_or_none d = PNone.
Proof. unfold dict_or_none. by destruct d. Qed.

Lemma fgd_compare_property_falsy a b :
  truthy (FgdComparator.compare_property a b) = false
  ↔ FgdComparator.compare_property a b = PNone.
Proof. apply dict_or_none_falsy. Qed.

Lemma csgo_compare_property_falsy a b :
  truthy (CsgoToCss.compare_property a b) = false
  ↔ CsgoToCss.compare_property a b = PNone.
Proof. apply dict_or_none_falsy. Qed.

Lemma fgd_compare_io_item_falsy a b :
  truthy (FgdComparator.compare_io_item a b) = false
  ↔ FgdComparator.compare_io_item a b = PNone.
Proof. apply dict_or_none_falsy. Qed.

Lemma csgo_compare_io_item_falsy a b :
  truthy (CsgoToCss.compare_io_item a b) = false
  ↔ CsgoToCss.compare_io_item a b = PNone.
Proof.
  unfold CsgoToCss.compare_io_item. case_bool_decide; [done|].
  apply dict_or_none_falsy.
Qed.

Lemma collections_report_None new removed modified :
  collections_report new removed modified = PNone
  ↔ new = [] ∧ removed = [] ∧ modified = [].
Proof.
  unfold collections_report. split.
  - destruct (_ || _ || _) eqn:Hc; [done|]. intros _.
    apply orb_false_elim in Hc as [Hc Hm]. apply orb_false_elim in Hc as [Hn Hr].
    apply fmap_PStr_nil in Hn, Hr. by apply truthy_PDict_nil in Hm.
  - by intros (-> & -> & ->).
Qed.

Lemma collections_report_entry new removed modified k :
  report_entry "modified" k (collections_report new removed modified)
  = dict_get k modified.
Proof.
  unfold collections_report.
  destruct (_ || _ || _) eqn:Hc; [done|].
  apply orb_false_elim in Hc as [_ Hm]. apply truthy_PDict_nil in Hm.
  by subst.
Qed.

Lemma collections_report_strings new removed modified :
  report_strings "new" (collections_report new removed modified) = new
  ∧ report_strings "removed" (collections_report new removed modified) = removed
  ∧ report_keys "modified" (collections_report new removed modified)
    = dict_keys modified.
Proof. apply differences_report. Qed.

Lemma sorted_str_nil l : sorted_str l = [] ↔ l = [].
Proof.
  split; [|by intros ->]. intros Hnil.
  apply Permutation_nil. rewrite <- Hnil. unfold sorted_str.
  by rewrite sorted_Permutation.
Qed.

Lemma fgd_compare_properties_report it css csgo :
  FgdComparator.compare_properties it css csgo
  = collections_report
      (sorted_str (iter_str it
                     (dom (dict_of (fun prop => lower (prop_name prop)) csgo)
                      ∖ dom (dict_of (fun prop => lower (prop_name prop)) css))))
      (sorted_str (iter_str it
                     (dom (dict_of (fun prop => lower (prop_name prop)) css)
                      ∖ dom (dict_of (fun prop => lower (prop_name prop)) csgo))))
      (modified_items it prop_name FgdComparator.compare_property
         (dict_of (fun prop => lower (prop_name prop)) css)
         (dict_of (fun prop => lower (prop_name prop)) csgo)).
Proof. reflexivity. Qed.

Lemma fgd_compare_io_report it css csgo io_type :
  FgdComparator.compare_io it css csgo io_type
  = collections_report
      (sorted_str (iter_str it
                     (dom (dict_of (fun io => lower (io_name io)) csgo)
                      ∖ dom (dict_of (fun io => lower (io_name io)) css))))
      (sorted_str (iter_str it
                     (dom (dict_of (fun io => lower (io_name io)) css)
                      ∖ dom (dict_of (fun io => lower (io_name io)) csgo))))
      (modified_items it io_name FgdComparator.compare_io_item
         (dict_of (fun io => lower (io_name io)) css)
         (dict_of (fun io => lower (io_name io)) csgo)).
Proof.
  unfold FgdComparator.compare_io, collections_report. cbv zeta.
  unfold py_any, dict_values. cbn [fmap list_fmap snd existsb].
  by rewrite orb_false_r, orb_assoc.
Qed.

Lemma csgo_compare_io_report it css csgo :
  CsgoToCss.compare_io it css csgo
  = collections_report
      (iter_str it (dom (dict_of (fun io => lower (io_name io)) csgo)
                    ∖ dom (dict_of (fun io => lower (io_name io)) css)))
      (iter_str it (dom (dict_of (fun io => lower (io_name io)) css)
                    ∖ dom (dict_of (fun io => lower (io_name io)) csgo)))
      (modified_items it io_name CsgoToCss.compare_io_item
         (dict_of (fun io => lower (io_name io)) css)
         (dict_of (fun io => lower (io_name io)) csgo)).
Proof. reflexivity. Qed.

(** The early [return None] of [compare_properties] for two empty lists
    gives what the rest of the function would give. *)
Lemma csgo_compare_properties_report it css csgo :
  iteration_ok it →
  CsgoToCss.compare_properties it css csgo
  = collections_report
      (iter_str it (dom (dict_of (fun prop => lower (prop_name prop)) csgo)
                    ∖ dom (dict_of (fun prop => lower (prop_name prop)) css)))
      (iter_str it (dom (dict_of (fun prop => lower (prop_name prop)) css)
                    ∖ dom (dict_of (fun prop => lower (prop_name prop)) csgo)))
      (modified_items it prop_name CsgoToCss.compare_property
         (dict_of (fun prop => lower (prop_name prop)) css)
         (dict_of (fun prop => lower (prop_name prop)) csgo)).
Proof.
  intros Hit. destruct css as [|p css]; [destruct csgo as [|q csgo]|];
    try reflexivity.
  unfold CsgoToCss.compare_properties, modified_items.
  change (dict_of (fun prop => lower (prop_name prop)) []) with
    (∅ : gmap string FgdEntityProperty).
  rewrite dom_empty_L.
  assert ((∅ : gset string) ∖ ∅ = ∅) as -> by set_solver.
  assert ((∅ : gset string) ∩ ∅ = ∅) as -> by set_solver.
  by rewrite (iter_str_empty it Hit).
Qed.

Section collections.
Context (it : iteration) (Hit : iteration_ok it).
Context {X : Type} (name : X → string) (compare_item : X → X → pyval).
Context (css csgo : list X).

Lemma last_named_Some xs key x :
  last_named name xs key = Some x → x ∈ xs ∧ lower (name x) = key.
Proof.
  unfold last_named.
  rewrite <- (dict_of_lookup (fun x => lower (name x))).
  apply (dict_of_lookup_Some (fun x => lower (name x))).
Qed.

Lemma named_in_last_named xs key :
  named_in name xs key ↔ is_Some (last_named name xs key).
Proof.
  rewrite named_in_dom, elem_of_dom. unfold last_named.
  by rewrite <- (dict_of_lookup (fun x => lower (name x))).
Qed.

Lemma iter_str_nil (S : gset string) : iter_str it S = [] ↔ ∀ x, x ∉ S.
Proof.
  split.
  - intros Hnil x Hx. apply (elem_of_iter_str it Hit) in Hx.
    rewrite Hnil in Hx. by apply elem_of_nil in Hx.
  - intros Hall. destruct (iter_str it S) as [|x l] eqn:Heq; [done|].
    destruct (Hall x). apply (elem_of_iter_str it Hit). rewrite Heq. left.
Qed.

Lemma modified_fold_get n keys acc :
  NoDup keys →
  dict_get (KStr n)
    (foldl (fun modified key =>
              match dict_of (fun x => lower (name x)) css !! key,
                    dict_of (fun x => lower (name x)) csgo !! key with
              | Some css_item, Some csgo_item =>
                  let item_diff := compare_item css_item csgo_item in
                  if truthy item_diff
                  then dict_set (KStr (name csgo_item)) item_diff modified
                  else modified
              | _, _ => modified
              end) acc keys)
  = from_option Some (dict_get (KStr n) acc)
      (if decide (lower n ∈ keys)
       then modified_entry name compare_item css csgo n else None).
Proof.
  intros Hnodup. revert acc.
  induction Hnodup as [|key keys Hfresh Hnodup IH]; intros acc.
  - cbn [foldl]. by destruct (decide (lower n ∈ [])) as [?%elem_of_nil|].
  - cbn [foldl]. rewrite IH. clear IH.
    destruct (decide (lower n = key)) as [<-|Hne].
    + rewrite (decide_False (P := lower n ∈ keys)) by done.
      rewrite (decide_True (P := lower n ∈ lower n :: keys)) by left.
      unfold modified_entry, last_named.
      rewrite <- !(dict_of_lookup (fun x => lower (name x))).
      cbn [from_option].
      destruct (dict_of _ css !! lower n) as [a|]; [|done].
      destruct (dict_of _ csgo !! lower n) as [b|]; [|done].
      cbv zeta. destruct (decide (name b = n)) as [<-|Hname].
      * destruct (truthy (compare_item a b)); [|done].
        by rewrite dict_get_dict_set_eq.
      * destruct (truthy (compare_item a b)); [|done].
        rewrite dict_get_dict_set_ne by congruence. done.
    + match goal with
      | |- from_option Some (dict_get _ ?acc') _ = _ =>
          assert (dict_get (KStr n) acc' = dict_get (KStr n) acc) as ->
      end.
      { destruct (dict_of _ css !! key) as [a|]; [|done].
        destruct (dict_of _ csgo !! key) as [b|] eqn:Hb; [|done].
        apply dict_of_lookup_Some in Hb as [_ Hb].
        cbv zeta. destruct (truthy (compare_item a b)); [|done].
        apply dict_get_dict_set_ne. intros [= Heq]. apply Hne.
        by rewrite <- Heq. }
      destruct (decide (lower n ∈ keys)) as [Hin|Hnot].
      * by rewrite decide_True by by right.
      * rewrite decide_False; [done|].
        intros [?|?]%elem_of_cons; [by destruct Hne|done].
Qed.

(** The entry of [modified] under a name does not depend on the order in
    which the common keys are visited. *)
Lemma modified_items_get n :
  dict_get (KStr n)
    (modified_items it name compare_item
       (dict_of (fun x => lower (name x)) css)
       (dict_of (fun x => lower (name x)) csgo))
  = modified_entry name compare_item css csgo n.
Proof.
  unfold modified_items. rewrite modified_fold_get by by apply NoDup_iter_str.
  destruct (decide (lower n ∈ _)) as [Hin|Hnot].
  - simpl. by destruct (modified_entry _ _ _ _ _).
  - simpl. rewrite (elem_of_iter_str it Hit), elem_of_intersection,
      !elem_of_dom in Hnot.
    unfold modified_entry, last_named.
    rewrite <- !(dict_of_lookup (fun x => lower (name x))).
    destruct (dict_of _ css !! lower n) as [a|] eqn:Ha; [|done].
    destruct (dict_of _ csgo !! lower n) as [b|] eqn:Hb; [|done].
    destruct Hnot. by split.
Qed.

Lemma modified_items_nil :
  modified_items it name compare_item
    (dict_of (fun x => lower (name x)) css)
    (dict_of (fun x => lower (name x)) csgo) = []
  ↔ ∀ key a b, last_named name css key = Some a →
               last_named name csgo key = Some b →
               truthy (compare_item a b) = false.
Proof.
  unfold last_named. split.
  - intros Hnil key a b Ha Hb.
    rewrite <- (dict_of_lookup (fun x => lower (name x))) in Ha, Hb.
    destruct (truthy (compare_item a b)) eqn:Ht; [|done].
    assert (KStr (name b)
              ∈ dict_keys
                  (modified_items it name compare_item
                     (dict_of (fun x => lower (name x)) css)
                     (dict_of (fun x => lower (name x)) csgo))) as Hin.
    { apply (modified_items_stored it name compare_item _ _ key a b);
        try done.
      rewrite (elem_of_iter_str it Hit), elem_of_intersection, !elem_of_dom.
      by split; eexists. }
    rewrite Hnil in Hin. by apply elem_of_nil in Hin.
  - intros Hall.
    destruct (modified_items _ _ _ _ _) as [|[k v] d] eqn:Hm; [done|].
    assert (k ∈ dict_keys
                  (modified_items it name compare_item
                     (dict_of (fun x => lower (name x)) css)
                     (dict_of (fun x => lower (name x)) csgo))) as Hin
      by (rewrite Hm; left).
    apply modified_items_keys in Hin as (key & a & b & _ & Ha & Hb & Ht & _).
    rewrite (dict_of_lookup (fun x => lower (name x))) in Ha, Hb.
    by rewrite (Hall key a b Ha Hb) in Ht.
Qed.

Lemma one_sided_names_nil :
  (iter_str it (dom (dict_of (fun x => lower (name x)) csgo)
                ∖ dom (dict_of (fun x => lower (name x)) css)) = []
   ∧ iter_str it (dom (dict_of (fun x => lower (name x)) css)
                  ∖ dom (dict_of (fun x => lower (name x)) csgo)) = [])
  ↔ ∀ key, named_in name css key ↔ named_in name csgo key.
Proof.
  rewrite !iter_str_nil. setoid_rewrite elem_of_difference.
  setoid_rewrite named_in_dom. split.
  - intros [H1 H2] key. split; intros Hin.
    + destruct (decide (key ∈ dom (dict_of (fun x => lower (name x)) csgo)))
        as [|Hnot]; [done|]. destruct (H2 key). by split.
    + destruct (decide (key ∈ dom (dict_of (fun x => lower (name x)) css)))
        as [|Hnot]; [done|]. destruct (H1 key). by split.
  - intros Hall. split; intros key [Hin Hnot]; apply Hnot, Hall, Hin.
Qed.

(** A collection comparator answers [None] exactly when the two sides have
    the same lower-cased names and the item comparator finds nothing between
    the two items kept under each name. *)
Lemma collections_none (sort : list string → list string) :
  (∀ l, sort l = [] ↔ l = []) →
  (∀ a b, truthy (compare_item a b) = false ↔ compare_item a b = PNone) →
  collections_report
    (sort (iter_str it (dom (dict_of (fun x => lower (name x)) csgo)
                        ∖ dom (dict_of (fun x => lower (name x)) css))))
    (sort (iter_str it (dom (dict_of (fun x => lower (name x)) css)
                        ∖ dom (dict_of (fun x => lower (name x)) csgo))))
    (modified_items it name compare_item
       (dict_of (fun x => lower (name x)) css)
       (dict_of (fun x => lower (name x)) csgo)) = PNone
  ↔ (∀ key, named_in name css key ↔ named_in name csgo key)
    ∧ (∀ key a b, last_named name css key = Some a →
                  last_named name csgo key = Some b →
                  compare_item a b = PNone).
Proof.
  intros Hsort Hfalsy.
  rewrite collections_report_None, !Hsort, modified_items_nil.
  rewrite <- one_sided_names_nil. setoid_rewrite Hfalsy. tauto.
Qed.

End collections.

(** X5.  What the collection comparators of both scripts store in
    [modified]: under the name [n] stands the item comparator's answer for
    the last CS:S item and the last CS:GO item whose lower-cased name is that
    of [n], provided that answer is not empty and the CS:GO item is spelled
    [n]; under any other name stands nothing.  The entry does not depend on
    the order in which the set of common names is visited. *)
Theorem modified_entries_exact (it : iteration) :
  iteration_ok it →
  (∀ css csgo n,
     report_entry "modified" (KStr n)
       (FgdComparator.compare_properties it css csgo)
     = modified_entry prop_name FgdComparator.compare_property css csgo n)
  ∧ (∀ css csgo n,
       report_entry "modified" (KStr n)
         (CsgoToCss.compare_properties it css csgo)
       = modified_entry prop_name CsgoToCss.compare_property css csgo n)
  ∧ (∀ css csgo io_type n,
       report_entry "modified" (KStr n)
         (FgdComparator.compare_io it css csgo io_type)
       = modified_entry io_name FgdComparator.compare_io_item css csgo n)
  ∧ (∀ css csgo n,
       report_entry "modified" (KStr n) (CsgoToCss.compare_io it css csgo)
       = modified_entry io_name CsgoToCss.compare_io_item css csgo n).
Proof.
  intros Hit. split; [|split; [|split]].
  - intros css csgo n.
    rewrite fgd_compare_properties_report, collections_report_entry.
    by apply modified_items_get.
  - intros css csgo n.
    rewrite csgo_compare_properties_report, collections_report_entry by done.
    by apply modified_items_get.
  - intros css csgo io_type n.
    rewrite fgd_compare_io_report, collections_report_entry.
    by apply modified_items_get.
  - intros css csgo n.
    rewrite csgo_compare_io_report, collections_report_entry.
    by apply modified_items_get.
Qed.

Lemma modified_entries_exact_witness :
  iteration_ok descending
  ∧ report_entry "modified" (KStr "Speed")
      (FgdComparator.compare_properties descending
         [sample_property "speed" "100"; sample_property "SPEED" "150"]
         [sample_property "speed" "100"; sample_property "Speed" "200"])
    = modified_entry prop_name FgdComparator.compare_property
        [sample_property "speed" "100"; sample_property "SPEED" "150"]
        [sample_property "speed" "100"; sample_property "Speed" "200"] "Speed".
Proof.
  split; [apply descending_ok|].
  apply (proj1 (modified_entries_exact descending descending_ok)).
Defined.

(** X6.  A collection comparator answers [None] exactly when nothing
    differs: the two lists have the same lower-cased names, and under every
    name the item comparator finds nothing between the last item of the one
    list and the last item of the other.  This holds for [compare_properties]
    and [compare_io] of both scripts; the early return of
    [compare_properties] in [csgo_to_css_comparison.py] for two empty lists is
    one case of it. *)
Theorem collections_none_iff (it : iteration) :
  iteration_ok it →
  (∀ css csgo,
     FgdComparator.compare_properties it css csgo = PNone
     ↔ (∀ key, named_in prop_name css key ↔ named_in prop_name csgo key)
       ∧ (∀ key a b, last_named prop_name css key = Some a →
                     last_named prop_name csgo key = Some b →
                     FgdComparator.compare_property a b = PNone))
  ∧ (∀ css csgo,
       CsgoToCss.compare_properties it css csgo = PNone
       ↔ (∀ key, named_in prop_name css key ↔ named_in prop_name csgo key)
         ∧ (∀ key a b, last_named prop_name css key = Some a →
                       last_named prop_name csgo key = Some b →
                       CsgoToCss.compare_property a b = PNone))
  ∧ (∀ css csgo io_type,
       FgdComparator.compare_io it css csgo io_type = PNone
       ↔ (∀ key, named_in io_name css key ↔ named_in io_name csgo key)
         ∧ (∀ key a b, last_named io_name css key = Some a →
                       last_named io_name csgo key = Some b →
                       FgdComparator.compare_io_item a b = PNone))
  ∧ (∀ css csgo,
       CsgoToCss.compare_io it css csgo = PNone
       ↔ (∀ key, named_in io_name css key ↔ named_in io_name csgo key)
         ∧ (∀ key a b, last_named io_name css key = Some a →
                       last_named io_name csgo key = Some b →
                       CsgoToCss.compare_io_item a b = PNone)).
Proof.
  intros Hit. split; [|split; [|split]].
  - intros css csgo. rewrite fgd_compare_properties_report.
    apply (collections_none it Hit prop_name _ css csgo sorted_str
             sorted_str_nil fgd_compare_property_falsy).
  - intros css csgo. rewrite csgo_compare_properties_report by done.
    apply (collections_none it Hit prop_name _ css csgo (fun l => l)
             (fun l => reflexivity (l = [])) csgo_compare_property_falsy).
  - intros css csgo io_type. rewrite fgd_compare_io_report.
    apply (collections_none it Hit io_name _ css csgo sorted_str
             sorted_str_nil fgd_compare_io_item_falsy).
  - intros css csgo. rewrite csgo_compare_io_report.
    apply (collections_none it Hit io_name _ css csgo (fun l => l)
             (fun l => reflexivity (l = [])) csgo_compare_io_item_falsy).
Qed.

Lemma collections_none_iff_witness :
  iteration_ok ascending
  ∧ (FgdComparator.compare_properties ascending
       [sample_property "speed" "1"; sample_property "Speed" "100"]
       [sample_property "SPEED" "100"] = PNone
     ↔ (∀ key,
          named_in prop_name
            [sample_property "speed" "1"; sample_property "Speed" "100"] key
          ↔ named_in prop_name [sample_property "SPEED" "100"] key)
       ∧ (∀ key a b,
            last_named prop_name
              [sample_property "speed" "1"; sample_property "Speed" "100"] key
            = Some a →
            last_named prop_name [sample_property "SPEED" "100"] key = Some b →
            FgdComparator.compare_property a b = PNone)).
Proof.
  split; [apply ascending_ok|].
  apply (proj1 (collections_none_iff ascending ascending_ok)).
Defined.

Lemma compare_attrs_nil_sym {X : Type} (getattr : X → string → pyval)
    (attrs : list string) (a b : X) :
  NoDup attrs →
  compare_attrs getattr attrs a b [] = []
  ↔ compare_attrs getattr attrs b a [] = [].
Proof.
  intros Hnodup. rewrite !compare_attrs_none by done.
  split; intros Hall attr Hin; symmetry; by apply Hall.
Qed.

Lemma dict_set_not_nil k v (d : pydict) : dict_set k v d ≠ [].
Proof.
  destruct d as [|[k' v'] d]; simpl; [done|]. by destruct (decide (k' = k)).
Qed.

Lemma fgd_compare_io_item_sym a b :
  FgdComparator.compare_io_item a b = PNone
  ↔ FgdComparator.compare_io_item b a = PNone.
Proof.
  unfold FgdComparator.compare_io_item. rewrite !dict_or_none_None.
  apply compare_attrs_nil_sym, NoDup_io_attrs.
Qed.

Lemma csgo_compare_io_item_sym a b :
  CsgoToCss.compare_io_item a b = PNone
  ↔ CsgoToCss.compare_io_item b a = PNone.
Proof.
  unfold CsgoToCss.compare_io_item.
  destruct (decide (io_type a = io_type b)) as [Heq|Hne].
  - rewrite (bool_decide_eq_false_2 (io_type a ≠ io_type b))
      by (intros Hne; by apply Hne).
    rewrite (bool_decide_eq_false_2 (io_type b ≠ io_type a))
      by (intros Hne; by apply Hne).
    rewrite !dict_or_none_None. apply compare_attrs_nil_sym, NoDup_io_attrs.
  - rewrite (bool_decide_eq_true_2 (io_type a ≠ io_type b)) by done.
    rewrite (bool_decide_eq_true_2 (io_type b ≠ io_type a)) by congruence.
    done.
Qed.

Lemma fgd_compare_property_sym a b :
  FgdComparator.compare_property a b = PNone
  ↔ FgdComparator.compare_property b a = PNone.
Proof.
  unfold FgdComparator.compare_property. cbv zeta. rewrite !dict_or_none_None.
  destruct (decide (prop_choices a = prop_choices b)) as [Heq|Hne].
  - rewrite (bool_decide_eq_false_2 (prop_choices a ≠ prop_choices b))
      by (intros Hne; by apply Hne).
    rewrite (bool_decide_eq_false_2 (prop_choices b ≠ prop_choices a))
      by (intros Hne; by apply Hne).
    apply compare_attrs_nil_sym, NoDup_property_attrs.
  - rewrite (bool_decide_eq_true_2 (prop_choices a ≠ prop_choices b)) by done.
    rewrite (bool_decide_eq_true_2 (prop_choices b ≠ prop_choices a))
      by congruence.
    split; intros Hnil; by apply dict_set_not_nil in Hnil.
Qed.

Lemma csgo_compare_property_sym a b :
  CsgoToCss.compare_property a b = PNone
  ↔ CsgoToCss.compare_property b a = PNone.
Proof.
  unfold CsgoToCss.compare_property. cbv zeta. rewrite !dict_or_none_None.
  destruct (decide (CsgoToCss.sorted_choices (prop_choices a)
                    = CsgoToCss.sorted_choices (prop_choices b)))
    as [Heq|Hne].
  - rewrite (bool_decide_eq_false_2
               (CsgoToCss.sorted_choices (prop_choices a)
                ≠ CsgoToCss.sorted_choices (prop_choices b)))
      by (intros Hne; by apply Hne).
    rewrite (bool_decide_eq_false_2
               (CsgoToCss.sorted_choices (prop_choices b)
                ≠ CsgoToCss.sorted_choices (prop_choices a)))
      by (intros Hne; by apply Hne).
    destruct (_ || _), (_ || _);
      apply compare_attrs_nil_sym, NoDup_property_attrs.
  - rewrite (bool_decide_eq_true_2
               (CsgoToCss.sorted_choices (prop_choices a)
                ≠ CsgoToCss.sorted_choices (prop_choices b))) by done.
    rewrite (bool_decide_eq_true_2
               (CsgoToCss.sorted_choices (prop_choices b)
                ≠ CsgoToCss.sorted_choices (prop_choices a))) by congruence.
    assert (bool_decide (prop_choices a ≠ None)
            || bool_decide (prop_choices b ≠ None) = true) as ->
      by by destruct (prop_choices a), (prop_choices b).
    assert (bool_decide (prop_choices b ≠ None)
            || bool_decide (prop_choices a ≠ None) = true) as ->
      by by destruct (prop_choices a), (prop_choices b).
    split; intros Hnil; by apply dict_set_not_nil in Hnil.
Qed.

Lemma collections_none_swap (it : iteration) {X : Type} (name : X → string)
    (compare_item : X → X → pyval) (css csgo : list X)
    (sort : list string → list string) :
  iteration_ok it →
  (∀ l, sort l = [] ↔ l = []) →
  (∀ a b, truthy (compare_item a b) = false ↔ compare_item a b = PNone) →
  (∀ a b, compare_item a b = PNone ↔ compare_item b a = PNone) →
  collections_report
    (sort (iter_str it (dom (dict_of (fun x => lower (name x)) csgo)
                        ∖ dom (dict_of (fun x => lower (name x)) css))))
    (sort (iter_str it (dom (dict_of (fun x => lower (name x)) css)
                        ∖ dom (dict_of (fun x => lower (name x)) csgo))))
    (modified_items it name compare_item
       (dict_of (fun x => lower (name x)) css)
       (dict_of (fun x => lower (name x)) csgo)) = PNone
  ↔ collections_report
      (sort (iter_str it (dom (dict_of (fun x => lower (name x)) css)
                          ∖ dom (dict_of (fun x => lower (name x)) csgo))))
      (sort (iter_str it (dom (dict_of (fun x => lower (name x)) csgo)
                          ∖ dom (dict_of (fun x => lower (name x)) css))))
      (modified_items it name compare_item
         (dict_of (fun x => lower (name x)) csgo)
         (dict_of (fun x => lower (name x)) css)) = PNone.
Proof.
  intros Hit Hsort Hfalsy Hsym.
  rewrite (collections_none it Hit name compare_item css csgo sort Hsort Hfalsy).
  rewrite (collections_none it Hit name compare_item csgo css sort Hsort Hfalsy).
  split; intros [Hnames Hpairs]; (split; [by intros key|]);
    intros key a b Ha Hb; apply Hsym; by apply (Hpairs key).
Qed.

(** X7.  Comparing in the other direction exchanges the two one-sided
    lists and keeps the verdict: what [compare_properties] and [compare_io]
    list as new for (CS:S, CS:GO) is what they list as removed for
    (CS:GO, CS:S), and the answer is [None] in the one direction exactly
    when it is in the other. *)
Theorem swapped_sides_exchange_new_and_removed (it : iteration) :
  iteration_ok it →
  (∀ css csgo,
     report_strings "new" (FgdComparator.compare_properties it css csgo)
     = report_strings "removed" (FgdComparator.compare_properties it csgo css)
     ∧ report_strings "removed" (FgdComparator.compare_properties it css csgo)
       = report_strings "new" (FgdComparator.compare_properties it csgo css)
     ∧ (FgdComparator.compare_properties it css csgo = PNone
        ↔ FgdComparator.compare_properties it csgo css = PNone))
  ∧ (∀ css csgo,
       report_strings "new" (CsgoToCss.compare_properties it css csgo)
       = report_strings "removed" (CsgoToCss.compare_properties it csgo css)
       ∧ report_strings "removed" (CsgoToCss.compare_properties it css csgo)
         = report_strings "new" (CsgoToCss.compare_properties it csgo css)
       ∧ (CsgoToCss.compare_properties it css csgo = PNone
          ↔ CsgoToCss.compare_properties it csgo css = PNone))
  ∧ (∀ css csgo io_type,
       report_strings "new" (FgdComparator.compare_io it css csgo io_type)
       = report_strings "removed" (FgdComparator.compare_io it csgo css io_type)
       ∧ report_strings "removed" (FgdComparator.compare_io it css csgo io_type)
         = report_strings "new" (FgdComparator.compare_io it csgo css io_type)
       ∧ (FgdComparator.compare_io it css csgo io_type = PNone
          ↔ FgdComparator.compare_io it csgo css io_type = PNone))
  ∧ (∀ css csgo,
       report_strings "new" (CsgoToCss.compare_io it css csgo)
       = report_strings "removed" (CsgoToCss.compare_io it csgo css)
       ∧ report_strings "removed" (CsgoToCss.compare_io it css csgo)
         = report_strings "new" (CsgoToCss.compare_io it csgo css)
       ∧ (CsgoToCss.compare_io it css csgo = PNone
          ↔ CsgoToCss.compare_io it csgo css = PNone)).
Proof.
  intros Hit. split; [|split; [|split]].
  - intros css csgo. rewrite !fgd_compare_properties_report.
    split; [|split].
    + by rewrite (proj1 (collections_report_strings _ _ _)),
        (proj1 (proj2 (collections_report_strings _ _ _))).
    + by rewrite (proj1 (collections_report_strings _ _ _)),
        (proj1 (proj2 (collections_report_strings _ _ _))).
    + apply (collections_none_swap it prop_name _ css csgo sorted_str Hit
               sorted_str_nil fgd_compare_property_falsy
               fgd_compare_property_sym).
  - intros css csgo. rewrite !csgo_compare_properties_report by done.
    split; [|split].
    + by rewrite (proj1 (collections_report_strings _ _ _)),
        (proj1 (proj2 (collections_report_strings _ _ _))).
    + by rewrite (proj1 (collections_report_strings _ _ _)),
        (proj1 (proj2 (collections_report_strings _ _ _))).
    + apply (collections_none_swap it prop_name _ css csgo (fun l => l) Hit
               (fun l => reflexivity (l = [])) csgo_compare_property_falsy
               csgo_compare_property_sym).
  - intros css csgo io_type. rewrite !fgd_compare_io_report.
    split; [|split].
    + by rewrite (proj1 (collections_report_strings _ _ _)),
        (proj1 (proj2 (collections_report_strings _ _ _))).
    + by rewrite (proj1 (collections_report_strings _ _ _)),
        (proj1 (proj2 (collections_report_strings _ _ _))).
    + apply (collections_none_swap it io_name _ css csgo sorted_str Hit
               sorted_str_nil fgd_compare_io_item_falsy
               fgd_compare_io_item_sym).
  - intros css csgo. rewrite !csgo_compare_io_report.
    split; [|split].
    + by rewrite (proj1 (collections_report_strings _ _ _)),
        (proj1 (proj2 (collections_report_strings _ _ _))).
    + by rewrite (proj1 (collections_report_strings _ _ _)),
        (proj1 (proj2 (collections_report_strings _ _ _))).
    + apply (collections_none_swap it io_name _ css csgo (fun l => l) Hit
               (fun l => reflexivity (l = [])) csgo_compare_io_item_falsy
               csgo_compare_io_item_sym).
Qed.

Lemma swapped_sides_exchange_new_and_removed_witness :
  iteration_ok ascending
  ∧ report_strings "new"
      (CsgoToCss.compare_io ascending
         [sample_io FgdEntityInput "Kill"]
         [sample_io FgdEntityInput "Kill"; sample_io FgdEntityInput "Toggle"])
    = report_strings "removed"
        (CsgoToCss.compare_io ascending
           [sample_io FgdEntityInput "Kill"; sample_io FgdEntityInput "Toggle"]
           [sample_io FgdEntityInput "Kill"]).
Proof.
  split; [apply ascending_ok|].
  apply (proj2 (proj2 (proj2
           (swapped_sides_exchange_new_and_removed ascending ascending_ok)))).
Defined.

Lemma csgo_compare_fgds_lists it css_fgd csgo_fgd printed report :
  CsgoToCss.compare_fgds it css_fgd csgo_fgd = (printed, Ok report) →
  report_strings "new_entities" report
  = iter_str it (set_of (fun e => lower (ent_name e)) (entities csgo_fgd)
                 ∖ set_of (fun e => lower (ent_name e)) (entities css_fgd))
  ∧ report_strings "removed_entities" report
    = iter_str it (set_of (fun e => lower (ent_name e)) (entities css_fgd)
                   ∖ set_of (fun e => lower (ent_name e)) (entities csgo_fgd)).
Proof.
  unfold CsgoToCss.compare_fgds. cbv zeta.
  destruct (CsgoToCss.modified_entities_loop it css_fgd csgo_fgd _ _)
    as [printed' [modified|]]; [|done].
  simpl. intros [= _ <-].
  split; by erewrite report_strings_of_list by reflexivity.
Qed.

(** X8.  The two scripts list the same names: each one-sided list of
    [fgdcomparator.py] (new and removed properties, inputs or outputs, and
    entities) is the sorted form of the list that
    [csgo_to_css_comparison.py] gives for the same input. *)
Theorem fgd_lists_are_sorted_csgo_lists (it : iteration) :
  iteration_ok it →
  (∀ css csgo,
     report_strings "new" (FgdComparator.compare_properties it css csgo)
     = sorted_str (report_strings "new" (CsgoToCss.compare_properties it css csgo))
     ∧ report_strings "removed" (FgdComparator.compare_properties it css csgo)
       = sorted_str
           (report_strings "removed" (CsgoToCss.compare_properties it css csgo)))
  ∧ (∀ css csgo io_type,
       report_strings "new" (FgdComparator.compare_io it css csgo io_type)
       = sorted_str (report_strings "new" (CsgoToCss.compare_io it css csgo))
       ∧ report_strings "removed" (FgdComparator.compare_io it css csgo io_type)
         = sorted_str (report_strings "removed" (CsgoToCss.compare_io it css csgo)))
  ∧ (∀ now css_fgd csgo_fgd report printed report',
       FgdComparator.compare_fgds it now css_fgd csgo_fgd = Ok report →
       CsgoToCss.compare_fgds it css_fgd csgo_fgd = (printed, Ok report') →
       report_strings "new_entities" report
       = sorted_str (report_strings "new_entities" report')
       ∧ report_strings "removed_entities" report
         = sorted_str (report_strings "removed_entities" report')).
Proof.
  intros Hit. split; [|split].
  - intros css csgo.
    rewrite fgd_compare_properties_report, csgo_compare_properties_report
      by done.
    by rewrite !(proj1 (collections_report_strings _ _ _)),
      !(proj1 (proj2 (collections_report_strings _ _ _))).
  - intros css csgo io_type.
    rewrite fgd_compare_io_report, csgo_compare_io_report.
    by rewrite !(proj1 (collections_report_strings _ _ _)),
      !(proj1 (proj2 (collections_report_strings _ _ _))).
  - intros now css_fgd csgo_fgd report printed report' Hfgd Hcsgo.
    apply fgd_compare_fgds_lists in Hfgd as [-> ->].
    by apply csgo_compare_fgds_lists in Hcsgo as [-> ->].
Qed.

Lemma fgd_lists_are_sorted_csgo_lists_witness :
  iteration_ok descending
  ∧ report_strings "new"
      (FgdComparator.compare_properties descending []
         [sample_property "torque" "1"; sample_property "speed" "100"])
    = sorted_str
        (report_strings "new"
           (CsgoToCss.compare_properties descending []
              [sample_property "torque" "1"; sample_property "speed" "100"])).
Proof.
  split; [apply descending_ok|].
  apply (proj1 (fgd_lists_are_sorted_csgo_lists descending descending_ok)).
Defined.

(** ** Spawnflags *)

Lemma py_int_raise (v : flag_literal) (e : exn) :
  py_int v = Raise e → e = ValueError (flag_literal_str v).
Proof.
  destruct v as [z|s]; simpl; [done|]. unfold int_of_string.
  destruct (match strip s with
            | String "-"%char s' => Z.opp <$> parse_digits 0 false s'
            | String "+"%char s' => parse_digits 0 false s'
            | _ => parse_digits 0 false (strip s)
            end); congruence.
Qed.

Lemma flag_dict_from_result flags (m : gmap Z FgdEntitySpawnflag) :
  match head (filter (fun flag => ¬ integer_valued flag) flags) with
  | Some flag =>
      for_each (fun m flag => value ← py_int (flag_value flag);
                              mret (<[value := flag]> m)) m flags
      = Raise (ValueError (flag_literal_str (flag_value flag)))
  | None =>
      ∃ d, for_each (fun m flag => value ← py_int (flag_value flag);
                                   mret (<[value := flag]> m)) m flags = Ok d
  end.
Proof.
  revert m. induction flags as [|flag flags IH]; intros m; [by eexists|].
  rewrite filter_cons. cbn [for_each].
  destruct (py_int (flag_value flag)) as [value|e] eqn:Hv.
  - rewrite decide_False by (intros Hnot; apply Hnot; by exists value).
    apply IH.
  - rewrite decide_True by (intros [value Hvalue]; congruence).
    simpl. by rewrite (py_int_raise _ _ Hv).
Qed.

(** X9.  [compare_spawnflags] of [fgdcomparator.py] ends with a
    [ValueError] exactly when some flag value is not an integer literal, and
    the exception is the one [int()] raises for the first such flag, the
    CS:S flags being converted before the CS:GO flags.  When every value is
    an integer it returns [None] or a dict of the three collections. *)
Theorem fgd_compare_spawnflags_first_rejected (it : iteration)
    (css_flags csgo_flags : list FgdEntitySpawnflag) :
  match head (filter (fun flag => ¬ integer_valued flag)
                     (css_flags ++ csgo_flags)) with
  | Some flag =>
      FgdComparator.compare_spawnflags it css_flags csgo_flags
      = Raise (ValueError (flag_literal_str (flag_value flag)))
  | None =>
      ∃ diff,
        FgdComparator.compare_spawnflags it css_flags csgo_flags = Ok diff
        ∧ three_collections diff
  end.
Proof.
  rewrite filter_app, head_app.
  unfold FgdComparator.compare_spawnflags, FgdComparator.flag_dict.
  pose proof (flag_dict_from_result css_flags ∅) as Hcss.
  destruct (head (filter _ css_flags)) as [flag|].
  - by rewrite Hcss.
  - destruct Hcss as [d1 ->]. simpl.
    pose proof (flag_dict_from_result csgo_flags ∅) as Hcsgo.
    destruct (head (filter _ csgo_flags)) as [flag|].
    + by rewrite Hcsgo.
    + destruct Hcsgo as [d2 ->]. simpl.
      destruct (foldl _ _ _) as [[new removed] modified].
      match goal with
      | |- context [if ?c then _ else _] => destruct c
      end.
      * eexists. split; [done|]. right. by do 3 eexists.
      * eexists. split; [done|]. by left.
Qed.

Lemma flag_dict_from_lookup flags (m d : gmap Z FgdEntitySpawnflag) value :
  for_each (fun m flag => value ← py_int (flag_value flag);
                          mret (<[value := flag]> m)) m flags = Ok d →
  d !! value = match last_flag flags value with
               | Some flag => Some flag
               | None => m !! value
               end.
Proof.
  unfold last_flag. revert m.
  induction flags as [|flag flags IH]; intros m; [by intros [= ->]|].
  cbn [for_each]. rewrite filter_cons.
  destruct (py_int (flag_value flag)) as [v|e] eqn:Hv; [|done]. simpl.
  intros Hd. rewrite (IH _ Hd).
  destruct (decide (Ok v = Ok value)) as [[= ->]|Hne].
  - rewrite last_cons. destruct (last (filter _ flags)); [done|].
    by rewrite lookup_insert_eq.
  - destruct (last (filter _ flags)); [done|].
    rewrite lookup_insert_ne; [done|]. intros ->. by destruct Hne.
Qed.

Lemma flag_dict_lookup flags (d : gmap Z FgdEntitySpawnflag) value :
  FgdComparator.flag_dict flags = Ok d → d !! value = last_flag flags value.
Proof.
  intros Hd. rewrite (flag_dict_from_lookup _ _ _ value Hd).
  by destruct (last_flag flags value).
Qed.

Lemma fgd_compare_spawnflag_truthy a b :
  truthy (FgdComparator.compare_spawnflag a b) = true
  ↔ FgdComparator.compare_spawnflag a b ≠ PNone.
Proof.
  unfold FgdComparator.compare_spawnflag, dict_or_none. cbv zeta.
  by destruct (truthy (PDict _)) eqn:Ht.
Qed.

Section spawnflag_fold.
Context (d1 d2 : gmap Z FgdEntitySpawnflag).

(** The loop over [all_values] appends the flags found on one side only in
    the order of the visit. *)
Lemma spawnflag_fold_lists values :
  (foldl (FgdComparator.spawnflag_step d1 d2) ([], [], []) values).1.1
  = flag_schema
      <$> omap (fun value => match d1 !! value with
                             | None => d2 !! value
                             | Some _ => None
                             end) values
  ∧ (foldl (FgdComparator.spawnflag_step d1 d2) ([], [], []) values).1.2
    = flag_schema
        <$> omap (fun value => match d2 !! value with
                               | None => d1 !! value
                               | Some _ => None
                               end) values.
Proof.
  induction values as [|value values [IHnew IHremoved]] using rev_ind; [done|].
  rewrite foldl_app, !omap_app, !fmap_app. cbn [foldl omap].
  destruct (foldl _ _ values) as [[new removed] modified].
  simpl in IHnew, IHremoved. subst new removed.
  unfold FgdComparator.spawnflag_step.
  destruct (d1 !! value) as [a|] eqn:Ha, (d2 !! value) as [b|] eqn:Hb; simpl;
    rewrite ?Ha, ?Hb; simpl; rewrite ?app_nil_r; try done.
  by destruct (truthy (FgdComparator.compare_spawnflag a b)).
Qed.

Lemma spawnflag_fold_modified values k :
  k ∈ dict_keys (foldl (FgdComparator.spawnflag_step d1 d2) ([], [], []) values).2
  ↔ ∃ value a b,
      value ∈ values ∧ d1 !! value = Some a ∧ d2 !! value = Some b
      ∧ FgdComparator.compare_spawnflag a b ≠ PNone
      ∧ k = KStr (pretty value).
Proof.
  induction values as [|value values IH] using rev_ind.
  - simpl. split; [by intros ?%elem_of_nil|].
    by intros (value & a & b & ?%elem_of_nil & _).
  - rewrite foldl_app. cbn [foldl].
    destruct (foldl _ _ values) as [[new removed] modified]. simpl in IH.
    assert (∀ P : Z → Prop,
              (∃ value', value' ∈ values ++ [value] ∧ P value')
              ↔ (∃ value', value' ∈ values ∧ P value') ∨ P value) as Hsplit.
    { intros P. setoid_rewrite elem_of_app.
      setoid_rewrite list_elem_of_singleton. naive_solver. }
    unfold FgdComparator.spawnflag_step.
    destruct (d1 !! value) as [a|] eqn:Ha, (d2 !! value) as [b|] eqn:Hb; simpl.
    + destruct (truthy (FgdComparator.compare_spawnflag a b)) eqn:Ht; simpl.
      * rewrite dict_keys_dict_set, IH.
        apply fgd_compare_spawnflag_truthy in Ht. split.
        -- intros [->|(value' & a' & b' & Hin & ?)].
           ++ exists value, a, b. set_solver.
           ++ exists value', a', b'. set_solver.
        -- intros (value' & a' & b' & [Hin| ->%list_elem_of_singleton]%elem_of_app
                   & Ha' & Hb' & Hne & ->).
           ++ right. by exists value', a', b'.
           ++ by left.
      * rewrite IH. split.
        -- intros (value' & a' & b' & Hin & ?).
           exists value', a', b'. set_solver.
        -- intros (value' & a' & b' & [Hin| ->%list_elem_of_singleton]%elem_of_app
                   & Ha' & Hb' & Hne & ->).
           ++ by exists value', a', b'.
           ++ apply fgd_compare_spawnflag_truthy in Hne. congruence.
    + rewrite IH. split.
      * intros (value' & a' & b' & Hin & ?). exists value', a', b'. set_solver.
      * intros (value' & a' & b' & [Hin| ->%list_elem_of_singleton]%elem_of_app
                & Ha' & Hb' & Hne & ->); [|congruence].
        by exists value', a', b'.
    + rewrite IH. split.
      * intros (value' & a' & b' & Hin & ?). exists value', a', b'. set_solver.
      * intros (value' & a' & b' & [Hin| ->%list_elem_of_singleton]%elem_of_app
                & Ha' & Hb' & Hne & ->); [|congruence].
        by exists value', a', b'.
    + rewrite IH. split.
      * intros (value' & a' & b' & Hin & ?). exists value', a', b'. set_solver.
      * intros (value' & a' & b' & [Hin| ->%list_elem_of_singleton]%elem_of_app
                & Ha' & Hb' & Hne & ->); [|congruence].
        by exists value', a', b'.
Qed.
End spawnflag_fold.

Lemma flags_report (new removed : list pyval) (modified : pydict) :
  let differences :=
    [(KStr "new", PList new); (KStr "removed", PList removed);
     (KStr "modified", PDict modified)] in
  let report :=
    if py_any (dict_values differences) then PDict differences else PNone in
  report_list "new" report = new
  ∧ report_list "removed" report = removed
  ∧ report_keys "modified" report = dict_keys modified.
Proof. by destruct new, removed, modified. Qed.

(** X10.  What [compare_spawnflags] of [fgdcomparator.py] reports when it
    returns: a flag is listed as new when the CS:GO side has its integer
    value and the CS:S side has not, as removed in the opposite case, and
    [modified] has the key of an integer value exactly when both sides have
    it and [compare_spawnflag] tells the two flags apart.  For every value
    the flag looked at is the last one of its list with that value. *)
Theorem fgd_compare_spawnflags_content (it : iteration)
    (css_flags csgo_flags : list FgdEntitySpawnflag) (diff : pyval) :
  iteration_ok it →
  FgdComparator.compare_spawnflags it css_flags csgo_flags = Ok diff →
  (∀ v, v ∈ report_list "new" diff
        ↔ ∃ value flag,
            last_flag css_flags value = None
            ∧ last_flag csgo_flags value = Some flag
            ∧ v = flag_schema flag)
  ∧ (∀ v, v ∈ report_list "removed" diff
          ↔ ∃ value flag,
              last_flag css_flags value = Some flag
              ∧ last_flag csgo_flags value = None
              ∧ v = flag_schema flag)
  ∧ (∀ k, k ∈ report_keys "modified" diff
          ↔ ∃ value css_flag csgo_flag,
              last_flag css_flags value = Some css_flag
              ∧ last_flag csgo_flags value = Some csgo_flag
              ∧ FgdComparator.compare_spawnflag css_flag csgo_flag ≠ PNone
              ∧ k = KStr (pretty value)).
Proof.
  intros Hit. unfold FgdComparator.compare_spawnflags.
  destruct (FgdComparator.flag_dict css_flags) as [d1|] eqn:Hd1; [|done].
  destruct (FgdComparator.flag_dict csgo_flags) as [d2|] eqn:Hd2; [|done].
  simpl.
  pose proof (spawnflag_fold_lists d1 d2 (iter_int it (dom d1 ∪ dom d2)))
    as [Hnew Hremoved].
  pose proof (spawnflag_fold_modified d1 d2 (iter_int it (dom d1 ∪ dom d2)))
    as Hmodified.
  destruct (foldl _ _ _) as [[new removed] modified].
  simpl in Hnew, Hremoved, Hmodified. intros [= <-].
  pose proof (flags_report new removed modified) as Hreport.
  cbv zeta in Hreport.
  match goal with
  | |- context [report_list "new" ?report] =>
      change (if py_any _ then _ else _) with report in Hreport
  end.
  destruct Hreport as (-> & -> & ->).
  assert (∀ value, value ∈ iter_int it (dom d1 ∪ dom d2)
                   ↔ is_Some (d1 !! value) ∨ is_Some (d2 !! value)) as Hin.
  { intros value.
    by rewrite (elem_of_iter_int it Hit), elem_of_union, !elem_of_dom. }
  split; [|split].
  - intros v. rewrite Hnew, list_elem_of_fmap. split.
    + intros (flag & -> & (value & _ & Hflag)%list_elem_of_omap).
      exists value, flag.
      rewrite <- (flag_dict_lookup _ _ value Hd1),
        <- (flag_dict_lookup _ _ value Hd2).
      by destruct (d1 !! value).
    + intros (value & flag & H1 & H2 & ->).
      rewrite <- (flag_dict_lookup _ _ value Hd1) in H1.
      rewrite <- (flag_dict_lookup _ _ value Hd2) in H2.
      exists flag. split; [done|]. apply list_elem_of_omap.
      exists value. rewrite Hin, H1, H2. split; [by right|done].
  - intros v. rewrite Hremoved, list_elem_of_fmap. split.
    + intros (flag & -> & (value & _ & Hflag)%list_elem_of_omap).
      exists value, flag.
      rewrite <- (flag_dict_lookup _ _ value Hd1),
        <- (flag_dict_lookup _ _ value Hd2).
      by destruct (d2 !! value).
    + intros (value & flag & H1 & H2 & ->).
      rewrite <- (flag_dict_lookup _ _ value Hd1) in H1.
      rewrite <- (flag_dict_lookup _ _ value Hd2) in H2.
      exists flag. split; [done|]. apply list_elem_of_omap.
      exists value. rewrite Hin, H1, H2. split; [by left|done].
  - intros k. rewrite Hmodified. split.
    + intros (value & a & b & _ & Ha & Hb & Hne & ->).
      exists value, a, b.
      by rewrite <- (flag_dict_lookup _ _ value Hd1),
        <- (flag_dict_lookup _ _ value Hd2).
    + intros (value & a & b & Ha & Hb & Hne & ->).
      rewrite <- (flag_dict_lookup _ _ value Hd1) in Ha.
      rewrite <- (flag_dict_lookup _ _ value Hd2) in Hb.
      exists value, a, b. rewrite Hin, Ha. by repeat split; try left.
Qed.

Lemma fgd_compare_spawnflags_content_witness :
  iteration_ok ascending
  ∧ ∃ diff,
      FgdComparator.compare_spawnflags ascending
        [sample_flag (FInt 1) "Locked"; sample_flag (FStr " 1 ") "Closed"]
        [sample_flag (FInt 1) "Locked"; sample_flag (FInt 2) "Silent"] = Ok diff
      ∧ ∀ k, k ∈ report_keys "modified" diff
             ↔ ∃ value css_flag csgo_flag,
                 last_flag
                   [sample_flag (FInt 1) "Locked";
                    sample_flag (FStr " 1 ") "Closed"] value = Some css_flag
                 ∧ last_flag
                     [sample_flag (FInt 1) "Locked";
                      sample_flag (FInt 2) "Silent"] value = Some csgo_flag
                 ∧ FgdComparator.compare_spawnflag css_flag csgo_flag ≠ PNone
                 ∧ k = KStr (pretty value).
Proof.
  split; [exact ascending_ok|].
  eexists. split; [vm_compute; reflexivity|].
  apply (fgd_compare_spawnflags_content ascending
           [sample_flag (FInt 1) "Locked"; sample_flag (FStr " 1 ") "Closed"]
           [sample_flag (FInt 1) "Locked"; sample_flag (FInt 2) "Silent"]
           _ ascending_ok).
  vm_compute; reflexivity.
Defined.

Lemma flag_warnings_nil label flags :
  flag_warnings label flags = [] ↔ Forall integer_valued flags.
Proof.
  split; [|apply flag_warnings_integer].
  unfold flag_warnings. intros Hnil%fmap_nil_inv.
  apply Forall_forall. intros flag Hin.
  destruct (decide (integer_valued flag)) as [|Hnot]; [done|].
  by destruct (filter_nil_not_elem_of _ _ flag Hnil Hnot).
Qed.

(** X11.  [compare_spawnflags] of [csgo_to_css_comparison.py] never fails
    on a flag value: it prints one line for every flag whose value is not an
    integer literal, the CS:S flags first, and returns the diff of the two
    lists without those flags.  Nothing is printed exactly when every value
    is an integer. *)
Theorem csgo_spawnflags_warned_and_skipped (it : iteration)
    (css_flags csgo_flags : list FgdEntitySpawnflag) :
  (CsgoToCss.compare_spawnflags it css_flags csgo_flags).1
  = flag_warnings "CS:S" css_flags ++ flag_warnings "CS:GO" csgo_flags
  ∧ (CsgoToCss.compare_spawnflags it css_flags csgo_flags).2
    = (CsgoToCss.compare_spawnflags it (filter integer_valued css_flags)
                                       (filter integer_valued csgo_flags)).2
  ∧ length (CsgoToCss.compare_spawnflags it css_flags csgo_flags).1
    = length (filter (fun flag => ¬ integer_valued flag)
                     (css_flags ++ csgo_flags))
  ∧ ((CsgoToCss.compare_spawnflags it css_flags csgo_flags).1 = []
     ↔ Forall integer_valued (css_flags ++ csgo_flags)).
Proof.
  rewrite csgo_compare_spawnflags_skips. cbn [fst snd].
  split; [done|]. split; [done|]. split.
  - unfold flag_warnings.
    by rewrite filter_app, !length_app, !length_fmap.
  - rewrite Forall_app, <- !(flag_warnings_nil "CS:S" css_flags),
      <- !(flag_warnings_nil "CS:GO" csgo_flags).
    split; [by intros [-> ->]%app_eq_nil|by intros [-> ->]].
Qed.

Lemma filtered_report (new removed : list pyval) (modified : pydict) :
  let differences :=
    [(KStr "new", PList new); (KStr "removed", PList removed);
     (KStr "modified", PDict modified)] in
  let report :=
    dict_or_none (filter (fun kv => truthy kv.2) differences) in
  report_list "new" report = new
  ∧ report_list "removed" report = removed
  ∧ report_keys "modified" report = dict_keys modified.
Proof. by destruct new, removed, modified. Qed.

Lemma csgo_compare_spawnflag_truthy a b :
  truthy (CsgoToCss.compare_spawnflag a b) = true
  ↔ CsgoToCss.compare_spawnflag a b ≠ PNone.
Proof.
  unfold CsgoToCss.compare_spawnflag, dict_or_none. cbv zeta.
  by destruct (truthy (PDict _)) eqn:Ht.
Qed.

Section flag_groups.
Context (d1 d2 : gmap Z (list FgdEntitySpawnflag)).

Lemma flag_pairs_keys value pairs acc k :
  k ∈ dict_keys
        (foldl (fun modified '(css_flag, csgo_flag) =>
                  let flag_diff :=
                    CsgoToCss.compare_spawnflag css_flag csgo_flag in
                  if truthy flag_diff
                  then dict_set (KStr (CsgoToCss.flag_label value csgo_flag))
                         flag_diff modified
                  else modified) acc pairs)
  ↔ k ∈ dict_keys acc
    ∨ ∃ a b, (a, b) ∈ pairs
             ∧ CsgoToCss.compare_spawnflag a b ≠ PNone
             ∧ k = KStr (CsgoToCss.flag_label value b).
Proof.
  induction pairs as [|[a b] pairs IH] using rev_ind.
  - simpl. split; [by left|]. intros [?|(a & b & ?%elem_of_nil & _)]; done.
  - rewrite foldl_app. cbn [foldl]. cbv zeta.
    destruct (truthy (CsgoToCss.compare_spawnflag a b)) eqn:Ht.
    + rewrite dict_keys_dict_set, IH.
      apply csgo_compare_spawnflag_truthy in Ht. split.
      * intros [->|[?|(a' & b' & Hin & ?)]]; [|by left|].
        -- right. exists a, b. set_solver.
        -- right. exists a', b'. set_solver.
      * intros [?|(a' & b' & [Hin|[= -> ->]%list_elem_of_singleton]%elem_of_app
                   & Hne & ->)].
        -- right. by left.
        -- right. right. by exists a', b'.
        -- by left.
    + rewrite IH. split.
      * intros [?|(a' & b' & Hin & ?)]; [by left|].
        right. exists a', b'. set_solver.
      * intros [?|(a' & b' & [Hin|[= -> ->]%list_elem_of_singleton]%elem_of_app
                   & Hne & ->)]; [by left| |].
        -- right. by exists a', b'.
        -- apply csgo_compare_spawnflag_truthy in Hne. congruence.
Qed.

Lemma flag_groups_keys values k :
  k ∈ dict_keys
        (foldl (fun modified flag_value' =>
                  let css_flag_list := default [] (d1 !! flag_value') in
                  let csgo_flag_list := default [] (d2 !! flag_value') in
                  foldl (fun modified '(css_flag, csgo_flag) =>
                           let flag_diff :=
                             CsgoToCss.compare_spawnflag css_flag csgo_flag in
                           if truthy flag_diff
                           then dict_set
                                  (KStr (CsgoToCss.flag_label flag_value'
                                           csgo_flag))
                                  flag_diff modified
                           else modified)
                        modified (zip css_flag_list csgo_flag_list))
               [] values)
  ↔ ∃ value a b,
      value ∈ values
      ∧ (a, b) ∈ zip (default [] (d1 !! value)) (default [] (d2 !! value))
      ∧ CsgoToCss.compare_spawnflag a b ≠ PNone
      ∧ k = KStr (CsgoToCss.flag_label value b).
Proof.
  induction values as [|value values IH] using rev_ind.
  - simpl. split; [by intros ?%elem_of_nil|].
    by intros (value & a & b & ?%elem_of_nil & _).
  - rewrite foldl_app. cbn [foldl]. cbv zeta.
    rewrite flag_pairs_keys, IH. split.
    + intros [(value' & a & b & Hin & ?)|(a & b & ?)].
      * exists value', a, b. set_solver.
      * exists value, a, b. set_solver.
    + intros (value' & a & b & [Hin| ->%list_elem_of_singleton]%elem_of_app & ?).
      * left. by exists value', a, b.
      * right. by exists a, b.
Qed.
End flag_groups.

(** X12.  What [compare_spawnflags] of [csgo_to_css_comparison.py]
    reports: every CS:GO flag whose integer value no CS:S flag has is listed
    as new under the label [value (display name)], flags that share a value
    each with an entry of their own; removed likewise; and [modified] has
    the label of a CS:GO flag exactly when it stands at the same position,
    among the flags of its value, as a CS:S flag that [compare_spawnflag]
    tells apart from it. *)
Theorem csgo_compare_spawnflags_content (it : iteration)
    (css_flags csgo_flags : list FgdEntitySpawnflag) :
  iteration_ok it →
  let diff := (CsgoToCss.compare_spawnflags it css_flags csgo_flags).2 in
  (∀ v, v ∈ report_list "new" diff
        ↔ ∃ value flag,
            flag ∈ flags_valued csgo_flags value
            ∧ flags_valued css_flags value = []
            ∧ v = PStr (CsgoToCss.flag_label value flag))
  ∧ (∀ v, v ∈ report_list "removed" diff
          ↔ ∃ value flag,
              flag ∈ flags_valued css_flags value
              ∧ flags_valued csgo_flags value = []
              ∧ v = PStr (CsgoToCss.flag_label value flag))
  ∧ (∀ k, k ∈ report_keys "modified" diff
          ↔ ∃ value css_flag csgo_flag,
              (css_flag, csgo_flag)
                ∈ zip (flags_valued css_flags value)
                      (flags_valued csgo_flags value)
              ∧ CsgoToCss.compare_spawnflag css_flag csgo_flag ≠ PNone
              ∧ k = KStr (CsgoToCss.flag_label value csgo_flag)).
Proof.
  intros Hit. unfold CsgoToCss.compare_spawnflags.
  pose proof (group_flags_lookup "CS:S" css_flags) as H1.
  pose proof (group_flags_lookup "CS:GO" csgo_flags) as H2.
  destruct (CsgoToCss.group_flags "CS:S" css_flags) as [printed1 d1].
  destruct (CsgoToCss.group_flags "CS:GO" csgo_flags) as [printed2 d2].
  cbn [snd] in H1, H2. cbv zeta. cbn [snd].
  assert (∀ value, default [] (d1 !! value) = flags_valued css_flags value)
    as Hg1.
  { intros value. rewrite H1. unfold flags_valued. by destruct (filter _ _). }
  assert (∀ value, default [] (d2 !! value) = flags_valued csgo_flags value)
    as Hg2.
  { intros value. rewrite H2. unfold flags_valued. by destruct (filter _ _). }
  assert (∀ value, value ∈ dom d1 ↔ flags_valued css_flags value ≠ []) as Hd1.
  { intros value. rewrite elem_of_dom, H1. unfold flags_valued.
    destruct (filter _ _); [|done]. split; [by intros [? ?]|done]. }
  assert (∀ value, value ∈ dom d2 ↔ flags_valued csgo_flags value ≠ []) as Hd2.
  { intros value. rewrite elem_of_dom, H2. unfold flags_valued.
    destruct (filter _ _); [|done]. split; [by intros [? ?]|done]. }
  match goal with
  | |- context [dict_or_none
                  (filter _ [(_, PList ?new); (_, PList ?removed);
                             (_, PDict ?modified)])] =>
      destruct (filtered_report new removed modified) as (-> & -> & ->)
  end.
  split; [|split].
  - intros v. unfold CsgoToCss.flag_labels. rewrite list_elem_of_bind.
    setoid_rewrite list_elem_of_fmap.
    setoid_rewrite (elem_of_iter_int it Hit).
    setoid_rewrite elem_of_difference.
    setoid_rewrite Hg2. setoid_rewrite Hd1. setoid_rewrite Hd2. split.
    + intros (value & (flag & -> & Hin) & Hne & Hnil).
      exists value, flag. split; [done|]. split; [|done].
      by destruct (flags_valued css_flags value); [|destruct Hnil].
    + intros (value & flag & Hin & Hnil & ->). exists value.
      split; [by exists flag|]. rewrite Hnil. split; [|by intros Hne].
      intros Hnil'. rewrite Hnil' in Hin. by apply elem_of_nil in Hin.
  - intros v. unfold CsgoToCss.flag_labels. rewrite list_elem_of_bind.
    setoid_rewrite list_elem_of_fmap.
    setoid_rewrite (elem_of_iter_int it Hit).
    setoid_rewrite elem_of_difference.
    setoid_rewrite Hg1. setoid_rewrite Hd1. setoid_rewrite Hd2. split.
    + intros (value & (flag & -> & Hin) & Hne & Hnil).
      exists value, flag. split; [done|]. split; [|done].
      by destruct (flags_valued csgo_flags value); [|destruct Hnil].
    + intros (value & flag & Hin & Hnil & ->). exists value.
      split; [by exists flag|]. rewrite Hnil. split; [|by intros Hne].
      intros Hnil'. rewrite Hnil' in Hin. by apply elem_of_nil in Hin.
  - intros k. rewrite flag_groups_keys.
    setoid_rewrite (elem_of_iter_int it Hit).
    setoid_rewrite elem_of_intersection.
    setoid_rewrite Hg1. setoid_rewrite Hg2.
    setoid_rewrite Hd1. setoid_rewrite Hd2. split.
    + intros (value & a & b & _ & ?). by exists value, a, b.
    + intros (value & a & b & Hin & ?). exists value, a, b.
      split; [|done]. split.
      * apply elem_of_zip_l in Hin. intros Hnil. rewrite Hnil in Hin.
        by apply elem_of_nil in Hin.
      * apply elem_of_zip_r in Hin. intros Hnil. rewrite Hnil in Hin.
        by apply elem_of_nil in Hin.
Qed.

Lemma csgo_compare_spawnflags_content_witness :
  iteration_ok ascending
  ∧ ∀ v, v ∈ report_list "new"
               (CsgoToCss.compare_spawnflags ascending
                  [sample_flag (FInt 1) "Locked"]
                  [sample_flag (FInt 2) "Silent";
                   sample_flag (FStr "2") "Quiet"]).2
         ↔ ∃ value flag,
             flag ∈ flags_valued
                      [sample_flag (FInt 2) "Silent";
                       sample_flag (FStr "2") "Quiet"] value
             ∧ flags_valued [sample_flag (FInt 1) "Locked"] value = []
             ∧ v = PStr (CsgoToCss.flag_label value flag).
Proof.
  split; [exact ascending_ok|].
  apply (proj1 (csgo_compare_spawnflags_content ascending
                  [sample_flag (FInt 1) "Locked"]
                  [sample_flag (FInt 2) "Silent";
                   sample_flag (FStr "2") "Quiet"] ascending_ok)).
Defined.

(** ** Entities in [fgdcomparator.py] *)

Lemma count_changes_counts_of diff :
  three_collections diff →
  FgdComparator.count_changes diff = Ok (counts_py (counts_of diff)).
Proof.
  intros [->|(new & removed & modified & ->)]; [done|].
  unfold FgdComparator.count_changes, counts_of, counts_py. simpl.
  unfold dict_keys. by rewrite length_fmap.
Qed.

Lemma three_collections_falsy diff :
  three_collections diff → truthy diff = false ↔ diff = PNone.
Proof. by intros [->|(new & removed & modified & ->)]. Qed.

Lemma fgd_compare_spawnflags_shape it css_flags csgo_flags diff :
  FgdComparator.compare_spawnflags it css_flags csgo_flags = Ok diff →
  three_collections diff.
Proof.
  unfold FgdComparator.compare_spawnflags.
  destruct (FgdComparator.flag_dict css_flags) as [d1|]; [|done].
  destruct (FgdComparator.flag_dict csgo_flags) as [d2|]; [|done]. simpl.
  destruct (foldl _ _ _) as [[new removed] modified].
  match goal with
  | |- context [if ?c then _ else _] => destruct c
  end; intros [= <-]; [right|by left]. by do 3 eexists.
Qed.

Lemma cond_set_nil (c : bool) k v (d : pydict) :
  (if c then dict_set k v d else d) = [] ↔ c = false ∧ d = [].
Proof.
  destruct c; [|naive_solver]. split; [|by intros [? _]].
  intros Hnil. by apply dict_set_not_nil in Hnil.
Qed.

Lemma bool_decide_ne_false `{EqDecision A} (x y : A) :
  bool_decide (x ≠ y) = false ↔ x = y.
Proof.
  rewrite bool_decide_eq_false. split; [|by intros -> Hne].
  intros Hnn. by destruct (decide (x = y)).
Qed.

Lemma fgd_compare_definitions_falsy css_defs csgo_defs :
  truthy (FgdComparator.compare_definitions css_defs csgo_defs) = false
  ↔ filter (fun d => FgdComparator.is_base d) css_defs
    = filter (fun d => FgdComparator.is_base d) csgo_defs.
Proof.
  unfold FgdComparator.compare_definitions. cbv zeta.
  case_bool_decide as Hne; simpl; [done|]. by split.
Qed.

(** [compare_entity] passes on what [compare_spawnflags] raises and raises
    nothing of its own: the lookups of [count_changes] and of
    [calculate_porting_complexity] all succeed. *)
Lemma fgd_compare_entity_full it css_entity csgo_entity :
  match FgdComparator.compare_spawnflags it (ent_spawnflags css_entity)
          (ent_spawnflags csgo_entity) with
  | Raise e =>
      FgdComparator.compare_entity it css_entity csgo_entity = Raise e
  | Ok spawnflag_diff =>
      ∃ differences,
        FgdComparator.compare_entity it css_entity csgo_entity = Ok differences
        ∧ (differences = []
           ↔ ent_class_type css_entity = ent_class_type csgo_entity
             ∧ ent_description css_entity = ent_description csgo_entity
             ∧ filter (fun d => FgdComparator.is_base d)
                      (ent_definitions css_entity)
               = filter (fun d => FgdComparator.is_base d)
                        (ent_definitions csgo_entity)
             ∧ FgdComparator.compare_properties it
                 (ent_properties css_entity) (ent_properties csgo_entity)
               = PNone
             ∧ spawnflag_diff = PNone
             ∧ FgdComparator.compare_io it (ent_inputs css_entity)
                 (ent_inputs csgo_entity) "input" = PNone
             ∧ FgdComparator.compare_io it (ent_outputs css_entity)
                 (ent_outputs csgo_entity) "output" = PNone)
        ∧ (differences = []
           ∨ ∃ s,
               has_summary differences s
               ∧ properties_changed s
                 = counts_of (FgdComparator.compare_properties it
                                (ent_properties css_entity)
                                (ent_properties csgo_entity))
               ∧ inputs_changed s
                 = counts_of (FgdComparator.compare_io it
                                (ent_inputs css_entity)
                                (ent_inputs csgo_entity) "input")
               ∧ outputs_changed s
                 = counts_of (FgdComparator.compare_io it
                                (ent_outputs css_entity)
                                (ent_outputs csgo_entity) "output")
               ∧ spawnflags_changed s = counts_of spawnflag_diff
               ∧ dict_get (KStr "backward_porting_complexity") differences
                 = Some (PStr (FgdComparator.bucket (weighted_sum s)))
               ∧ dict_get (KStr "changes_summary") differences
                 = Some (PDict
                           [(KStr "properties",
                             counts_py (properties_changed s));
                            (KStr "inputs", counts_py (inputs_changed s));
                            (KStr "outputs", counts_py (outputs_changed s));
                            (KStr "spawnflags",
                             counts_py (spawnflags_changed s))]))
  end.
Proof.
  unfold FgdComparator.compare_entity. cbv zeta.
  destruct (FgdComparator.compare_spawnflags it _ _) as [spawnflag_diff|e]
    eqn:Hsd; [|done].
  cbn [mbind result_bind].
  pose proof (fgd_compare_spawnflags_shape _ _ _ _ Hsd) as Hflags.
  pose proof (fgd_compare_properties_shape it (ent_properties css_entity)
                (ent_properties csgo_entity)) as Hprops.
  pose proof (fgd_compare_io_shape it (ent_inputs css_entity)
                (ent_inputs csgo_entity) "input") as Hinputs.
  pose proof (fgd_compare_io_shape it (ent_outputs css_entity)
                (ent_outputs csgo_entity) "output") as Houtputs.
  rewrite !count_changes_counts_of by done.
  destruct (fgd_differences_has_summary
              (bool_decide (ent_class_type css_entity ≠ ent_class_type csgo_entity))
              (bool_decide (ent_description css_entity ≠ ent_description csgo_entity))
              (css_csgo (PStr (ent_class_type css_entity))
                        (PStr (ent_class_type csgo_entity)))
              (css_csgo (py_opt_str (ent_description css_entity))
                        (py_opt_str (ent_description csgo_entity)))
              (ent_definitions css_entity) (ent_definitions csgo_entity)
              (FgdComparator.compare_properties it (ent_properties css_entity)
                 (ent_properties csgo_entity))
              spawnflag_diff
              (FgdComparator.compare_io it (ent_inputs css_entity)
                 (ent_inputs csgo_entity) "input")
              (FgdComparator.compare_io it (ent_outputs css_entity)
                 (ent_outputs csgo_entity) "output")
              (counts_of (FgdComparator.compare_properties it
                            (ent_properties css_entity)
                            (ent_properties csgo_entity)))
              (counts_of (FgdComparator.compare_io it (ent_inputs css_entity)
                            (ent_inputs csgo_entity) "input"))
              (counts_of (FgdComparator.compare_io it (ent_outputs css_entity)
                            (ent_outputs csgo_entity) "output"))
              (counts_of spawnflag_diff))
    as (s & Hs & _ & Hs1 & Hs2 & Hs3 & Hs4).
  cbv zeta in Hs.
  match goal with
  | |- context [if truthy (PDict ?before) then _ else _] =>
      assert (before = []
              ↔ ent_class_type css_entity = ent_class_type csgo_entity
                ∧ ent_description css_entity = ent_description csgo_entity
                ∧ filter (fun d => FgdComparator.is_base d)
                         (ent_definitions css_entity)
                  = filter (fun d => FgdComparator.is_base d)
                           (ent_definitions csgo_entity)
                ∧ FgdComparator.compare_properties it
                    (ent_properties css_entity) (ent_properties csgo_entity)
                  = PNone
                ∧ spawnflag_diff = PNone
                ∧ FgdComparator.compare_io it (ent_inputs css_entity)
                    (ent_inputs csgo_entity) "input" = PNone
                ∧ FgdComparator.compare_io it (ent_outputs css_entity)
                    (ent_outputs csgo_entity) "output" = PNone) as Hempty;
        [|destruct (truthy (PDict before)) eqn:Hdiff]
  end.
  { rewrite !cond_set_nil, !bool_decide_ne_false,
      fgd_compare_definitions_falsy, !three_collections_falsy by done.
    tauto. }
  - cbn [mbind result_bind].
    destruct (complexity_score_weighted_sum _ s Hs) as (score & Hscore & Heq).
    unfold FgdComparator.calculate_porting_complexity. rewrite Hscore.
    cbn [mbind result_bind mret result_ret].
    eexists. split; [done|]. split.
    + split.
      * intros Hnil. by apply dict_set_not_nil in Hnil.
      * intros Hsame. apply Hempty in Hsame. by rewrite Hsame in Hdiff.
    + right. exists s. split; [by apply has_summary_dict_set|].
      do 4 (split; [done|]). split.
      * rewrite dict_get_dict_set_eq. do 2 f_equal. by apply bucket_proper.
      * rewrite dict_get_dict_set_ne by done. rewrite dict_get_dict_set_eq.
        by rewrite Hs1, Hs2, Hs3, Hs4.
  - eexists. split; [done|]. split; [done|]. left. by apply truthy_PDict_nil.
Qed.

(** X13.  [compare_entity] of [fgdcomparator.py] raises exactly what
    [compare_spawnflags] raises for the two lists of flags and nothing else.
    When it returns, the diff is empty exactly when the two entities agree in
    class type, description and base clauses and the comparisons of their
    properties, spawnflags, inputs and outputs all answer [None]. *)
Theorem fgd_compare_entity_empty_iff (it : iteration)
    (css_entity csgo_entity : FgdEntity) :
  match FgdComparator.compare_spawnflags it (ent_spawnflags css_entity)
          (ent_spawnflags csgo_entity) with
  | Raise e =>
      FgdComparator.compare_entity it css_entity csgo_entity = Raise e
  | Ok spawnflag_diff =>
      ∃ differences,
        FgdComparator.compare_entity it css_entity csgo_entity = Ok differences
        ∧ (differences = []
           ↔ ent_class_type css_entity = ent_class_type csgo_entity
             ∧ ent_description css_entity = ent_description csgo_entity
             ∧ filter (fun d => FgdComparator.is_base d)
                      (ent_definitions css_entity)
               = filter (fun d => FgdComparator.is_base d)
                        (ent_definitions csgo_entity)
             ∧ FgdComparator.compare_properties it
                 (ent_properties css_entity) (ent_properties csgo_entity)
               = PNone
             ∧ spawnflag_diff = PNone
             ∧ FgdComparator.compare_io it (ent_inputs css_entity)
                 (ent_inputs csgo_entity) "input" = PNone
             ∧ FgdComparator.compare_io it (ent_outputs css_entity)
                 (ent_outputs csgo_entity) "output" = PNone)
  end.
Proof.
  pose proof (fgd_compare_entity_full it css_entity csgo_entity) as Hfull.
  destruct (FgdComparator.compare_spawnflags it _ _) as [spawnflag_diff|e];
    [|done].
  destruct Hfull as (differences & Hdiff & Hempty & _). by exists differences.
Qed.

(** X14.  A non-empty per-entity diff of [fgdcomparator.py] carries a
    change summary whose twelve counts are the lengths of the new, removed
    and modified collections that [compare_properties], [compare_io] (inputs
    and outputs) and [compare_spawnflags] returned for the entity, and its
    [backward_porting_complexity] is the bucket of the weighted sum of that
    summary. *)
Theorem fgd_summary_counts_are_lengths (it : iteration)
    (css_entity csgo_entity : FgdEntity) (spawnflag_diff : pyval) :
  FgdComparator.compare_spawnflags it (ent_spawnflags css_entity)
    (ent_spawnflags csgo_entity) = Ok spawnflag_diff →
  ∃ differences,
    FgdComparator.compare_entity it css_entity csgo_entity = Ok differences
    ∧ (differences = []
       ∨ ∃ s,
           has_summary differences s
           ∧ properties_changed s
             = counts_of (FgdComparator.compare_properties it
                            (ent_properties css_entity)
                            (ent_properties csgo_entity))
           ∧ inputs_changed s
             = counts_of (FgdComparator.compare_io it (ent_inputs css_entity)
                            (ent_inputs csgo_entity) "input")
           ∧ outputs_changed s
             = counts_of (FgdComparator.compare_io it (ent_outputs css_entity)
                            (ent_outputs csgo_entity) "output")
           ∧ spawnflags_changed s = counts_of spawnflag_diff
           ∧ dict_get (KStr "backward_porting_complexity") differences
             = Some (PStr (FgdComparator.bucket (weighted_sum s)))).
Proof.
  intros Hsd.
  pose proof (fgd_compare_entity_full it css_entity csgo_entity) as Hfull.
  rewrite Hsd in Hfull.
  destruct Hfull as (differences & Hdiff & _ & Hsummary).
  exists differences. split; [done|].
  destruct Hsummary as [->|(s & ? & ? & ? & ? & ? & ? & _)]; [by left|].
  right. by exists s.
Qed.

Lemma fgd_summary_counts_are_lengths_witness :
  ∃ spawnflag_diff,
    FgdComparator.compare_spawnflags ascending (ent_spawnflags door_css)
      (ent_spawnflags door_csgo) = Ok spawnflag_diff
    ∧ ∃ differences,
        FgdComparator.compare_entity ascending door_css door_csgo
        = Ok differences
        ∧ (differences = []
           ∨ ∃ s,
               has_summary differences s
               ∧ properties_changed s
                 = counts_of (FgdComparator.compare_properties ascending
                                (ent_properties door_css)
                                (ent_properties door_csgo))
               ∧ inputs_changed s
                 = counts_of (FgdComparator.compare_io ascending
                                (ent_inputs door_css)
                                (ent_inputs door_csgo) "input")
               ∧ outputs_changed s
                 = counts_of (FgdComparator.compare_io ascending
                                (ent_outputs door_css)
                                (ent_outputs door_csgo) "output")
               ∧ spawnflags_changed s = counts_of spawnflag_diff
               ∧ dict_get (KStr "backward_porting_complexity") differences
                 = Some (PStr (FgdComparator.bucket (weighted_sum s)))).
Proof.
  eexists. split; [vm_compute; reflexivity|].
  apply (fgd_summary_counts_are_lengths ascending door_css door_csgo).
  vm_compute; reflexivity.
Defined.

(** ** Whole schemas in [fgdcomparator.py] *)

Lemma for_each_raise {A S : Type} (f : S → A → result S) s l e :
  for_each f s l = Raise e → ∃ s' x, x ∈ l ∧ f s' x = Raise e.
Proof.
  revert s. induction l as [|x l IH]; intros s; [done|].
  cbn [for_each]. destruct (f s x) as [s'|e'] eqn:Hf; simpl.
  - intros (s'' & y & Hin & Hy)%IH. exists s'', y. split; [by right|done].
  - intros [= ->]. exists s, x. split; [by left|done].
Qed.

Lemma fgd_compare_spawnflags_raise it css_flags csgo_flags e :
  FgdComparator.compare_spawnflags it css_flags csgo_flags = Raise e →
  ∃ flag, flag ∈ css_flags ++ csgo_flags
          ∧ ¬ integer_valued flag
          ∧ e = ValueError (flag_literal_str (flag_value flag)).
Proof.
  unfold FgdComparator.compare_spawnflags, FgdComparator.flag_dict.
  pose proof (flag_dict_from_result css_flags ∅) as Hcss.
  destruct (head (filter _ css_flags)) as [flag|] eqn:Hhead.
  - rewrite Hcss. intros [= <-].
    apply head_Some_elem_of, list_elem_of_filter in Hhead as [? ?].
    exists flag. split; [set_solver|done].
  - destruct Hcss as [d1 ->]. simpl.
    pose proof (flag_dict_from_result csgo_flags ∅) as Hcsgo.
    destruct (head (filter _ csgo_flags)) as [flag|] eqn:Hhead'.
    + rewrite Hcsgo. intros [= <-].
      apply head_Some_elem_of, list_elem_of_filter in Hhead' as [? ?].
      exists flag. split; [set_solver|done].
    + destruct Hcsgo as [d2 ->]. simpl.
      by destruct (foldl _ _ _) as [[new removed] modified].
Qed.

Lemma fgd_porting_issues_loop_ok it css_fgd csgo_fgd names issues :
  (∀ name, name ∈ names →
     name ∈ (set_of (fun e => lower (ent_name e)) (entities csgo_fgd)
             : gset string)) →
  ∃ issues',
    for_each (FgdComparator.porting_issues_step it css_fgd csgo_fgd)
      issues names = Ok issues'.
Proof.
  revert issues. induction names as [|name names IH]; intros issues Hin;
    [by eexists|].
  cbn [for_each].
  destruct (fgd_porting_issues_step_ok it css_fgd csgo_fgd issues name)
    as [issues' ->]; [set_solver|].
  cbn [mbind result_bind]. apply IH. set_solver.
Qed.

(** X15.  [compare_fgds] of [fgdcomparator.py] can only end with the
    [ValueError] of a spawnflag value: when it raises, the exception is the
    one [int()] raises for a flag of the first CS:S or first CS:GO entity
    under a name common to both schemas.  Neither [next], nor a dict lookup
    of [count_changes] or [calculate_porting_complexity] ever fails, and when
    every flag value is an integer a report is returned. *)
Theorem fgd_compare_fgds_raises_only_for_flags (it : iteration) (now : string)
    (css_fgd csgo_fgd : Fgd) :
  iteration_ok it →
  (∀ e, FgdComparator.compare_fgds it now css_fgd csgo_fgd = Raise e →
        ∃ name css_entity csgo_entity flag,
          head (entities_named css_fgd name) = Some css_entity
          ∧ head (entities_named csgo_fgd name) = Some csgo_entity
          ∧ flag ∈ ent_spawnflags css_entity ++ ent_spawnflags csgo_entity
          ∧ ¬ integer_valued flag
          ∧ e = ValueError (flag_literal_str (flag_value flag)))
  ∧ (integer_flags css_fgd → integer_flags csgo_fgd →
     ∃ report, FgdComparator.compare_fgds it now css_fgd csgo_fgd = Ok report).
Proof.
  intros Hit. split; [|by apply fgd_compare_fgds_ok].
  intros e. unfold FgdComparator.compare_fgds. cbv zeta.
  destruct (for_each (FgdComparator.modified_entities_step it css_fgd csgo_fgd)
              _ _) as [modified|e'] eqn:Hloop.
  - cbn [mbind result_bind].
    edestruct (fgd_porting_issues_loop_ok it css_fgd csgo_fgd) as [issues ->];
      [|done].
    intros name. by rewrite (elem_of_iter_str it Hit).
  - cbn [mbind result_bind]. intros [= ->].
    apply for_each_raise in Hloop as (modified & name & Hin & Hstep).
    rewrite (elem_of_iter_str it Hit), elem_of_intersection in Hin.
    destruct Hin as [H1 H2].
    unfold FgdComparator.modified_entities_step in Hstep.
    destruct (entities_named_next css_fgd name H1) as (e1 & Hn1 & Hh1 & _).
    destruct (entities_named_next csgo_fgd name H2) as (e2 & Hn2 & Hh2 & _).
    rewrite Hn1, Hn2 in Hstep. cbn [mbind result_bind] in Hstep.
    pose proof (fgd_compare_entity_full it e1 e2) as Hfull.
    destruct (FgdComparator.compare_spawnflags it _ _) as [diff|e'] eqn:Hflags.
    + destruct Hfull as (differences & Hdiff & _). by rewrite Hdiff in Hstep.
    + rewrite Hfull in Hstep. simpl in Hstep. injection Hstep as <-.
      apply fgd_compare_spawnflags_raise in Hflags as (flag & ? & ? & ?).
      by exists name, e1, e2, flag.
Qed.

Lemma fgd_compare_fgds_raises_only_for_flags_witness :
  iteration_ok ascending
  ∧ FgdComparator.compare_fgds ascending "2024-01-01T00:00:00"
      bad_flag_fgd bad_flag_fgd = Raise (ValueError "abc")
  ∧ ∃ name css_entity csgo_entity flag,
      head (entities_named bad_flag_fgd name) = Some css_entity
      ∧ head (entities_named bad_flag_fgd name) = Some csgo_entity
      ∧ flag ∈ ent_spawnflags css_entity ++ ent_spawnflags csgo_entity
      ∧ ¬ integer_valued flag
      ∧ ValueError "abc" = ValueError (flag_literal_str (flag_value flag)).
Proof.
  split; [exact ascending_ok|]. split; [vm_compute; reflexivity|].
  apply (proj1 (fgd_compare_fgds_raises_only_for_flags ascending
                  "2024-01-01T00:00:00" bad_flag_fgd bad_flag_fgd
                  ascending_ok) (ValueError "abc")).
  vm_compute; reflexivity.
Defined.

Lemma fgd_modified_entities_values it css_fgd csgo_fgd names acc modified :
  for_each (FgdComparator.modified_entities_step it css_fgd csgo_fgd) acc names
  = Ok modified →
  ∀ k v, dict_get k modified = Some v →
    dict_get k acc = Some v
    ∨ ∃ css_entity csgo_entity differences,
        FgdComparator.compare_entity it css_entity csgo_entity = Ok differences
        ∧ differences ≠ []
        ∧ v = PDict differences.
Proof.
  revert acc. induction names as [|name names IH]; intros acc.
  - intros [= <-] k v Hk. by left.
  - cbn [for_each].
    destruct (FgdComparator.modified_entities_step it css_fgd csgo_fgd acc name)
      as [acc'|] eqn:Hstep; [|done].
    cbn [mbind result_bind]. intros Hloop k v Hk.
    destruct (IH _ Hloop k v Hk) as [Hacc|Hfound]; [|by right].
    unfold FgdComparator.modified_entities_step in Hstep.
    destruct (next (entities_named css_fgd name)) as [e1|]; [|done].
    destruct (next (entities_named csgo_fgd name)) as [e2|]; [|done].
    cbn [mbind result_bind] in Hstep.
    destruct (FgdComparator.compare_entity it e1 e2) as [differences|] eqn:Hdiff;
      [|done].
    cbn [mbind result_bind mret result_ret] in Hstep. injection Hstep as <-.
    destruct differences as [|entry differences]; [by left|].
    cbn [truthy] in Hacc. rewrite dict_get_dict_set in Hacc.
    destruct (decide (KStr (ent_name e2) = k)) as [_|_]; [|by left].
    injection Hacc as <-. right. by exists e1, e2, (entry :: differences).
Qed.

Lemma ranking_key_counts (differences : pydict) (c1 c2 c3 c4 : counts) :
  dict_get (KStr "changes_summary") differences
  = Some (PDict [(KStr "properties", counts_py c1);
                 (KStr "inputs", counts_py c2);
                 (KStr "outputs", counts_py c3);
                 (KStr "spawnflags", counts_py c4)]) →
  ranking_key (PDict differences)
  = Some (n_new c1 + n_removed c1 + n_modified c1
          + n_new c2 + n_removed c2 + n_modified c2
          + n_new c3 + n_removed c3 + n_modified c3
          + n_new c4 + n_removed c4 + n_modified c4).
Proof.
  intros Hsummary. unfold ranking_key. rewrite Hsummary. simpl.
  f_equal. lia.
Qed.

(** X16.  Every entry that [compare_fgds] of [fgdcomparator.py] files
    under [modified_entities] is a dict with a [changes_summary] of the four
    kinds, each with its three counts, and with a
    [backward_porting_complexity] that is one of High, Medium and Low: the
    lookups that [main] makes for every modified entity succeed, and the key
    by which it ranks the entity is the total number of changes counted in
    the summary. *)
Theorem fgd_modified_entities_carry_summary (it : iteration) (now : string)
    (css_fgd csgo_fgd : Fgd) (report : pyval) :
  FgdComparator.compare_fgds it now css_fgd csgo_fgd = Ok report →
  ∀ k changes,
    report_entry "modified_entities" k report = Some changes →
    ∃ differences s,
      changes = PDict differences
      ∧ has_summary differences s
      ∧ py_getitem changes "changes_summary"
        = Ok (PDict [(KStr "properties", counts_py (properties_changed s));
                     (KStr "inputs", counts_py (inputs_changed s));
                     (KStr "outputs", counts_py (outputs_changed s));
                     (KStr "spawnflags", counts_py (spawnflags_changed s))])
      ∧ py_getitem changes "backward_porting_complexity"
        = Ok (PStr (FgdComparator.bucket (weighted_sum s)))
      ∧ FgdComparator.bucket (weighted_sum s) ∈ ["High"; "Medium"; "Low"]
      ∧ ranking_key changes = Some (total_changes s).
Proof.
  unfold FgdComparator.compare_fgds. cbv zeta.
  destruct (for_each (FgdComparator.modified_entities_step it css_fgd csgo_fgd)
              _ _) as [modified|] eqn:Hloop; [|done].
  cbn [mbind result_bind].
  destruct (for_each (FgdComparator.porting_issues_step it css_fgd csgo_fgd)
              _ _) as [issues|]; [|done].
  cbn [mbind result_bind mret result_ret]. intros [= <-] k changes.
  change (report_entry "modified_entities" k _) with (dict_get k modified).
  intros Hk.
  destruct (fgd_modified_entities_values _ _ _ _ _ _ Hloop k changes Hk)
    as [Hnil|(e1 & e2 & differences & Hdiff & Hne & ->)]; [done|].
  pose proof (fgd_compare_entity_full it e1 e2) as Hfull.
  destruct (FgdComparator.compare_spawnflags it _ _) as [spawnflag_diff|e];
    [|congruence].
  destruct Hfull as (differences' & Hdiff' & _ & Hsummary).
  assert (differences' = differences) as -> by congruence.
  destruct Hsummary as [->|(s & Hs & _ & _ & _ & _ & Hlabel & Hshape)]; [done|].
  exists differences, s. split; [done|]. split; [done|].
  unfold py_getitem. rewrite Hshape, Hlabel. split; [done|]. split; [done|].
  split.
  - unfold FgdComparator.bucket.
    destruct (negb _); [set_solver|]. destruct (negb _); set_solver.
  - by rewrite (ranking_key_counts _ _ _ _ _ Hshape).
Qed.

Lemma fgd_modified_entities_carry_summary_witness :
  ∃ report,
    FgdComparator.compare_fgds ascending "2024-01-01T00:00:00"
      (sample_fgd [door_css]) (sample_fgd [door_csgo]) = Ok report
    ∧ ∀ k changes,
        report_entry "modified_entities" k report = Some changes →
        ∃ differences s,
          changes = PDict differences
          ∧ has_summary differences s
          ∧ py_getitem changes "changes_summary"
            = Ok (PDict [(KStr "properties", counts_py (properties_changed s));
                         (KStr "inputs", counts_py (inputs_changed s));
                         (KStr "outputs", counts_py (outputs_changed s));
                         (KStr "spawnflags",
                          counts_py (spawnflags_changed s))])
          ∧ py_getitem changes "backward_porting_complexity"
            = Ok (PStr (FgdComparator.bucket (weighted_sum s)))
          ∧ FgdComparator.bucket (weighted_sum s) ∈ ["High"; "Medium"; "Low"]
          ∧ ranking_key changes = Some (total_changes s).
Proof.
  eexists. split; [vm_compute; reflexivity|].
  apply (fgd_modified_entities_carry_summary ascending "2024-01-01T00:00:00"
           (sample_fgd [door_css]) (sample_fgd [door_csgo])).
  vm_compute; reflexivity.
Defined.

Lemma head_entities_named_set fgd name e :
  head (entities_named fgd name) = Some e →
  name ∈ (set_of (fun e => lower (ent_name e)) (entities fgd) : gset string).
Proof.
  intros [Hin Hname]%head_Some_elem_of%list_elem_of_filter.
  apply elem_of_set_of. by exists e.
Qed.

(** X17.  The backward-porting issues of [fgdcomparator.py] are exactly
    these.  The High issue of an entity name is in the list exactly when the
    name is in [new_entities].  The Medium issue of a property under an
    entity name is in the list exactly when both schemas have an entity of
    that lower-cased name and, of the first such entity of either schema,
    the CS:GO one has a property spelled that way and the CS:S one has
    none.  The list has no other issue. *)
Theorem fgd_high_issues_are_new_entities (it : iteration) (now : string)
    (css_fgd csgo_fgd : Fgd) (report : pyval) :
  iteration_ok it →
  FgdComparator.compare_fgds it now css_fgd csgo_fgd = Ok report →
  (∀ name,
     FgdComparator.new_entity_issue name
       ∈ report_list "backward_porting_issues" report
     ↔ name ∈ report_strings "new_entities" report)
  ∧ (∀ name prop,
       FgdComparator.new_property_issue name prop
         ∈ report_list "backward_porting_issues" report
       ↔ ∃ css_entity csgo_entity,
           head (entities_named css_fgd name) = Some css_entity
           ∧ head (entities_named csgo_fgd name) = Some csgo_entity
           ∧ (∃ p, p ∈ ent_properties csgo_entity ∧ prop_name p = prop)
           ∧ ¬ (∃ p, p ∈ ent_properties css_entity ∧ prop_name p = prop))
  ∧ (∀ issue,
       issue ∈ report_list "backward_porting_issues" report →
       (∃ name, issue = FgdComparator.new_entity_issue name)
       ∨ (∃ name prop, issue = FgdComparator.new_property_issue name prop)).
Proof.
  intros Hit Hreport.
  rewrite (fgd_porting_issues _ _ _ _ _ Hreport).
  rewrite (proj1 (fgd_compare_fgds_lists _ _ _ _ _ Hreport)).
  assert (∀ name issue,
            name ∈ iter_str it
                     (set_of (fun e => lower (ent_name e)) (entities csgo_fgd)) →
            issue ∈ issues_of it css_fgd csgo_fgd name →
            (issue = FgdComparator.new_entity_issue name
             ∧ name ∈ sorted_str
                        (iter_str it
                           (set_of (fun e => lower (ent_name e))
                                   (entities csgo_fgd)
                            ∖ set_of (fun e => lower (ent_name e))
                                     (entities css_fgd))))
            ∨ (∃ css_entity csgo_entity prop,
                 head (entities_named css_fgd name) = Some css_entity
                 ∧ head (entities_named csgo_fgd name) = Some csgo_entity
                 ∧ (∃ p, p ∈ ent_properties csgo_entity ∧ prop_name p = prop)
                 ∧ ¬ (∃ p, p ∈ ent_properties css_entity ∧ prop_name p = prop)
                 ∧ issue = FgdComparator.new_property_issue name prop))
    as Hcases.
  { intros name issue Hcsgo%(elem_of_iter_str it Hit) Hissue.
    destruct (decide (name ∈ (set_of (fun e => lower (ent_name e))
                                     (entities css_fgd) : gset string)))
      as [Hcss|Hcss].
    - right.
      by apply (fgd_matched_entity_issues it css_fgd csgo_fgd name issue Hit
                  Hcsgo Hcss) in Hissue.
    - left. rewrite (fgd_new_entity_issues it _ _ _ Hcsgo Hcss) in Hissue.
      apply list_elem_of_singleton in Hissue as ->. split; [done|].
      unfold sorted_str. rewrite elem_of_sorted, (elem_of_iter_str it Hit).
      by apply elem_of_difference. }
  split; [|split].
  - intros name. rewrite list_elem_of_bind. split.
    + intros (name' & Hissue & Hin).
      destruct (Hcases name' _ Hin Hissue)
        as [[[= ->] ?]|(e1 & e2 & prop & _ & _ & _ & _ & [=])].
      done.
    + unfold sorted_str.
      rewrite elem_of_sorted, (elem_of_iter_str it Hit), elem_of_difference.
      intros [Hcsgo Hcss]. exists name.
      rewrite (fgd_new_entity_issues it _ _ _ Hcsgo Hcss).
      split; [by left|]. by apply (elem_of_iter_str it Hit).
  - intros name prop. rewrite list_elem_of_bind. split.
    + intros (name' & Hissue & Hin).
      destruct (Hcases name' _ Hin Hissue)
        as [[[=] ?]|(e1 & e2 & prop' & H1 & H2 & H3 & H4 & [= -> ->])].
      by exists e1, e2.
    + intros (e1 & e2 & H1 & H2 & H3 & H4).
      pose proof (head_entities_named_set _ _ _ H1) as Hcss.
      pose proof (head_entities_named_set _ _ _ H2) as Hcsgo.
      exists name. split; [|by apply (elem_of_iter_str it Hit)].
      apply (fgd_matched_entity_issues it css_fgd csgo_fgd name _ Hit
               Hcsgo Hcss).
      by exists e1, e2, prop.
  - intros issue (name & Hissue & Hin)%list_elem_of_bind.
    destruct (Hcases name issue Hin Hissue)
      as [[-> ?]|(e1 & e2 & prop & _ & _ & _ & _ & ->)].
    + left. by exists name.
    + right. by exists name, prop.
Qed.

Lemma fgd_high_issues_are_new_entities_witness :
  iteration_ok ascending
  ∧ ∃ report,
      FgdComparator.compare_fgds ascending "2024-01-01T00:00:00"
        (sample_fgd [door_css])
        (sample_fgd [door_csgo; sample_entity "new_trigger" [] [] []])
      = Ok report
      ∧ ∀ name,
          FgdComparator.new_entity_issue name
            ∈ report_list "backward_porting_issues" report
          ↔ name ∈ report_strings "new_entities" report.
Proof.
  split; [exact ascending_ok|].
  eexists. split; [vm_compute; reflexivity|].
  apply (fgd_high_issues_are_new_entities ascending "2024-01-01T00:00:00"
           (sample_fgd [door_css])
           (sample_fgd [door_csgo; sample_entity "new_trigger" [] [] []])
           _ ascending_ok).
  vm_compute; reflexivity.
Defined.

(** ** Editor data *)

Lemma editor_modified_keys (css_data csgo_data : gmap (list string) FgdEditorData)
    keys k :
  k ∈ dict_keys
        (foldl (fun modified key =>
                  match css_data !! key, csgo_data !! key with
                  | Some css_ed, Some csgo_ed =>
                      if negb (py_eq (ed_data css_ed) (ed_data csgo_ed))
                      then dict_set (KTuple key)
                             (css_csgo (ed_data css_ed) (ed_data csgo_ed))
                             modified
                      else modified
                  | _, _ => modified
                  end) [] keys)
  ↔ ∃ key css_ed csgo_ed,
      key ∈ keys ∧ css_data !! key = Some css_ed
      ∧ csgo_data !! key = Some csgo_ed
      ∧ py_eq (ed_data css_ed) (ed_data csgo_ed) = false
      ∧ k = KTuple key.
Proof.
  induction keys as [|key keys IH] using rev_ind.
  - simpl. split; [by intros ?%elem_of_nil|].
    by intros (key & a & b & ?%elem_of_nil & _).
  - rewrite foldl_app. cbn [foldl].
    destruct (css_data !! key) as [a|] eqn:Ha;
      destruct (csgo_data !! key) as [b|] eqn:Hb.
    + destruct (py_eq (ed_data a) (ed_data b)) eqn:Hne; cbn [negb].
      * rewrite IH. split.
        -- intros (key' & a' & b' & Hin & ?). exists key', a', b'. set_solver.
        -- intros (key' & a' & b'
                   & [Hin| ->%list_elem_of_singleton]%elem_of_app
                   & Ha' & Hb' & Hne' & ->).
           ++ by exists key', a', b'.
           ++ congruence.
      * rewrite dict_keys_dict_set, IH. split.
        -- intros [->|(key' & a' & b' & Hin & ?)].
           ++ exists key, a, b. set_solver.
           ++ exists key', a', b'. set_solver.
        -- intros (key' & a' & b'
                   & [Hin| ->%list_elem_of_singleton]%elem_of_app & ? & ? & ? & ->).
           ++ right. by exists key', a', b'.
           ++ by left.
    + rewrite IH. split.
      * intros (key' & a' & b' & Hin & ?). exists key', a', b'. set_solver.
      * intros (key' & a' & b' & [Hin| ->%list_elem_of_singleton]%elem_of_app
                & Ha' & Hb' & Hne' & ->); [|congruence].
        by exists key', a', b'.
    + rewrite IH. split.
      * intros (key' & a' & b' & Hin & ?). exists key', a', b'. set_solver.
      * intros (key' & a' & b' & [Hin| ->%list_elem_of_singleton]%elem_of_app
                & Ha' & Hb' & Hne' & ->); [|congruence].
        by exists key', a', b'.
    + rewrite IH. split.
      * intros (key' & a' & b' & Hin & ?). exists key', a', b'. set_solver.
      * intros (key' & a' & b' & [Hin| ->%list_elem_of_singleton]%elem_of_app
                & Ha' & Hb' & Hne' & ->); [|congruence].
        by exists key', a', b'.
Qed.

(** Python's [==] on two payloads that differ only in the order in which
    the keys of a dict went in, or in a boolean written as a number. *)
Example py_eq_samples :
  py_eq (PDict [(KStr "a", PInt 1); (KStr "b", PInt 2)])
        (PDict [(KStr "b", PInt 2); (KStr "a", PInt 1)]) = true
  ∧ py_eq (PList [PBool true]) (PList [PInt 1]) = true
  ∧ py_eq (PList [PInt 1; PInt 2]) (PList [PInt 2; PInt 1]) = false
  ∧ py_eq (PStr "a") (PInt 1) = false
  ∧ py_eq PNone (PInt 0) = false
  ∧ py_eq (PDict [(KStr "a", PDict [(KStr "x", PBool false); (KStr "y", PNone)])])
          (PDict [(KStr "a", PDict [(KStr "y", PNone); (KStr "x", PInt 0)])])
    = true.
Proof. by vm_compute. Qed.

(** X18.  What [compare_editor_data] reports.  Blocks are filed under
    (class type, name), or under the class type alone when the name is
    missing or empty, and a later block replaces an earlier one with the same
    key.  A block is listed as new when only the CS:GO side has its key, as
    removed when only the CS:S side has it, and [modified] has the key, a
    tuple, exactly when both sides have it with data that Python's [!=]
    tells apart. *)
Theorem compare_editor_data_content (it : iteration)
    (css_editor_data csgo_editor_data : list FgdEditorData) :
  iteration_ok it →
  let changes :=
    CsgoToCss.compare_editor_data it css_editor_data csgo_editor_data in
  (∀ ed, CsgoToCss.get_key ed
         = match ed_name ed with
           | Some name => if decide (name = "") then [ed_class_type ed]
                          else [ed_class_type ed; name]
           | None => [ed_class_type ed]
           end)
  ∧ (∀ v, v ∈ report_list "new" changes
          ↔ ∃ key ed,
              last_block csgo_editor_data key = Some ed
              ∧ last_block css_editor_data key = None
              ∧ v = ed_to_dict ed)
  ∧ (∀ v, v ∈ report_list "removed" changes
          ↔ ∃ key ed,
              last_block css_editor_data key = Some ed
              ∧ last_block csgo_editor_data key = None
              ∧ v = ed_to_dict ed)
  ∧ (∀ k, k ∈ report_keys "modified" changes
          ↔ ∃ key css_ed csgo_ed,
              last_block css_editor_data key = Some css_ed
              ∧ last_block csgo_editor_data key = Some csgo_ed
              ∧ py_eq (ed_data css_ed) (ed_data csgo_ed) = false
              ∧ k = KTuple key).
Proof.
  intros Hit. cbv zeta. unfold last_block.
  setoid_rewrite <- (dict_of_lookup CsgoToCss.get_key).
  split; [|split; [|split]].
  - intros ed. unfold CsgoToCss.get_key.
    destruct (ed_name ed) as [name|]; [|done]. simpl.
    by destruct (decide (name = "")); case_bool_decide.
  - intros v. unfold CsgoToCss.compare_editor_data. cbv zeta.
    change (report_list "new" (PDict ((KStr "new", PList ?new) :: _)))
      with new.
    rewrite list_elem_of_omap.
    setoid_rewrite (elem_of_iter_tuple it Hit).
    setoid_rewrite elem_of_difference.
    setoid_rewrite not_elem_of_dom. split.
    + intros (key & [_ Hcss] & Hv).
      destruct (dict_of _ csgo_editor_data !! key) as [ed|] eqn:Hed; [|done].
      injection Hv as <-. by exists key, ed.
    + intros (key & ed & Hcsgo & Hcss & ->). exists key.
      rewrite Hcsgo. split; [|done]. split; [|done].
      apply elem_of_dom. by eexists.
  - intros v. unfold CsgoToCss.compare_editor_data. cbv zeta.
    change (report_list "removed"
              (PDict (_ :: (KStr "removed", PList ?removed) :: _)))
      with removed.
    rewrite list_elem_of_omap.
    setoid_rewrite (elem_of_iter_tuple it Hit).
    setoid_rewrite elem_of_difference.
    setoid_rewrite not_elem_of_dom. split.
    + intros (key & [_ Hcsgo] & Hv).
      destruct (dict_of _ css_editor_data !! key) as [ed|] eqn:Hed; [|done].
      injection Hv as <-. by exists key, ed.
    + intros (key & ed & Hcss & Hcsgo & ->). exists key.
      rewrite Hcss. split; [|done]. split; [|done].
      apply elem_of_dom. by eexists.
  - intros k. unfold CsgoToCss.compare_editor_data. cbv zeta.
    change (report_keys "modified"
              (PDict (_ :: _ :: (KStr "modified", PDict ?modified) :: _)))
      with (dict_keys modified).
    rewrite editor_modified_keys.
    setoid_rewrite (elem_of_iter_tuple it Hit).
    setoid_rewrite elem_of_intersection.
    setoid_rewrite elem_of_dom. split.
    + intros (key & a & b & _ & ?). by exists key, a, b.
    + intros (key & a & b & Ha & Hb & ?). exists key, a, b.
      split; [|done]. split; by eexists.
Qed.

Lemma compare_editor_data_content_witness :
  iteration_ok ascending
  ∧ ∀ k, k ∈ report_keys "modified"
               (CsgoToCss.compare_editor_data ascending
                  (editor_data editor_css_fgd) (editor_data editor_csgo_fgd))
         ↔ ∃ key css_ed csgo_ed,
             last_block (editor_data editor_css_fgd) key = Some css_ed
             ∧ last_block (editor_data editor_csgo_fgd) key = Some csgo_ed
             ∧ py_eq (ed_data css_ed) (ed_data csgo_ed) = false
             ∧ k = KTuple key.
Proof.
  split; [exact ascending_ok|].
  apply (proj2 (proj2 (proj2
           (compare_editor_data_content ascending
              (editor_data editor_css_fgd) (editor_data editor_csgo_fgd)
              ascending_ok)))).
Defined.
